(** * tricolore.js: ternary compositions mapped to colours

    A shallow embedding of the core of tricolore.js
    ([core/compositionUtils.ts], [core/ternaryGeometry.ts],
    [core/colorMapping.ts]) and the properties its specification states.

    JavaScript numbers are embedded as real numbers extended with the three
    non-finite values of IEEE arithmetic ([NaN], [+Infinity], [-Infinity]).
    Rounding, overflow and the sign of zero are not modelled: a finite
    number is a real, zero is the positive zero.  Everything else follows
    the ECMAScript semantics of the operators and of the [Math] functions
    the code calls.

    Some statements bound the magnitudes of their inputs: the bounds are
    chosen so that no overflow to [Infinity] and no underflow to zero of
    the doubles of the source changes the conclusion, which then differs
    from the one over the reals by rounding only.  The statements without
    such bounds hold of the reals. *)

From Stdlib Require Import Reals Lra Lia ZArith String Ascii Bool List.
Import ListNotations.

(** ** Numbers *)

Inductive num : Type :=
| Fin (r : R)
| PInf
| NInf
| NaN.

Coercion Fin : R >-> num.

Declare Scope js_scope.
Delimit Scope js_scope with js.
Bind Scope js_scope with num.

Module Num.

Local Open Scope R_scope.

Definition Rltb (a b : R) : bool := if Rlt_dec a b then true else false.
Definition Reqb (a b : R) : bool := if Req_dec_T a b then true else false.

(** Truncation toward zero, the rounding of the remainder operator. *)
Definition Rtrunc (x : R) : Z := if Rlt_dec x 0 then Zceil x else Zfloor x.

Definition isNaN (x : num) : bool :=
  match x with NaN => true | _ => false end.

Definition isFinite (x : num) : bool :=
  match x with Fin _ => true | _ => false end.

Definition neg (x : num) : num :=
  match x with
  | Fin r => Fin (- r)
  | PInf => NInf
  | NInf => PInf
  | NaN => NaN
  end.

Definition add (x y : num) : num :=
  match x, y with
  | NaN, _ | _, NaN => NaN
  | Fin a, Fin b => Fin (a + b)
  | PInf, NInf | NInf, PInf => NaN
  | PInf, _ | _, PInf => PInf
  | NInf, _ | _, NInf => NInf
  end.

Definition sub (x y : num) : num := add x (neg y).

(** The sign of an infinite product or quotient. *)
Definition signed (positive : bool) : num := if positive then PInf else NInf.

Definition mul (x y : num) : num :=
  match x, y with
  | NaN, _ | _, NaN => NaN
  | Fin a, Fin b => Fin (a * b)
  | Fin a, PInf | PInf, Fin a =>
      if Reqb a 0 then NaN else signed (Rltb 0 a)
  | Fin a, NInf | NInf, Fin a =>
      if Reqb a 0 then NaN else signed (Rltb a 0)
  | PInf, PInf | NInf, NInf => PInf
  | PInf, NInf | NInf, PInf => NInf
  end.

Definition div (x y : num) : num :=
  match x, y with
  | NaN, _ | _, NaN => NaN
  | Fin a, Fin b =>
      if Reqb b 0
      then (if Reqb a 0 then NaN else signed (Rltb 0 a))
      else Fin (a / b)
  | Fin _, PInf | Fin _, NInf => Fin 0
  | PInf, Fin b => signed (negb (Rltb b 0))
  | NInf, Fin b => signed (Rltb b 0)
  | _, _ => NaN
  end.

(** [x % y]: the remainder has the sign of the dividend. *)
Definition rem (x y : num) : num :=
  match x, y with
  | Fin a, Fin b =>
      if Reqb b 0 then NaN else Fin (a - b * IZR (Rtrunc (a / b)))
  | Fin a, PInf | Fin a, NInf => Fin a
  | _, _ => NaN
  end.

Definition lt (x y : num) : bool :=
  match x, y with
  | Fin a, Fin b => Rltb a b
  | NInf, Fin _ | NInf, PInf | Fin _, PInf => true
  | _, _ => false
  end.

Definition gt (x y : num) : bool := lt y x.

(** Strict equality [===] on numbers: [NaN] equals nothing. *)
Definition eq (x y : num) : bool :=
  match x, y with
  | Fin a, Fin b => Reqb a b
  | PInf, PInf | NInf, NInf => true
  | _, _ => false
  end.

Definition le (x y : num) : bool := lt x y || eq x y.
Definition ge (x y : num) : bool := le y x.

End Num.

Notation "x + y" := (Num.add x y) : js_scope.
Notation "x - y" := (Num.sub x y) : js_scope.
Notation "x * y" := (Num.mul x y) : js_scope.
Notation "x / y" := (Num.div x y) : js_scope.
Notation "- x" := (Num.neg x) : js_scope.
Notation "x 'mod' y" := (Num.rem x y) (at level 40, no associativity) : js_scope.
Notation "x >? y" := (Num.gt x y) (at level 70, no associativity) : js_scope.
Notation "x <? y" := (Num.lt x y) (at level 70, no associativity) : js_scope.
Notation "x <=? y" := (Num.le x y) (at level 70, no associativity) : js_scope.
Notation "x === y" := (Num.eq x y) (at level 70, no associativity) : js_scope.

(** ** The [Math] object *)

Module Math.

Local Open Scope R_scope.

Definition PI : num := Fin Rtrigo1.PI.

Definition floor (x : num) : num :=
  match x with Fin r => Fin (IZR (Zfloor r)) | _ => x end.

(** [Math.round] rounds half-way cases toward [+Infinity]. *)
Definition round (x : num) : num :=
  match x with Fin r => Fin (IZR (Zfloor (r + / 2))) | _ => x end.

Definition sqrt (x : num) : num :=
  match x with
  | Fin r => if Num.Rltb r 0 then NaN else Fin (R_sqrt.sqrt r)
  | PInf => PInf
  | NInf | NaN => NaN
  end.

Definition cos (x : num) : num :=
  match x with Fin r => Fin (Rtrigo_def.cos r) | _ => NaN end.

Definition sin (x : num) : num :=
  match x with Fin r => Fin (Rtrigo_def.sin r) | _ => NaN end.

(** Two-argument minimum and maximum: [NaN] is absorbing. *)
Definition min2 (x y : num) : num :=
  match x, y with
  | NaN, _ | _, NaN => NaN
  | _, _ => if Num.lt y x then y else x
  end.

Definition max2 (x y : num) : num :=
  match x, y with
  | NaN, _ | _, NaN => NaN
  | _, _ => if Num.lt x y then y else x
  end.

(** [Math.min(...xs)]: [+Infinity] for no argument. *)
Definition min (xs : list num) : num := fold_left min2 xs PInf.

Definition abs (x : num) : num :=
  match x with
  | Fin r => Fin (Rabs r)
  | PInf | NInf => PInf
  | NaN => NaN
  end.

Definition exp (x : num) : num :=
  match x with
  | Fin r => Fin (Rtrigo_def.exp r)
  | PInf => PInf
  | NInf => Fin 0
  | NaN => NaN
  end.

(** [Math.log]: [-Infinity] at zero, [NaN] below. *)
Definition log (x : num) : num :=
  match x with
  | Fin r =>
      if Num.Rltb r 0 then NaN
      else if Num.Reqb r 0 then NInf
      else Fin (ln r)
  | PInf => PInf
  | NInf | NaN => NaN
  end.

(** [Math.pow] and [**] (Number::exponentiate). *)
Definition isInteger (r : R) : bool := Num.Reqb (IZR (Zfloor r)) r.

Definition pow (base exponent : num) : num :=
  match exponent with
  | NaN => NaN
  | Fin e =>
      if Num.Reqb e 0 then Fin 1 else
      match base with
      | NaN => NaN
      | PInf => if Num.Rltb 0 e then PInf else Fin 0
      | NInf =>
          if Num.Rltb 0 e
          then (if isInteger e && Z.odd (Zfloor e) then NInf else PInf)
          else Fin 0
      | Fin b =>
          if Num.Reqb b 0 then (if Num.Rltb 0 e then Fin 0 else PInf)
          else if Num.Rltb 0 b then Fin (Rpower b e)
          else if isInteger e then Fin (powerRZ b (Zfloor e))
          else NaN
      end
  | PInf =>
      match base with
      | NaN => NaN
      | PInf | NInf => PInf
      | Fin b =>
          if Num.Rltb 1 (Rabs b) then PInf
          else if Num.Reqb (Rabs b) 1 then NaN else Fin 0
      end
  | NInf =>
      match base with
      | NaN => NaN
      | PInf | NInf => Fin 0
      | Fin b =>
          if Num.Rltb 1 (Rabs b) then Fin 0
          else if Num.Reqb (Rabs b) 1 then NaN else PInf
      end
  end.

Definition atan2 (y x : num) : num :=
  match y, x with
  | NaN, _ | _, NaN => NaN
  | PInf, PInf => Fin (Rtrigo1.PI / 4)
  | PInf, NInf => Fin (3 * Rtrigo1.PI / 4)
  | PInf, Fin _ => Fin (Rtrigo1.PI / 2)
  | NInf, PInf => Fin (- (Rtrigo1.PI / 4))
  | NInf, NInf => Fin (- (3 * Rtrigo1.PI / 4))
  | NInf, Fin _ => Fin (- (Rtrigo1.PI / 2))
  | Fin _, PInf => Fin 0
  | Fin b, NInf => if Num.Rltb b 0 then Fin (- Rtrigo1.PI) else Fin Rtrigo1.PI
  | Fin b, Fin a =>
      if Num.Rltb 0 a then Fin (atan (b / a))
      else if Num.Rltb a 0
           then (if Num.Rltb b 0
                 then Fin (atan (b / a) - Rtrigo1.PI)
                 else Fin (atan (b / a) + Rtrigo1.PI))
      else if Num.Rltb 0 b then Fin (Rtrigo1.PI / 2)
      else if Num.Rltb b 0 then Fin (- (Rtrigo1.PI / 2))
      else Fin 0
  end.

End Math.

(** ** Values, arrays and outcomes *)

(** What a component of an input array can be at run time. *)
Inductive jsval : Type :=
| JNum (x : num)
| JUndefined
| JNull
| JStr (s : string).

(** [typeof v === 'number'] *)
Definition isNumber (v : jsval) : bool :=
  match v with JNum _ => true | _ => false end.

(** The number held by a value already known to be one. *)
Definition numberOf (v : jsval) : num :=
  match v with JNum x => x | _ => NaN end.

(** [a[i]] on an array: [undefined] out of range. *)
Definition item (a : list jsval) (i : nat) : jsval := nth i a JUndefined.

(** [a[i]] for a computed index: absent unless [0 <= i < a.length]. *)
Definition at_index {A : Type} (a : list A) (i : Z) : option A :=
  if (i <? 0)%Z then None else nth_error a (Z.to_nat i).

(** [xs.length] as a number. *)
Definition lengthOf {A : Type} (xs : list A) : num :=
  Fin (IZR (Z.of_nat (List.length xs))).

(** A call returns, throws, or never returns. *)
Inductive outcome (A : Type) : Type :=
| Returns (a : A)
| Throws (message : string)
| Diverges.

Arguments Returns {A} a.
Arguments Throws {A} message.
Arguments Diverges {A}.

(** [TernaryPoint], an array of three numbers.  A point that went through
    [close] is either such an array or a falsy value ([null], or the
    [undefined] of an out-of-range read), which the code only ever tests
    with [!p]: both are [None]. *)
Definition TernaryPoint : Type := (num * num * num)%type.

Module TernaryCentroid.
Record t : Type := mk { id : num; p1 : num; p2 : num; p3 : num }.
End TernaryCentroid.

Module TernaryVertex.
Record t : Type := mk { id : num; vertex : num; p1 : num; p2 : num; p3 : num }.
End TernaryVertex.

Module TricoloreResult.
Record t : Type := mk {
  p1 : jsval; p2 : jsval; p3 : jsval;
  h : option num; c : option num; l : option num;
  rgb : option string }.
End TricoloreResult.

Module SextantResult.
Record t : Type := mk {
  p1 : jsval; p2 : jsval; p3 : jsval;
  sextant : option num;
  rgb : option string }.
End SextantResult.

(** ** Sequencing outcomes and indexed maps *)

Definition bind {A B : Type} (m : outcome A) (f : A -> outcome B) : outcome B :=
  match m with
  | Returns a => f a
  | Throws msg => Throws msg
  | Diverges => Diverges
  end.

Notation "x <- m ;; k" := (bind m (fun x => k))
  (at level 61, m at next level, right associativity).

(** The results of a callback run on each element in turn; the first
    failure ends the run. *)
Fixpoint collect {A : Type} (ms : list (outcome A)) : outcome (list A) :=
  match ms with
  | [] => Returns []
  | m :: rest => a <- m ;; r <- collect rest ;; Returns (a :: r)
  end.

(** [xs.map((x, i) => f x i)] *)
Fixpoint mapiFrom {A B : Type} (f : A -> nat -> B) (i : nat) (xs : list A) : list B :=
  match xs with
  | [] => []
  | x :: rest => f x i :: mapiFrom f (S i) rest
  end.

Definition mapi {A B : Type} (f : A -> nat -> B) (xs : list A) : list B :=
  mapiFrom f 0 xs.

(** [a[x]] for a numeric key [x]: an element only at an integer in range. *)
Definition at_num {A : Type} (a : list A) (x : num) : option A :=
  match x with
  | Fin r => if Math.isInteger r then at_index a (Zfloor r) else None
  | _ => None
  end.

(** ** [CompositionUtils] *)

Module CompositionUtils.

Local Open Scope js_scope.

Definition geometricMean (x : list num) (removeZeros : bool) : num :=
  let values :=
    if removeZeros then filter (fun v => negb (v === Fin 0)) x else x in
  if lengthOf values === Fin 0 then Fin 0
  else
    Math.exp (fold_left (fun sum val => sum + Math.log val) values (Fin 0)
              / lengthOf values).

Definition centre (P : list TernaryPoint) : TernaryPoint :=
  let g1 := geometricMean (map (fun p => fst (fst p)) P) true in
  let g2 := geometricMean (map (fun p => snd (fst p)) P) true in
  let g3 := geometricMean (map (fun p => snd p) P) true in
  let sum := g1 + g2 + g3 in
  (g1 / sum, g2 / sum, g3 / sum).

Definition isValidTernary (point : list jsval) : bool :=
  (List.length point =? 3)%nat &&
  forallb (fun v => isNumber v && negb (Num.isNaN (numberOf v))) point.

(** The callbacks of [P.map] in [close], [perturbe] and [powerScale]. *)
Definition closePoint (p : list jsval) : option TernaryPoint :=
  if negb (isValidTernary p) then None
  else
    let p0 := numberOf (item p 0) in
    let p1 := numberOf (item p 1) in
    let p2 := numberOf (item p 2) in
    let sum := p0 + p1 + p2 in
    Some (p0 / sum, p1 / sum, p2 / sum).

Definition close (P : list (list jsval)) : list (option TernaryPoint) :=
  map closePoint P.

Definition perturbePoint (c : TernaryPoint) (p : option TernaryPoint)
  : option TernaryPoint :=
  let '(c0, c1, c2) := c in
  match p with
  | None => None
  | Some (p0, p1, p2) =>
      let raw0 := p0 * c0 in
      let raw1 := p1 * c1 in
      let raw2 := p2 * c2 in
      let sum := Fin 0 + raw0 + raw1 + raw2 in
      Some (raw0 / sum, raw1 / sum, raw2 / sum)
  end.

Definition perturbe (P : list (option TernaryPoint)) (c : TernaryPoint)
  : list (option TernaryPoint) :=
  map (perturbePoint c) P.

Definition powerScalePoint (scale : num) (p : option TernaryPoint)
  : option TernaryPoint :=
  match p with
  | None => None
  | Some (p0, p1, p2) =>
      let raw0 := Math.pow p0 scale in
      let raw1 := Math.pow p1 scale in
      let raw2 := Math.pow p2 scale in
      let sum := Fin 0 + raw0 + raw1 + raw2 in
      Some (raw0 / sum, raw1 / sum, raw2 / sum)
  end.

Definition powerScale (P : list (option TernaryPoint)) (scale : num)
  : list (option TernaryPoint) :=
  map (powerScalePoint scale) P.

(** [validateTernaryPoints] receives arrays of numbers of any length, or
    [null].  The text of an error interpolates numbers; the decimal text of
    a number is left to [show] (Number::toString), which is not modelled.  *)
Definition showArray (show : num -> string) (p : list num) : string :=
  String.concat "," (map show p).

Definition validatePoint (show : num -> string) (p : option (list num))
  : outcome unit :=
  match p with
  | None => Returns tt
  | Some p =>
      if negb (lengthOf p === Fin 3) then
        Throws ("Ternary point must have exactly 3 components, got "
                  ++ show (lengthOf p))%string
      else if existsb (fun val => val <? Fin 0) p then
        Throws ("Ternary point contains negative values: ["
                  ++ showArray show p ++ "]")%string
      else
        let sum := nth 0 p NaN + nth 1 p NaN + nth 2 p NaN in
        if Math.abs (sum - Fin 1) >? Fin 1e-9 then
          Throws ("Ternary point components must sum to 1, got "
                    ++ show sum ++ ": [" ++ showArray show p ++ "]")%string
        else Returns tt
  end.

Fixpoint validateTernaryPoints (show : num -> string) (P : list (option (list num)))
  : outcome unit :=
  match P with
  | [] => Returns tt
  | p :: rest =>
      match validatePoint show p with
      | Returns _ => validateTernaryPoints show rest
      | Throws m => Throws m
      | Diverges => Diverges
      end
  end.

(** The array behind a [TernaryPoint]. *)
Definition arrayOf (p : TernaryPoint) : list num :=
  let '(p0, p1, p2) := p in [p0; p1; p2].

End CompositionUtils.

(** ** [TernaryGeometry] *)

Module TernaryGeometry.

Local Open Scope js_scope.

(** The ids visited by [for (let id = 1; id <= K; id++)]: none when the
    test fails at once, [1 .. floor K] for a finite [K]; the loop never
    ends for [K = +Infinity]. *)
Definition loopIds (K : num) : outcome (list num) :=
  match K with
  | Fin r =>
      Returns (map (fun i => Fin (IZR (Z.of_nat i))) (seq 1 (Z.to_nat (Zfloor r))))
  | PInf => Diverges
  | NInf | NaN => Returns []
  end.

Definition centroidOf (k K id : num) : TernaryCentroid.t :=
  let g := Math.floor (Math.sqrt (K - id)) in
  let gsq := g * g in
  let c1 :=
    (((- K + id + g * (g + Fin 2) + Fin 1) mod Fin 2)
       - Fin 3 * gsq - Fin 3 * id + Fin 3 * K + Fin 1) / (Fin 6 * k) in
  let c2 :=
    - (((- K + gsq + id + Fin 2 * g + Fin 1) mod Fin 2)
         + Fin 3 * g - Fin 3 * k + Fin 1) / (Fin 3 * k) in
  let c3 :=
    (((- K + gsq + id + Fin 2 * g + Fin 1) mod Fin 2)
       + Fin 3 * gsq + Fin 6 * g + Fin 3 * id - Fin 3 * K + Fin 1) / (Fin 6 * k) in
  TernaryCentroid.mk id c1 c2 c3.

Definition ternaryMeshCentroids (k : num) : outcome (list TernaryCentroid.t) :=
  let K := k * k in
  match loopIds K with
  | Returns ids => Returns (map (centroidOf k K) ids)
  | Throws m => Throws m
  | Diverges => Diverges
  end.

(** The callback of [centroids.forEach] in [ternaryMeshVertices]: the three
    vertices pushed for one centroid. *)
Definition verticesOf (k : num) (c : TernaryCentroid.t) : list TernaryVertex.t :=
  let j := k - Math.floor (Math.sqrt (k * k - TernaryCentroid.id c)) in
  let i := TernaryCentroid.id c - (j - Fin 1) * (Fin 2 * k - j + Fin 1) in
  let term1 := (Math.pow (Fin (-1)) (i mod Fin 2) * Fin 2) / (Fin 3 * k) in
  let term2 := Math.pow (Fin (-1)) (i mod Fin 2) / (Fin 3 * k) in
  [ TernaryVertex.mk (TernaryCentroid.id c) (Fin 1)
      (TernaryCentroid.p1 c - term1) (TernaryCentroid.p2 c + term2)
      (TernaryCentroid.p3 c + term2);
    TernaryVertex.mk (TernaryCentroid.id c) (Fin 2)
      (TernaryCentroid.p1 c + term2) (TernaryCentroid.p2 c - term1)
      (TernaryCentroid.p3 c + term2);
    TernaryVertex.mk (TernaryCentroid.id c) (Fin 3)
      (TernaryCentroid.p1 c + term2) (TernaryCentroid.p2 c + term2)
      (TernaryCentroid.p3 c - term1) ].

Definition ternaryMeshVertices (centroids : list TernaryCentroid.t)
  : list TernaryVertex.t :=
  let k := Math.sqrt (lengthOf centroids) in
  flat_map (verticesOf k) centroids.

Definition distanceTo (p c : TernaryPoint) : num :=
  let '(p0, p1, p2) := p in
  let '(c0, c1, c2) := c in
  let q1 := p0 - c0 in
  let q2 := p1 - c1 in
  let q3 := p2 - c2 in
  - (q2 * q3 + q3 * q1 + q1 * q2).

Definition ternaryDistance (p : TernaryPoint) (C : list TernaryPoint) : list num :=
  map (distanceTo p) C.

(** [xs.indexOf(x)]: first position strictly equal to [x], else [-1]. *)
Fixpoint indexOfFrom (i : Z) (xs : list num) (x : num) : Z :=
  match xs with
  | [] => (-1)%Z
  | y :: ys => if y === x then i else indexOfFrom (i + 1)%Z ys x
  end.

Definition indexOf (xs : list num) (x : num) : Z := indexOfFrom 0%Z xs x.

(** The callback of [P.map] in [ternaryNearest]. *)
Definition nearestPoint (C : list TernaryPoint) (p : option TernaryPoint)
  : option TernaryPoint :=
  match p with
  | None => None
  | Some p =>
      let distances := ternaryDistance p C in
      let minIndex := indexOf distances (Math.min distances) in
      at_index C minIndex
  end.

Definition ternaryNearest (P : list (option TernaryPoint)) (C : list TernaryPoint)
  : list (option TernaryPoint) :=
  map (nearestPoint C) P.

(** The six polygons of [ternarySextantVertices], in the order of their
    ids. *)
Definition sextantPolygons (center : TernaryPoint) : list (list TernaryPoint) :=
  let '(center0, center1, center2) := center in
  let p1 : TernaryPoint := (Fin 1, Fin 0, Fin 0) in
  let p2 : TernaryPoint := (Fin 0, Fin 1, Fin 0) in
  let p3 : TernaryPoint := (Fin 0, Fin 0, Fin 1) in
  let a1 : TernaryPoint := (center0, Fin 1 - center0, Fin 0) in
  let a2 : TernaryPoint := (center0, Fin 0, Fin 1 - center0) in
  let b1 : TernaryPoint := (Fin 0, center1, Fin 1 - center1) in
  let b2 : TernaryPoint := (Fin 1 - center1, center1, Fin 0) in
  let c1 : TernaryPoint := (Fin 1 - center2, Fin 0, center2) in
  let c2 : TernaryPoint := (Fin 0, Fin 1 - center2, center2) in
  [ [center; c1; p1; b2; center];
    [center; b2; a1; center];
    [center; a1; p2; c2; center];
    [center; c2; b1; center];
    [center; b1; p3; a2; center];
    [center; a2; c1; center] ].

(** The two nested loops: [id] from 1 to 6, [v] over the polygon. *)
Definition ternarySextantVertices (center : TernaryPoint) : list TernaryVertex.t :=
  let sextantPoints := sextantPolygons center in
  flat_map
    (fun id =>
       let points := nth (id - 1) sextantPoints [] in
       mapi (fun (pt : TernaryPoint) v =>
               let '(pt0, pt1, pt2) := pt in
               TernaryVertex.mk (Fin (IZR (Z.of_nat id)))
                                (Fin (IZR (Z.of_nat v)) + Fin 1) pt0 pt1 pt2)
            points)
    (seq 1 6).

(** The callback of [P.map] in [ternarySurroundingSextant]. *)
Definition sextantPoint (center : TernaryPoint) (p : option TernaryPoint)
  : option num :=
  let '(c0, c1, c2) := center in
  match p with
  | None => None
  | Some (p0, p1, p2) =>
      let isLarger0 := p0 >? c0 in
      let isLarger1 := p1 >? c1 in
      let isLarger2 := p2 >? c2 in
      if isLarger0 && negb isLarger1 && negb isLarger2 then Some (Fin 1)
      else if isLarger0 && isLarger1 && negb isLarger2 then Some (Fin 2)
      else if negb isLarger0 && isLarger1 && negb isLarger2 then Some (Fin 3)
      else if negb isLarger0 && isLarger1 && isLarger2 then Some (Fin 4)
      else if negb isLarger0 && negb isLarger1 && isLarger2 then Some (Fin 5)
      else if isLarger0 && negb isLarger1 && isLarger2 then Some (Fin 6)
      else None
  end.

Definition ternarySurroundingSextant (P : list (option TernaryPoint))
  (center : TernaryPoint) : list (option num) :=
  map (sextantPoint center) P.

Definition ternaryToCartesian (p : TernaryPoint) : num * num :=
  let '(_, p1, p2) := p in
  let x := Fin (/ 2) * (Fin 2 * p2 + p1) in
  let y := (Math.sqrt (Fin 3) / Fin 2) * p1 in
  (x, y).

Definition cartesianToTernary (x y : num) : TernaryPoint :=
  let p2 := (Fin 2 * y) / Math.sqrt (Fin 3) in
  let p3 := x - p2 / Fin 2 in
  let p1 := Fin 1 - p2 - p3 in
  (p1, p2, p3).

Record limits : Type := mkLimits { lower : TernaryPoint; upper : TernaryPoint }.

(** The callback of [P.forEach] in [ternaryLimits], on the pair of arrays
    it updates. *)
Definition limitsStep (acc : limits) (p : TernaryPoint) : limits :=
  let '(l0, l1, l2) := lower acc in
  let '(u0, u1, u2) := upper acc in
  let '(p0, p1, p2) := p in
  mkLimits (Math.min2 l0 p0, Math.min2 l1 p1, Math.min2 l2 p2)
           (Math.max2 u0 p0, Math.max2 u1 p1, Math.max2 u2 p2).

Definition ternaryLimits (P : list TernaryPoint) : limits :=
  fold_left limitsStep P (mkLimits (Fin 1, Fin 1, Fin 1) (Fin 0, Fin 0, Fin 0)).

End TernaryGeometry.

(** ** [ColorMapping] *)

Module ColorMapping.

Local Open Scope string_scope.
Local Open Scope js_scope.

Definition hexDigit (d : Z) : string :=
  nth (Z.to_nat d)
      ["0"; "1"; "2"; "3"; "4"; "5"; "6"; "7"; "8"; "9"; "a"; "b"; "c"; "d"; "e"; "f"]
      "".

Fixpoint hexDigits (fuel : nat) (n : Z) : string :=
  match fuel with
  | O => hexDigit n
  | S fuel' =>
      if (n <? 16)%Z then hexDigit n
      else hexDigits fuel' (n / 16)%Z ++ hexDigit (n mod 16)%Z
  end.

(** [x.toString(16)], for the integers and non-finite values that
    [Math.round] returns. *)
Definition toString16 (x : num) : string :=
  match x with
  | NaN => "NaN"
  | PInf => "Infinity"
  | NInf => "-Infinity"
  | Fin r =>
      let n := Zfloor r in
      if (n <? 0)%Z then "-" ++ hexDigits (Z.to_nat (- n)) (- n)%Z
      else hexDigits (Z.to_nat n) n
  end.

Definition hclToHex (h c l : num) : string :=
  let h := h mod Fin 360 in
  let h := if h <? Fin 0 then h + Fin 360 else h in
  let c := Math.max2 (Fin 0) (Math.min2 c (Fin 230)) in
  let l := Math.max2 (Fin 0) (Math.min2 l (Fin 100)) in
  let hRad := (h * Math.PI) / Fin 180 in
  let a := Math.cos hRad * c in
  let _b := Math.sin hRad * c in
  let y := (l + Fin 16) / Fin 116 in
  let x := a / Fin 500 + y in
  let z := y - _b / Fin 200 in
  let X_n := Fin 0.95047 in
  let Y_n := Fin 1.0 in
  let Z_n := Fin 1.08883 in
  let f (t : num) :=
    if t >? Fin 0.206893034 then Math.pow t (Fin 3)
    else (t - Fin 16 / Fin 116) / Fin 7.787 in
  let fx := f x in
  let fy := f y in
  let fz := f z in
  let X := X_n * fx in
  let Y := Y_n * fy in
  let Z := Z_n * fz in
  let r := Fin 3.2406 * X - Fin 1.5372 * Y - Fin 0.4986 * Z in
  let g := - Fin 0.9689 * X + Fin 1.8758 * Y + Fin 0.0415 * Z in
  let b := Fin 0.0557 * X - Fin 0.204 * Y + Fin 1.057 * Z in
  let gamma (v : num) :=
    if v >? Fin 0.0031308
    then Fin 1.055 * Math.pow v (Fin 1 / Fin 2.4) - Fin 0.055
    else Fin 12.92 * v in
  let r := gamma r in
  let g := gamma g in
  let b := gamma b in
  let clamp (v : num) := Math.max2 (Fin 0) (Math.min2 (Fin 1) v) in
  let to8bit (v : num) := Math.round (clamp v * Fin 255) in
  let toHex (v : num) :=
    let hex := toString16 (to8bit v) in
    if (String.length hex =? 1)%nat then "0" ++ hex else hex in
  "#" ++ toHex r ++ toHex g ++ toHex b.

(** The callback of [scaled.map] in [colorMapTricolore].  Reading a
    component of [P_notrans[i]] throws when that entry is [null]. *)
Definition tricoloreOf (P : list (list jsval)) (P_notrans : list (option TernaryPoint))
  (hue chroma lightness contrast : num) (p : option TernaryPoint) (i : nat)
  : outcome TricoloreResult.t :=
  match p with
  | None =>
      Returns (TricoloreResult.mk
                 (item (nth i P []) 0) (item (nth i P []) 1) (item (nth i P []) 2)
                 None None None None)
  | Some (p0, p1, p2) =>
      let C0 := p0 * chroma in
      let C1 := p1 * chroma in
      let C2 := p2 * chroma in
      let phi0 := (hue * Math.PI) / Fin 180 in
      let phi1 := ((hue + Fin 120) * Math.PI) / Fin 180 in
      let phi2 := ((hue + Fin 240) * Math.PI) / Fin 180 in
      let Z0 := (C0 * Math.cos phi0, C0 * Math.sin phi0) in
      let Z1 := (C1 * Math.cos phi1, C1 * Math.sin phi1) in
      let Z2 := (C2 * Math.cos phi2, C2 * Math.sin phi2) in
      let z :=
        fold_left (fun sum val => (fst sum + fst val, snd sum + snd val))
                  [Z0; Z1; Z2] (Fin 0, Fin 0) in
      let re := fst z in
      let im := snd z in
      let h := ((Math.atan2 im re * Fin 180) / Math.PI + Fin 360) mod Fin 360 in
      let c := Math.sqrt (re * re + im * im) in
      let cfactor := (c * contrast) / chroma + Fin 1 - contrast in
      let l := cfactor * lightness in
      let adjustedC := cfactor * c in
      let rgb := hclToHex h adjustedC l in
      match nth i P_notrans None with
      | None => Throws "TypeError: Cannot read properties of null"
      | Some (n0, n1, n2) =>
          Returns (TricoloreResult.mk (JNum n0) (JNum n1) (JNum n2)
                     (Some h) (Some adjustedC) (Some l) (Some rgb))
      end
  end.

(** The callback [(c) => [c.p1, c.p2, c.p3]]. *)
Definition centroidPoint (c : TernaryCentroid.t) : TernaryPoint :=
  (TernaryCentroid.p1 c, TernaryCentroid.p2 c, TernaryCentroid.p3 c).

Definition colorMapTricolore (P : list (list jsval)) (center : TernaryPoint)
  (breaks hue chroma lightness contrast spread : num)
  : outcome (list TricoloreResult.t) :=
  let '(center0, center1, center2) := center in
  let P_notrans := CompositionUtils.close P in
  let closed := CompositionUtils.close P in
  closed <-
    (if Num.isFinite breaks && (breaks <? Fin 100) then
       cs <- TernaryGeometry.ternaryMeshCentroids breaks ;;
       let centroids := map centroidPoint cs in
       Returns (TernaryGeometry.ternaryNearest closed centroids)
     else Returns closed) ;;
  let centered :=
    CompositionUtils.perturbe closed
      (Fin 1 / center0, Fin 1 / center1, Fin 1 / center2) in
  let scaled := CompositionUtils.powerScale centered spread in
  collect (mapi (tricoloreOf P P_notrans hue chroma lightness contrast) scaled).

(** The callback of [closed.map] in [colorMapSextant]. *)
Definition sextantOf (P : list (list jsval)) (sextants : list (option num))
  (values : list string) (p : option TernaryPoint) (i : nat) : SextantResult.t :=
  match p with
  | None =>
      SextantResult.mk
        (item (nth i P []) 0) (item (nth i P []) 1) (item (nth i P []) 2)
        None None
  | Some (p0, p1, p2) =>
      let sextant := nth i sextants None in
      let rgb :=
        match sextant with
        | Some s => at_num values (s - Fin 1)
        | None => None
        end in
      SextantResult.mk (JNum p0) (JNum p1) (JNum p2) sextant rgb
  end.

Definition colorMapSextant (P : list (list jsval)) (center : TernaryPoint)
  (values : list string) : outcome (list SextantResult.t) :=
  if negb (List.length values =? 6)%nat then
    Throws "Sextant values array must have exactly 6 elements"
  else
    let closed := CompositionUtils.close P in
    let sextants := TernaryGeometry.ternarySurroundingSextant closed center in
    Returns (mapi (sextantOf P sextants values) closed).

(** Default arguments. *)
Definition defaultCenter : TernaryPoint :=
  (Fin 1 / Fin 3, Fin 1 / Fin 3, Fin 1 / Fin 3).

Definition defaultValues : list string :=
  ["#FFFF00"; "#B3DCC3"; "#01A0C6"; "#B8B3D8"; "#F11D8C"; "#FFB3B3"].

End ColorMapping.

(** ** The coordinate helpers of [TricoloreViz] *)

Module TricoloreViz.

Local Open Scope js_scope.

Definition ternaryToSvgCoords (p : TernaryPoint) (size : num) : num * num :=
  let '(x, y) := TernaryGeometry.ternaryToCartesian p in
  (x * size, size - y * size).

Definition svgToTernaryCoords (point : num * num) (size : num) : TernaryPoint :=
  TernaryGeometry.cartesianToTernary (fst point / size) (Fin 1 - snd point / size).

(** The first two statements of [addDataPoints]: close the data, then
    validate the closed points. *)
Definition validateData (show : num -> string) (data : list (list jsval))
  : outcome unit :=
  let closed := CompositionUtils.close data in
  CompositionUtils.validateTernaryPoints
    show (map (option_map CompositionUtils.arrayOf) closed).

End TricoloreViz.

(** ** The entry points of [index.ts] *)

Module TricoloreOptions.
Record t : Type := mk {
  center : option TernaryPoint;
  breaks : option num;
  discrete : option bool;
  hue : option num;
  chroma : option num;
  lightness : option num;
  contrast : option num;
  spread : option num }.
(** The default [options = {}]. *)
Definition empty : t := mk None None None None None None None None.
End TricoloreOptions.

Module SextantOptions.
Record t : Type := mk {
  center : option TernaryPoint;
  values : option (list string) }.
(** The default [options = {}]. *)
Definition empty : t := mk None None.
End SextantOptions.

Module Index.

(** A destructuring default: the value given, or the default when the
    property is [undefined]. *)
Definition orDefault {A : Type} (given : option A) (default : A) : A :=
  match given with Some a => a | None => default end.

Definition tricoloreDetailed (data : list (list jsval)) (options : TricoloreOptions.t)
  : outcome (list TricoloreResult.t) :=
  ColorMapping.colorMapTricolore data
    (orDefault (TricoloreOptions.center options) ColorMapping.defaultCenter)
    (orDefault (TricoloreOptions.breaks options) (Fin 4))
    (orDefault (TricoloreOptions.hue options) (Fin 80))
    (orDefault (TricoloreOptions.chroma options) (Fin 140))
    (orDefault (TricoloreOptions.lightness options) (Fin 80))
    (orDefault (TricoloreOptions.contrast options) (Fin 0.4))
    (orDefault (TricoloreOptions.spread options) (Fin 1)).

Definition tricolore (data : list (list jsval)) (options : TricoloreOptions.t)
  : outcome (list (option string)) :=
  results <-
    ColorMapping.colorMapTricolore data
      (orDefault (TricoloreOptions.center options) ColorMapping.defaultCenter)
      (orDefault (TricoloreOptions.breaks options) (Fin 4))
      (orDefault (TricoloreOptions.hue options) (Fin 80))
      (orDefault (TricoloreOptions.chroma options) (Fin 140))
      (orDefault (TricoloreOptions.lightness options) (Fin 80))
      (orDefault (TricoloreOptions.contrast options) (Fin 0.4))
      (orDefault (TricoloreOptions.spread options) (Fin 1)) ;;
  Returns (map TricoloreResult.rgb results).

Definition tricoloreSextantDetailed (data : list (list jsval))
  (options : SextantOptions.t) : outcome (list SextantResult.t) :=
  ColorMapping.colorMapSextant data
    (orDefault (SextantOptions.center options) ColorMapping.defaultCenter)
    (orDefault (SextantOptions.values options) ColorMapping.defaultValues).

Definition tricoloreSextant (data : list (list jsval)) (options : SextantOptions.t)
  : outcome (list (option string)) :=
  results <-
    ColorMapping.colorMapSextant data
      (orDefault (SextantOptions.center options) ColorMapping.defaultCenter)
      (orDefault (SextantOptions.values options) ColorMapping.defaultValues) ;;
  Returns (map SextantResult.rgb results).

End Index.

(** ** Tables and predicates of the statements *)

Module Spec.

Local Open Scope js_scope.

(** The lookup table of the sextant ids, indexed by the three answers to
    "is the component strictly greater than the centre's?". *)
Definition sextantTable (g0 g1 g2 : bool) : option num :=
  match g0, g1, g2 with
  | true, false, false => Some (Fin 1)
  | true, true, false => Some (Fin 2)
  | false, true, false => Some (Fin 3)
  | false, true, true => Some (Fin 4)
  | false, false, true => Some (Fin 5)
  | true, false, true => Some (Fin 6)
  | _, _, _ => None
  end.

(** A number that is not [NaN]. *)
Definition isReal (x : num) : Prop := x <> NaN.

(** No component of the point is [NaN]. *)
Definition realPoint (p : TernaryPoint) : Prop :=
  let '(p0, p1, p2) := p in isReal p0 /\ isReal p1 /\ isReal p2.

(** Component-wise [<=] of two points. *)
Definition pointLe (p q : TernaryPoint) : Prop :=
  let '(p0, p1, p2) := p in
  let '(q0, q1, q2) := q in
  (p0 <=? q0) = true /\ (p1 <=? q1) = true /\ (p2 <=? q2) = true.

(** A point with finite components of sum 1. *)
Definition onSimplexPlane (p : TernaryPoint) : Prop :=
  exists x y z : R, p = (Fin x, Fin y, Fin z) /\ (x + y + z = 1)%R.

(** A point with finite, non-negative components that are not all zero. *)
Definition properPoint (p : TernaryPoint) : Prop :=
  exists x y z : R,
    p = (Fin x, Fin y, Fin z)
    /\ (0 <= x)%R /\ (0 <= y)%R /\ (0 <= z)%R /\ (0 < x + y + z)%R.

(** The sum of the logarithms and the product of a list of reals. *)
Definition logSum (xs : list R) : R := fold_right (fun x s => (ln x + s)%R) 0%R xs.

Definition product (xs : list R) : R := fold_right Rmult 1%R xs.

(** A point of three positive finite numbers, as a triple of reals. *)
Definition finPoint (p : R * R * R) : TernaryPoint :=
  let '(x, y, z) := p in (Fin x, Fin y, Fin z).

Definition positive3 (p : R * R * R) : Prop :=
  let '(x, y, z) := p in (0 < x /\ 0 < y /\ 0 < z)%R.

(** The three columns of a data set, and a point multiplied by a factor. *)
Definition column1 (ps : list (R * R * R)) : list R := map (fun p => fst (fst p)) ps.
Definition column2 (ps : list (R * R * R)) : list R := map (fun p => snd (fst p)) ps.
Definition column3 (ps : list (R * R * R)) : list R := map (fun p => snd p) ps.

Definition scalePoint (lp : R * (R * R * R)) : R * R * R :=
  let '(l, (x, y, z)) := lp in ((l * x)%R, (l * y)%R, (l * z)%R).

(** A component that is not a number, or is [NaN]. *)
Definition notANumber (v : jsval) : Prop :=
  match v with JNum x => x = NaN | _ => True end.

(** An element with the wrong arity or with such a component. *)
Definition invalidElement (p : list jsval) : Prop :=
  List.length p <> 3%nat \/ Exists notANumber p.

(** The two lower-case hexadecimal digits of a byte. *)
Definition hexByte (n : Z) : string :=
  (ColorMapping.hexDigit (n / 16) ++ ColorMapping.hexDigit (n mod 16))%string.

(** The comparison of a sextant's pattern read without strictness:
    [>=] where the pattern asks for "greater", [<=] where it does not. *)
Definition weakly (greater : bool) (x c : R) : Prop :=
  if greater then (c <= x)%R else (x <= c)%R.

(** The point [(x, y, z)] lies in the closed region of sextant [s] around
    the centre [(a, b, c)]. *)
Definition inClosedSextant (s : num) (a b c x y z : R) : Prop :=
  exists g0 g1 g2 : bool,
    sextantTable g0 g1 g2 = Some s
    /\ weakly g0 x a /\ weakly g1 y b /\ weakly g2 z c.

(** The ternary distance between two points of equal sum, spelled out:
    half the sum of the squared differences of the components. *)
Definition squaredDistance (x y z x' y' z' : R) : R :=
  (((x - x') * (x - x') + (y - y') * (y - y') + (z - z') * (z - z')) / 2)%R.

(** Magnitudes: a number between two bounds, a number that is zero or
    between them, a triple of numbers between them.  The bounds that the
    statements use keep the sums, products, quotients and powers that the
    source forms of such numbers inside the range of doubles, which ends at
    about 1.8e308 and, for numbers of full precision, at about 2.2e-308. *)
Definition within (lo hi x : R) : Prop := (lo <= x <= hi)%R.

Definition zeroOrWithin (lo hi x : R) : Prop := x = 0%R \/ within lo hi x.

Definition within3 (lo hi : R) (p : R * R * R) : Prop :=
  let '(x, y, z) := p in within lo hi x /\ within lo hi y /\ within lo hi z.

(** An input element of three finite non-negative numbers, not all zero. *)
Definition properElement (p : list jsval) : Prop :=
  exists a b c : R,
    p = [JNum (Fin a); JNum (Fin b); JNum (Fin c)]
    /\ (0 <= a)%R /\ (0 <= b)%R /\ (0 <= c)%R /\ (0 < a + b + c)%R.

(** A proper element whose sum does not exceed 1e308: the sum that
    [close] forms of it is a finite double. *)
Definition boundedElement (p : list jsval) : Prop :=
  exists a b c : R,
    p = [JNum (Fin a); JNum (Fin b); JNum (Fin c)]
    /\ (0 <= a)%R /\ (0 <= b)%R /\ (0 <= c)%R /\ (0 < a + b + c <= 1e308)%R.

End Spec.

(** ** The mesh of an integer subdivision, over the integers

    For a subdivision [k] and a cell id [i], the quantities the closed
    formula of [ternaryMeshCentroids] computes: the integer square root
    [g], the parity term, and the numerators of the three coordinates. *)

Module Mesh.

Local Open Scope Z_scope.

Definition root (k i : Z) : Z := Z.sqrt (k * k - i).

Definition parity (k i : Z) : Z :=
  Z.rem (- (k * k) + i + root k i * (root k i + 2) + 1) 2.

Definition numer1 (k i : Z) : Z :=
  parity k i - 3 * (root k i * root k i) - 3 * i + 3 * (k * k) + 1.

Definition numer2 (k i : Z) : Z :=
  - (parity k i + 3 * root k i - 3 * k + 1).

Definition numer3 (k i : Z) : Z :=
  parity k i + 3 * (root k i * root k i) + 6 * root k i + 3 * i - 3 * (k * k) + 1.

(** The centroid of cell [i], as [ternaryMeshCentroids] divides it out. *)
Definition point (k : Z) (i : nat) : TernaryPoint :=
  (Fin (IZR (numer1 k (Z.of_nat i)) / IZR (6 * k)),
   Fin (IZR (numer2 k (Z.of_nat i)) / IZR (3 * k)),
   Fin (IZR (numer3 k (Z.of_nat i)) / IZR (6 * k))).

(** The orientation of cell [i]: 1 for a cell whose parity term is 0, -1
    for a cell whose parity term is 1. *)
Definition sign (k i : Z) : Z := 1 - 2 * parity k i.

(** The three vertices of cell [i], as [ternaryMeshVertices] computes
    them from the centroid. *)
Definition vertices (k : Z) (i : nat) : list TernaryVertex.t :=
  let z := Z.of_nat i in
  let c1 := (IZR (numer1 k z) / IZR (6 * k))%R in
  let c2 := (IZR (numer2 k z) / IZR (3 * k))%R in
  let c3 := (IZR (numer3 k z) / IZR (6 * k))%R in
  let term1 := (IZR (sign k z) * 2 / (3 * IZR k))%R in
  let term2 := (IZR (sign k z) / (3 * IZR k))%R in
  [ TernaryVertex.mk (Fin (IZR z)) (Fin 1)
      (Fin (c1 - term1)) (Fin (c2 + term2)) (Fin (c3 + term2));
    TernaryVertex.mk (Fin (IZR z)) (Fin 2)
      (Fin (c1 + term2)) (Fin (c2 - term1)) (Fin (c3 + term2));
    TernaryVertex.mk (Fin (IZR z)) (Fin 3)
      (Fin (c1 + term2)) (Fin (c2 + term2)) (Fin (c3 - term1)) ].

End Mesh.

(** * Properties *)

(** ** Deciding comparisons of reals *)

Local Open Scope R_scope.

Lemma Rltb_true (a b : R) : a < b -> Num.Rltb a b = true.
Proof. intros H. unfold Num.Rltb. destruct (Rlt_dec a b); [reflexivity | contradiction]. Qed.

Lemma Rltb_false (a b : R) : b <= a -> Num.Rltb a b = false.
Proof. intros H. unfold Num.Rltb. destruct (Rlt_dec a b); [lra | reflexivity]. Qed.

Lemma Reqb_true (a b : R) : a = b -> Num.Reqb a b = true.
Proof. intros H. unfold Num.Reqb. destruct (Req_dec_T a b); [reflexivity | contradiction]. Qed.

Lemma Reqb_false (a b : R) : a <> b -> Num.Reqb a b = false.
Proof. intros H. unfold Num.Reqb. destruct (Req_dec_T a b); [contradiction | reflexivity]. Qed.

Lemma Rltb_spec (a b : R) : Num.Rltb a b = true <-> a < b.
Proof.
  unfold Num.Rltb. destruct (Rlt_dec a b); split; intros; auto; discriminate.
Qed.

Lemma Reqb_spec (a b : R) : Num.Reqb a b = true <-> a = b.
Proof.
  unfold Num.Reqb. destruct (Req_dec_T a b); split; intros; auto; discriminate.
Qed.

(** Rewrites every comparison of two reals that [lra] can settle. *)
Ltac settle :=
  repeat match goal with
         | |- context [Num.Rltb ?a ?b] =>
             first [ rewrite (Rltb_true a b) by lra
                   | rewrite (Rltb_false a b) by lra ]
         | |- context [Num.Reqb ?a ?b] =>
             first [ rewrite (Reqb_true a b) by lra
                   | rewrite (Reqb_false a b) by lra ]
         end.

(** Splits on every comparison of two reals left in the goal. *)
Ltac split_cmp :=
  unfold Num.Rltb, Num.Reqb in *;
  repeat match goal with
         | |- context [Rlt_dec ?a ?b] => destruct (Rlt_dec a b)
         | |- context [Req_dec_T ?a ?b] => destruct (Req_dec_T a b)
         | H : context [Rlt_dec ?a ?b] |- _ => destruct (Rlt_dec a b)
         | H : context [Req_dec_T ?a ?b] |- _ => destruct (Req_dec_T a b)
         end.

Lemma div_fin (a b : R) : b <> 0 -> Num.div (Fin a) (Fin b) = Fin (a / b).
Proof. intros H. simpl. now rewrite Reqb_false. Qed.

Lemma sqrt_fin (a : R) : 0 <= a -> Math.sqrt (Fin a) = Fin (sqrt a).
Proof. intros H. simpl. now rewrite Rltb_false. Qed.

Lemma sqrt3_pos : 0 < sqrt 3.
Proof. apply sqrt_lt_R0. lra. Qed.

(** ** The order of numbers *)

Lemma gt_fin (a b : R) : Num.gt (Fin a) (Fin b) = true <-> a > b.
Proof. unfold Num.gt. simpl. rewrite Rltb_spec. reflexivity. Qed.

Lemma not_gt_fin (a b : R) : Num.gt (Fin a) (Fin b) = false <-> a <= b.
Proof.
  unfold Num.gt. simpl. unfold Num.Rltb.
  destruct (Rlt_dec b a); split; intros; try lra; auto; discriminate.
Qed.

Lemma gt_irrefl (x : num) : Num.gt x x = false.
Proof. destruct x; simpl; auto. unfold Num.gt. simpl. apply Rltb_false. lra. Qed.

(** ** Sextant classification *)

Lemma sextant_branches (g0 g1 g2 : bool) :
  (if g0 && negb g1 && negb g2 then Some (Fin 1)
   else if g0 && g1 && negb g2 then Some (Fin 2)
   else if negb g0 && g1 && negb g2 then Some (Fin 3)
   else if negb g0 && g1 && g2 then Some (Fin 4)
   else if negb g0 && negb g1 && g2 then Some (Fin 5)
   else if g0 && negb g1 && g2 then Some (Fin 6)
   else None) = Spec.sextantTable g0 g1 g2.
Proof. destruct g0, g1, g2; reflexivity. Qed.

(** C2: [ternarySurroundingSextant] compares each component of a point
    strictly against the centre's and maps the three answers through the
    fixed table (T,F,F)->1, (T,T,F)->2, (F,T,F)->3, (F,T,T)->4, (F,F,T)->5,
    (T,F,T)->6; every other pattern, and so the centre itself, gives the
    absent value, as does an absent point.  On finite numbers the answer is
    [true] exactly for [>] and [false] exactly for [<=]. *)
Theorem C2_sextant_classification :
  (forall (P : list (option TernaryPoint)) (c0 c1 c2 : num),
      TernaryGeometry.ternarySurroundingSextant P (c0, c1, c2) =
      map (fun p =>
             match p with
             | None => None
             | Some (p0, p1, p2) =>
                 Spec.sextantTable (Num.gt p0 c0) (Num.gt p1 c1) (Num.gt p2 c2)
             end) P)
  /\ (forall c : TernaryPoint,
         TernaryGeometry.ternarySurroundingSextant [Some c] c = [None])
  /\ (forall a b : R,
         (Num.gt (Fin a) (Fin b) = true <-> a > b)
         /\ (Num.gt (Fin a) (Fin b) = false <-> a <= b)).
Proof.
  split; [| split].
  - intros P c0 c1 c2. unfold TernaryGeometry.ternarySurroundingSextant.
    apply map_ext. intros [[[p0 p1] p2] |]; [| reflexivity].
    apply sextant_branches.
  - intros [[c0 c1] c2]. cbn. now rewrite !gt_irrefl.
  - intros a b. split; [apply gt_fin | apply not_gt_fin].
Qed.

(** The corner points and the centre, classified around (1/3, 1/3, 1/3). *)
Example sextant_corners :
  TernaryGeometry.ternarySurroundingSextant
    [Some (Fin 1, Fin 0, Fin 0); Some (Fin 0, Fin 1, Fin 0);
     Some (Fin 0, Fin 0, Fin 1); Some (Fin (1/3), Fin (1/3), Fin (1/3)); None]
    (Fin (1/3), Fin (1/3), Fin (1/3))
  = [Some (Fin 1); Some (Fin 3); Some (Fin 5); None; None].
Proof.
  cbn. unfold Num.gt, Num.lt. settle.
  reflexivity.
Qed.

(** ** Closure *)

Lemma nth_error_close (P : list (list jsval)) (i : nat) :
  nth_error (CompositionUtils.close P) i =
  option_map CompositionUtils.closePoint (nth_error P i).
Proof. unfold CompositionUtils.close. apply nth_error_map. Qed.

Lemma closePoint_fin (a b c : R) :
  a + b + c <> 0 ->
  CompositionUtils.closePoint [JNum (Fin a); JNum (Fin b); JNum (Fin c)] =
  Some (Fin (a / (a + b + c)), Fin (b / (a + b + c)), Fin (c / (a + b + c))).
Proof.
  intros H. unfold CompositionUtils.closePoint. cbn.
  now rewrite (Reqb_false _ _ H).
Qed.

(** C5, as the code has it: for every composition of three finite
    non-negative numbers that are not all zero and whose sum does not
    exceed 1e308, [close] returns three non-negative components whose sum
    is 1 (exactly over the reals, within 1e-9 in doubles).  The bound on
    the sum is the range of doubles: a sum beyond the largest double,
    about 1.8e308, is [Infinity] in the source, and every quotient by it
    is 0. *)
Theorem C5_close_simplex (P : list (list jsval)) (i : nat) (a b c : R) :
  nth_error P i = Some [JNum (Fin a); JNum (Fin b); JNum (Fin c)] ->
  0 <= a -> 0 <= b -> 0 <= c -> 0 < a + b + c <= 1e308 ->
  exists x y z : R,
    nth_error (CompositionUtils.close P) i = Some (Some (Fin x, Fin y, Fin z))
    /\ x = a / (a + b + c) /\ y = b / (a + b + c) /\ z = c / (a + b + c)
    /\ 0 <= x <= 1 /\ 0 <= y <= 1 /\ 0 <= z <= 1
    /\ x + y + z = 1
    /\ Rabs (x + y + z - 1) <= 1e-9.
Proof.
  intros Hi Ha Hb Hc [Hs Hmax].
  exists (a / (a + b + c)), (b / (a + b + c)), (c / (a + b + c)).
  rewrite nth_error_close, Hi. cbn [option_map].
  rewrite closePoint_fin by lra.
  assert (Hinv : 0 < / (a + b + c)) by now apply Rinv_0_lt_compat.
  assert (Hsum : a / (a + b + c) + b / (a + b + c) + c / (a + b + c) = 1)
    by (field; lra).
  assert (Hx : 0 <= a / (a + b + c)) by (unfold Rdiv; nra).
  assert (Hy : 0 <= b / (a + b + c)) by (unfold Rdiv; nra).
  assert (Hz : 0 <= c / (a + b + c)) by (unfold Rdiv; nra).
  split; [reflexivity |].
  do 3 (split; [reflexivity |]).
  do 3 (split; [lra |]).
  split; [exact Hsum |].
  rewrite Hsum. replace (1 - 1) with 0 by ring. rewrite Rabs_R0. lra.
Qed.

Lemma C5_close_simplex_witness :
  exists x y z : R,
    nth_error (CompositionUtils.close [[JNum (Fin 2); JNum (Fin 1); JNum (Fin 1)]]) 0
    = Some (Some (Fin x, Fin y, Fin z))
    /\ x = 2 / (2 + 1 + 1) /\ y = 1 / (2 + 1 + 1) /\ z = 1 / (2 + 1 + 1)
    /\ 0 <= x <= 1 /\ 0 <= y <= 1 /\ 0 <= z <= 1
    /\ x + y + z = 1
    /\ Rabs (x + y + z - 1) <= 1e-9.
Proof.
  apply (C5_close_simplex [[JNum (Fin 2); JNum (Fin 1); JNum (Fin 1)]] 0 2 1 1);
    [reflexivity | lra | lra | lra | lra].
Defined.

(** [close] accepts a negative component and leaves it negative; it
    accepts a zero sum and an infinite component, and returns [NaN]s. *)
Lemma C5_counterexample :
  (CompositionUtils.isValidTernary [JNum (Fin (-1)); JNum (Fin 1); JNum (Fin 1)] = true
   /\ CompositionUtils.close [[JNum (Fin (-1)); JNum (Fin 1); JNum (Fin 1)]]
      = [Some (Fin (-1), Fin 1, Fin 1)]
   /\ Num.lt (Fin (-1)) (Fin 0) = true)
  /\ (CompositionUtils.isValidTernary [JNum (Fin 0); JNum (Fin 0); JNum (Fin 0)] = true
      /\ CompositionUtils.close [[JNum (Fin 0); JNum (Fin 0); JNum (Fin 0)]]
         = [Some (NaN, NaN, NaN)])
  /\ (CompositionUtils.isValidTernary [JNum PInf; JNum (Fin 1); JNum (Fin 1)] = true
      /\ CompositionUtils.close [[JNum PInf; JNum (Fin 1); JNum (Fin 1)]]
         = [Some (NaN, Fin 0, Fin 0)]).
Proof.
  repeat split.
  - unfold CompositionUtils.close. cbn [map]. rewrite closePoint_fin by lra.
    do 2 f_equal. f_equal; [f_equal |]; f_equal; lra.
  - cbn. apply Rltb_true. lra.
  - cbn. unfold CompositionUtils.closePoint. cbn. settle. reflexivity.
Qed.

(** ** Cartesian projection *)

(** C6: for a point of the simplex (finite components of sum 1), the
    projection to the plane followed by [cartesianToTernary] gives the
    point back, exactly over the reals. *)
Theorem C6_cartesian_round_trip (a b c : R) :
  a + b + c = 1 ->
  let xy := TernaryGeometry.ternaryToCartesian (Fin a, Fin b, Fin c) in
  TernaryGeometry.cartesianToTernary (fst xy) (snd xy) = (Fin a, Fin b, Fin c).
Proof.
  intros Hsum. pose proof sqrt3_pos as H3.
  unfold TernaryGeometry.ternaryToCartesian, TernaryGeometry.cartesianToTernary.
  rewrite sqrt_fin by lra. cbn [fst snd].
  rewrite (div_fin (sqrt 3) 2) by lra. cbn [Num.mul Num.add].
  rewrite div_fin by lra. rewrite div_fin by lra.
  cbn [Num.sub Num.neg Num.add].
  f_equal; [f_equal |]; f_equal; field_simplify_eq; lra.
Qed.

Lemma C6_cartesian_round_trip_witness :
  1/2 + 1/4 + 1/4 = 1 /\
  (let xy := TernaryGeometry.ternaryToCartesian (Fin (1/2), Fin (1/4), Fin (1/4)) in
   TernaryGeometry.cartesianToTernary (fst xy) (snd xy)
   = (Fin (1/2), Fin (1/4), Fin (1/4))).
Proof.
  split; [lra | apply (C6_cartesian_round_trip (1/2) (1/4) (1/4)); lra].
Defined.

(** ** Indexed maps *)

Lemma nth_error_mapiFrom {A B : Type} (f : A -> nat -> B) (xs : list A) :
  forall k i,
    nth_error (mapiFrom f k xs) i =
    option_map (fun x => f x (k + i)%nat) (nth_error xs i).
Proof.
  induction xs as [| x xs IH]; intros k [| i]; cbn; try reflexivity.
  - now rewrite Nat.add_0_r.
  - rewrite IH. now rewrite Nat.add_succ_r.
Qed.

Lemma nth_error_mapi {A B : Type} (f : A -> nat -> B) (xs : list A) (i : nat) :
  nth_error (mapi f xs) i = option_map (fun x => f x i) (nth_error xs i).
Proof. unfold mapi. now rewrite nth_error_mapiFrom. Qed.

Lemma length_mapiFrom {A B : Type} (f : A -> nat -> B) (xs : list A) :
  forall k, List.length (mapiFrom f k xs) = List.length xs.
Proof. induction xs as [| x xs IH]; intros k; cbn; [reflexivity | now rewrite IH]. Qed.

Lemma length_mapi {A B : Type} (f : A -> nat -> B) (xs : list A) :
  List.length (mapi f xs) = List.length xs.
Proof. apply length_mapiFrom. Qed.

Lemma nth_of_nth_error {A : Type} (xs : list A) (i : nat) (d x : A) :
  nth_error xs i = Some x -> nth i xs d = x.
Proof. intros H. now apply nth_error_nth. Qed.

(** ** The sextant palette *)

Lemma sextantPoint_table (c0 c1 c2 p0 p1 p2 : num) :
  TernaryGeometry.sextantPoint (c0, c1, c2) (Some (p0, p1, p2)) =
  Spec.sextantTable (Num.gt p0 c0) (Num.gt p1 c1) (Num.gt p2 c2).
Proof. cbn. apply sextant_branches. Qed.

Lemma sextantPoint_range (center : TernaryPoint) (p : option TernaryPoint) :
  TernaryGeometry.sextantPoint center p = None
  \/ exists k : Z, (1 <= k <= 6)%Z /\
                   TernaryGeometry.sextantPoint center p = Some (Fin (IZR k)).
Proof.
  destruct center as [[c0 c1] c2], p as [[[p0 p1] p2] |]; [| now left].
  rewrite sextantPoint_table.
  destruct (Num.gt p0 c0), (Num.gt p1 c1), (Num.gt p2 c2); cbn;
    first [ now left
          | right; eexists; split; [| reflexivity]; lia ].
Qed.

Lemma at_num_pred {A : Type} (values : list A) (k : Z) :
  (1 <= k)%Z ->
  at_num values (Num.sub (Fin (IZR k)) (Fin 1)) = nth_error values (Z.to_nat (k - 1)).
Proof.
  intros Hk. cbn.
  replace (IZR k + - (1)) with (IZR (k - 1)) by (rewrite minus_IZR; lra).
  unfold Math.isInteger. rewrite ZfloorZ, Reqb_true by reflexivity.
  unfold at_index. destruct (k - 1 <? 0)%Z eqn:E; [lia | reflexivity].
Qed.

(** C8: [colorMapSextant] throws exactly when the palette does not have
    six entries, whatever the points are; with six entries it returns one
    result per point, and a point accepted by [close] and classified into
    sextant [k] receives [values[k - 1]], while an undefined sextant gives
    a [null] colour. *)
Theorem C8_sextant_palette (P : list (list jsval)) (center : TernaryPoint)
  (values : list string) :
  (List.length values <> 6%nat <->
   ColorMapping.colorMapSextant P center values
   = Throws "Sextant values array must have exactly 6 elements")
  /\ (List.length values = 6%nat ->
      exists rs,
        ColorMapping.colorMapSextant P center values = Returns rs
        /\ List.length rs = List.length P
        /\ forall i p,
            nth_error (CompositionUtils.close P) i = Some (Some p) ->
            exists r,
              nth_error rs i = Some r
              /\ SextantResult.sextant r
                 = TernaryGeometry.sextantPoint center (Some p)
              /\ (SextantResult.sextant r = None -> SextantResult.rgb r = None)
              /\ (forall k : Z,
                     (1 <= k <= 6)%Z ->
                     SextantResult.sextant r = Some (Fin (IZR k)) ->
                     SextantResult.rgb r = nth_error values (Z.to_nat (k - 1))
                     /\ SextantResult.rgb r <> None)
              /\ (SextantResult.sextant r = None
                  \/ exists k : Z, (1 <= k <= 6)%Z
                                   /\ SextantResult.sextant r = Some (Fin (IZR k)))).
Proof.
  unfold ColorMapping.colorMapSextant.
  destruct (List.length values =? 6)%nat eqn:Hlen; cbn [negb].
  - apply Nat.eqb_eq in Hlen. split.
    + split; [intros H; contradiction | discriminate].
    + intros _. eexists. split; [reflexivity |]. split.
      * rewrite length_mapi. unfold CompositionUtils.close. apply length_map.
      * intros i [[p0 p1] p2] Hi. rewrite nth_error_mapi, Hi. cbn [option_map].
        eexists. split; [reflexivity |].
        assert (Hs : nth i (TernaryGeometry.ternarySurroundingSextant
                              (CompositionUtils.close P) center) None
                     = TernaryGeometry.sextantPoint center (Some (p0, p1, p2))).
        { apply nth_of_nth_error. unfold TernaryGeometry.ternarySurroundingSextant.
          now rewrite nth_error_map, Hi. }
        cbn [ColorMapping.sextantOf SextantResult.sextant SextantResult.rgb].
        rewrite Hs. split; [reflexivity |]. split; [| split].
        -- intros ->. reflexivity.
        -- intros k Hk ->. rewrite at_num_pred by lia.
           split; [reflexivity |]. apply nth_error_Some. lia.
        -- apply sextantPoint_range.
  - apply Nat.eqb_neq in Hlen. split.
    + split; [reflexivity | intros _; exact Hlen].
    + intros H. contradiction.
Qed.

Lemma C8_sextant_palette_witness :
  exists rs,
    ColorMapping.colorMapSextant
      [[JNum (Fin (1/2)); JNum (Fin (3/10)); JNum (Fin (1/5))]]
      ColorMapping.defaultCenter ColorMapping.defaultValues = Returns rs
    /\ List.length rs = 1%nat.
Proof.
  destruct (proj2 (C8_sextant_palette
                     [[JNum (Fin (1/2)); JNum (Fin (3/10)); JNum (Fin (1/5))]]
                     ColorMapping.defaultCenter ColorMapping.defaultValues)
                  eq_refl) as (rs & Hrs & Hlen & _).
  exists rs. split; [exact Hrs | exact Hlen].
Defined.

(** The point (0.5, 0.3, 0.2) around the default centre lies in sextant 1
    and receives the first colour of the palette; a palette of five
    colours is refused. *)
Example sextant_palette_example :
  ColorMapping.colorMapSextant
    [[JNum (Fin (1/2)); JNum (Fin (3/10)); JNum (Fin (1/5))]]
    ColorMapping.defaultCenter ColorMapping.defaultValues
  = Returns [SextantResult.mk (JNum (Fin (1/2))) (JNum (Fin (3/10))) (JNum (Fin (1/5)))
               (Some (Fin 1)) (Some "#FFFF00"%string)]
  /\ ColorMapping.colorMapSextant
       [[JNum (Fin (1/2)); JNum (Fin (3/10)); JNum (Fin (1/5))]]
       ColorMapping.defaultCenter
       ["#FFFF00"; "#B3DCC3"; "#01A0C6"; "#B8B3D8"; "#F11D8C"]%string
     = Throws "Sextant values array must have exactly 6 elements".
Proof.
  split; [| reflexivity].
  unfold ColorMapping.colorMapSextant, ColorMapping.defaultCenter.
  cbn [List.length ColorMapping.defaultValues Nat.eqb negb].
  unfold CompositionUtils.close. cbn [map].
  rewrite closePoint_fin by lra. rewrite !div_fin by lra.
  unfold TernaryGeometry.ternarySurroundingSextant. cbn [map].
  rewrite sextantPoint_table. unfold Num.gt, Num.lt. settle.
  cbn [Spec.sextantTable mapi mapiFrom ColorMapping.sextantOf nth].
  replace (Num.sub (Fin 1) (Fin 1)) with (Num.sub (Fin (IZR 1)) (Fin 1)) by reflexivity.
  rewrite at_num_pred by lia. cbn [Z.sub Z.to_nat nth_error Z.pos_sub ColorMapping.defaultValues].
  do 3 f_equal; apply (f_equal JNum), (f_equal Fin); lra.
Qed.

(** ** Limits of a data set *)

Ltac num_cases :=
  intros;
  repeat match goal with x : num |- _ => destruct x end;
  unfold Spec.isReal, Num.le, Num.gt, Num.lt, Num.eq, Math.min2, Math.max2 in *;
  cbn in *; try congruence;
  split_cmp; cbn in *; try congruence; try lra; auto.

Lemma min2_real (x y : num) : Spec.isReal x -> Spec.isReal y -> Spec.isReal (Math.min2 x y).
Proof. num_cases. Qed.

Lemma max2_real (x y : num) : Spec.isReal x -> Spec.isReal y -> Spec.isReal (Math.max2 x y).
Proof. num_cases. Qed.

Lemma min2_le_max2 (l u p : num) :
  Spec.isReal l -> Spec.isReal u -> Spec.isReal p ->
  Num.le (Math.min2 l p) (Math.max2 u p) = true.
Proof. num_cases. Qed.

Lemma limitsStep_real (acc : TernaryGeometry.limits) (p : TernaryPoint) :
  Spec.realPoint (TernaryGeometry.lower acc) ->
  Spec.realPoint (TernaryGeometry.upper acc) ->
  Spec.realPoint p ->
  Spec.realPoint (TernaryGeometry.lower (TernaryGeometry.limitsStep acc p))
  /\ Spec.realPoint (TernaryGeometry.upper (TernaryGeometry.limitsStep acc p)).
Proof.
  destruct acc as [[[l0 l1] l2] [[u0 u1] u2]], p as [[p0 p1] p2].
  cbn. intros (? & ? & ?) (? & ? & ?) (? & ? & ?).
  repeat split; auto using min2_real, max2_real.
Qed.

Lemma limitsStep_le (acc : TernaryGeometry.limits) (p : TernaryPoint) :
  Spec.realPoint (TernaryGeometry.lower acc) ->
  Spec.realPoint (TernaryGeometry.upper acc) ->
  Spec.realPoint p ->
  Spec.pointLe (TernaryGeometry.lower (TernaryGeometry.limitsStep acc p))
               (TernaryGeometry.upper (TernaryGeometry.limitsStep acc p)).
Proof.
  destruct acc as [[[l0 l1] l2] [[u0 u1] u2]], p as [[p0 p1] p2].
  cbn. intros (? & ? & ?) (? & ? & ?) (? & ? & ?).
  repeat split; auto using min2_le_max2.
Qed.

Lemma limits_fold_real (P : list TernaryPoint) :
  Forall Spec.realPoint P ->
  forall acc,
    Spec.realPoint (TernaryGeometry.lower acc) ->
    Spec.realPoint (TernaryGeometry.upper acc) ->
    Spec.realPoint (TernaryGeometry.lower (fold_left TernaryGeometry.limitsStep P acc))
    /\ Spec.realPoint (TernaryGeometry.upper (fold_left TernaryGeometry.limitsStep P acc)).
Proof.
  induction 1 as [| p P Hp _ IH]; intros acc Hl Hu; cbn [fold_left].
  - now split.
  - destruct (limitsStep_real acc p Hl Hu Hp). now apply IH.
Qed.

(** C10, as the code has it: for the empty array [ternaryLimits] returns
    lower = [1, 1, 1] and upper = [0, 0, 0], each lower component strictly
    greater than the upper one; for every non-empty array of points none of
    whose components is [NaN], each lower component is [<=] the
    corresponding upper component. *)
Theorem C10_ternaryLimits :
  (TernaryGeometry.ternaryLimits [] =
     TernaryGeometry.mkLimits (Fin 1, Fin 1, Fin 1) (Fin 0, Fin 0, Fin 0)
   /\ Num.gt (Fin 1) (Fin 0) = true)
  /\ (forall P : list TernaryPoint,
         P <> [] -> Forall Spec.realPoint P ->
         Spec.pointLe (TernaryGeometry.lower (TernaryGeometry.ternaryLimits P))
                      (TernaryGeometry.upper (TernaryGeometry.ternaryLimits P))).
Proof.
  split.
  - split; [reflexivity |]. apply gt_fin. lra.
  - intros P Hne Hreal. unfold TernaryGeometry.ternaryLimits.
    destruct (exists_last Hne) as (Q & p & ->).
    apply Forall_app in Hreal. destruct Hreal as [HQ Hp].
    inversion Hp as [| ? ? Hp' _]; subst.
    rewrite fold_left_app. cbn [fold_left].
    assert (Hinit : forall x : R, Spec.realPoint (Fin x, Fin x, Fin x))
      by (intros x; repeat split; discriminate).
    destruct (limits_fold_real Q HQ
                (TernaryGeometry.mkLimits (Fin 1, Fin 1, Fin 1) (Fin 0, Fin 0, Fin 0))
                (Hinit 1) (Hinit 0)) as [Hl Hu].
    now apply limitsStep_le.
Qed.

Lemma C10_ternaryLimits_witness :
  let P := [(Fin (1/5), Fin (3/10), Fin (1/2)); (Fin (1/2), Fin (1/4), Fin (1/4))] in
  P <> [] /\ Forall Spec.realPoint P /\
  Spec.pointLe (TernaryGeometry.lower (TernaryGeometry.ternaryLimits P))
               (TernaryGeometry.upper (TernaryGeometry.ternaryLimits P)).
Proof.
  assert (Hne : [(Fin (1/5), Fin (3/10), Fin (1/2)); (Fin (1/2), Fin (1/4), Fin (1/4))]
                <> @nil TernaryPoint) by discriminate.
  assert (Hreal : Forall Spec.realPoint
                    [(Fin (1/5), Fin (3/10), Fin (1/2)); (Fin (1/2), Fin (1/4), Fin (1/4))])
    by (repeat constructor; discriminate).
  exact (conj Hne (conj Hreal (proj2 C10_ternaryLimits _ Hne Hreal))).
Defined.

(** A [NaN] component makes both limits [NaN], and [NaN <= NaN] is false. *)
Lemma C10_counterexample :
  let P := [(NaN, Fin 0, Fin 0)] in
  P <> [] /\
  TernaryGeometry.ternaryLimits P =
    TernaryGeometry.mkLimits (NaN, Fin 0, Fin 0) (NaN, Fin 0, Fin 0) /\
  ~ Spec.pointLe (TernaryGeometry.lower (TernaryGeometry.ternaryLimits P))
                 (TernaryGeometry.upper (TernaryGeometry.ternaryLimits P)).
Proof.
  assert (E : TernaryGeometry.ternaryLimits [(NaN, Fin 0, Fin 0)] =
              TernaryGeometry.mkLimits (NaN, Fin 0, Fin 0) (NaN, Fin 0, Fin 0)).
  { unfold TernaryGeometry.ternaryLimits. cbn. unfold Num.lt. settle. reflexivity. }
  cbv zeta. split; [discriminate | split; [exact E |]].
  rewrite E. cbn. intros (H & _). discriminate.
Qed.

(** ** The structure of [colorMapTricolore] *)

Lemma collect_mapiFrom {A B : Type} (g : A -> nat -> outcome B) (xs : list A) :
  forall k,
    (forall i x, nth_error xs i = Some x -> exists r, g x (k + i)%nat = Returns r) ->
    exists rs,
      collect (mapiFrom g k xs) = Returns rs
      /\ List.length rs = List.length xs
      /\ forall i x, nth_error xs i = Some x ->
                     exists r, nth_error rs i = Some r /\ g x (k + i)%nat = Returns r.
Proof.
  induction xs as [| x xs IH]; intros k Hg.
  - exists []. cbn. repeat split; auto. intros [| i] y; discriminate.
  - destruct (Hg 0%nat x eq_refl) as (r & Hr).
    destruct (IH (S k)) as (rs & Hrs & Hlen & Hnth).
    { intros i y Hy. destruct (Hg (S i) y Hy) as (r' & Hr').
      exists r'. now rewrite Nat.add_succ_r in Hr'. }
    exists (r :: rs). cbn [mapiFrom collect]. rewrite Nat.add_0_r in Hr.
    rewrite Hr. cbn [bind]. rewrite Hrs. cbn [bind]. split; [reflexivity |].
    split; [cbn; now rewrite Hlen |].
    intros [| i] y Hy; cbn in Hy.
    + inversion Hy; subst. exists r. rewrite Nat.add_0_r. now split.
    + destruct (Hnth i y Hy) as (r' & H1 & H2). exists r'.
      rewrite Nat.add_succ_r. now split.
Qed.

Lemma collect_mapi {A B : Type} (g : A -> nat -> outcome B) (xs : list A) :
  (forall i x, nth_error xs i = Some x -> exists r, g x i = Returns r) ->
  exists rs,
    collect (mapi g xs) = Returns rs
    /\ List.length rs = List.length xs
    /\ forall i x, nth_error xs i = Some x ->
                   exists r, nth_error rs i = Some r /\ g x i = Returns r.
Proof. intros H. apply (collect_mapiFrom g xs 0 H). Qed.

Lemma perturbePoint_None (c : TernaryPoint) (p : option TernaryPoint) :
  CompositionUtils.perturbePoint c p = None <-> p = None.
Proof.
  destruct c as [[c0 c1] c2], p as [[[p0 p1] p2] |]; cbn; split; auto; discriminate.
Qed.

Lemma powerScalePoint_None (s : num) (p : option TernaryPoint) :
  CompositionUtils.powerScalePoint s p = None <-> p = None.
Proof. destruct p as [[[p0 p1] p2] |]; cbn; split; auto; discriminate. Qed.

Lemma mesh_returns (b : R) :
  exists cs, TernaryGeometry.ternaryMeshCentroids (Fin b) = Returns cs.
Proof. unfold TernaryGeometry.ternaryMeshCentroids. cbn. eexists. reflexivity. Qed.

Lemma discrete_finite (breaks : num) :
  Num.isFinite breaks && Num.lt breaks (Fin 100) = true <->
  exists b : R, breaks = Fin b /\ b < 100.
Proof.
  destruct breaks as [b | | |]; cbn.
  - rewrite Rltb_spec. split; [intros H; now exists b | intros (b' & E & H); now inversion E].
  - split; [discriminate | intros (b & E & _); discriminate].
  - split; [discriminate | intros (b & E & _); discriminate].
  - split; [discriminate | intros (b & E & _); discriminate].
Qed.

(** What [tricoloreOf] returns for the [i]-th input element [p], given the
    point [q] that the pipeline made of it. *)
Lemma tricoloreOf_absent (P : list (list jsval)) (N : list (option TernaryPoint))
  (hue chroma lightness contrast : num) (i : nat) (p : list jsval) :
  nth_error P i = Some p ->
  ColorMapping.tricoloreOf P N hue chroma lightness contrast None i =
  Returns (TricoloreResult.mk (item p 0) (item p 1) (item p 2) None None None None).
Proof. intros Hi. cbn. now rewrite (nth_of_nth_error _ _ [] _ Hi). Qed.

Lemma tricoloreOf_present (P : list (list jsval)) (N : list (option TernaryPoint))
  (hue chroma lightness contrast : num) (i : nat) (q n : TernaryPoint) :
  nth_error N i = Some (Some n) ->
  exists h c l rgb,
    ColorMapping.tricoloreOf P N hue chroma lightness contrast (Some q) i =
    Returns (TricoloreResult.mk (JNum (fst (fst n))) (JNum (snd (fst n))) (JNum (snd n))
               (Some h) (Some c) (Some l) (Some rgb))
    /\ forall P' N' i' n',
        nth_error N' i' = Some (Some n') ->
        ColorMapping.tricoloreOf P' N' hue chroma lightness contrast (Some q) i' =
        Returns (TricoloreResult.mk (JNum (fst (fst n'))) (JNum (snd (fst n'))) (JNum (snd n'))
                   (Some h) (Some c) (Some l) (Some rgb)).
Proof.
  intros Hn. destruct q as [[q0 q1] q2], n as [[n0 n1] n2].
  unfold ColorMapping.tricoloreOf. rewrite (nth_of_nth_error _ _ None _ Hn).
  do 4 eexists. split; [reflexivity |].
  intros P' N' i' [[n0' n1'] n2'] Hn'. rewrite (nth_of_nth_error _ _ None _ Hn').
  reflexivity.
Qed.

(** [colorMapTricolore] always returns, one result per element: the result
    of element [i] is what [tricoloreOf] makes of the closed point of that
    element after the optional nearest-centroid step [f], centring and
    scaling. *)
Lemma colorMapTricolore_elements (P : list (list jsval)) (c0 c1 c2 : num)
  (breaks hue chroma lightness contrast spread : num) :
  exists (f : option TernaryPoint -> option TernaryPoint) rs,
    ColorMapping.colorMapTricolore P (c0, c1, c2) breaks hue chroma lightness
                                   contrast spread = Returns rs
    /\ List.length rs = List.length P
    /\ f None = None
    /\ (if Num.isFinite breaks && Num.lt breaks (Fin 100)
        then exists cs,
            TernaryGeometry.ternaryMeshCentroids breaks = Returns cs
            /\ f = TernaryGeometry.nearestPoint (map ColorMapping.centroidPoint cs)
        else f = (fun p => p))
    /\ forall i p,
        nth_error P i = Some p ->
        exists r,
          nth_error rs i = Some r
          /\ ColorMapping.tricoloreOf P (CompositionUtils.close P)
               hue chroma lightness contrast
               (CompositionUtils.powerScalePoint spread
                  (CompositionUtils.perturbePoint
                     (Num.div (Fin 1) c0, Num.div (Fin 1) c1, Num.div (Fin 1) c2)
                     (f (CompositionUtils.closePoint p)))) i
             = Returns r.
Proof.
  unfold ColorMapping.colorMapTricolore.
  set (cond := Num.isFinite breaks && Num.lt breaks (Fin 100)).
  set (c' := (Num.div (Fin 1) c0, Num.div (Fin 1) c1, Num.div (Fin 1) c2)).
  assert (Hf : exists f,
             f None = None
             /\ (if cond
                 then exists cs,
                     TernaryGeometry.ternaryMeshCentroids breaks = Returns cs
                     /\ f = TernaryGeometry.nearestPoint (map ColorMapping.centroidPoint cs)
                 else f = (fun p => p))
             /\ (if cond
                 then bind (TernaryGeometry.ternaryMeshCentroids breaks)
                        (fun cs => Returns (TernaryGeometry.ternaryNearest
                                              (CompositionUtils.close P)
                                              (map ColorMapping.centroidPoint cs)))
                 else Returns (CompositionUtils.close P))
                = Returns (map f (CompositionUtils.close P))).
  { destruct cond eqn:Hc.
    - apply discrete_finite in Hc. destruct Hc as (b & -> & _).
      destruct (mesh_returns b) as (cs & Hcs).
      exists (TernaryGeometry.nearestPoint (map ColorMapping.centroidPoint cs)).
      split; [reflexivity |]. split; [now exists cs |].
      rewrite Hcs. reflexivity.
    - exists (fun p => p). split; [reflexivity |]. split; [reflexivity |].
      now rewrite map_id. }
  destruct Hf as (f & Hnone & Hshape & Hdisc). rewrite Hdisc. cbn [bind].
  unfold CompositionUtils.powerScale, CompositionUtils.perturbe, CompositionUtils.close.
  rewrite !map_map.
  fold (CompositionUtils.close P).
  set (g := ColorMapping.tricoloreOf P (CompositionUtils.close P) hue chroma
              lightness contrast).
  set (stage := fun x : list jsval =>
                  CompositionUtils.powerScalePoint spread
                    (CompositionUtils.perturbePoint c' (f (CompositionUtils.closePoint x)))).
  destruct (collect_mapi g (map stage P)) as (rs & Hrs & Hlen & Hnth).
  { intros i q Hq. rewrite nth_error_map in Hq.
    destruct (nth_error P i) as [p |] eqn:Hp; [| discriminate].
    cbn in Hq. inversion Hq as [Hq']. subst g.
    destruct (stage p) as [s |] eqn:Hs.
    - assert (Hclosed : exists n, CompositionUtils.closePoint p = Some n).
      { destruct (CompositionUtils.closePoint p) as [n |] eqn:Hn; [now exists n |].
        exfalso. subst stage. cbn beta in Hs. rewrite Hn, Hnone in Hs.
        assert (E : CompositionUtils.perturbePoint c' None = None)
          by now apply perturbePoint_None.
        rewrite E in Hs. cbn in Hs. discriminate. }
      destruct Hclosed as (n & Hn).
      assert (HN : nth_error (CompositionUtils.close P) i = Some (Some n))
        by (rewrite nth_error_close, Hp; cbn; now rewrite Hn).
      destruct (tricoloreOf_present P (CompositionUtils.close P) hue chroma
                  lightness contrast i s n HN) as (h & c & l & rgb & E & _).
      eexists. exact E.
    - eexists. apply tricoloreOf_absent. exact Hp. }
  exists f, rs. split; [exact Hrs |]. split; [now rewrite Hlen, length_map |].
  split; [exact Hnone |]. split; [exact Hshape |].
  intros i p Hp.
  destruct (Hnth i (stage p)) as (r & Hr1 & Hr2).
  { now rewrite nth_error_map, Hp. }
  exists r. split; [exact Hr1 | exact Hr2].
Qed.

(** The two shapes of a result of [colorMapTricolore]: the element's own
    components with [null] colour fields when the pipeline made no point of
    it, the components of its closed point with colours otherwise. *)
Lemma colorMapTricolore_cases (P : list (list jsval)) (c0 c1 c2 : num)
  (breaks hue chroma lightness contrast spread : num) (i : nat) (p : list jsval) :
  nth_error P i = Some p ->
  exists (f : option TernaryPoint -> option TernaryPoint) rs r,
    ColorMapping.colorMapTricolore P (c0, c1, c2) breaks hue chroma lightness
                                   contrast spread = Returns rs
    /\ f None = None
    /\ (if Num.isFinite breaks && Num.lt breaks (Fin 100)
        then exists cs,
            TernaryGeometry.ternaryMeshCentroids breaks = Returns cs
            /\ f = TernaryGeometry.nearestPoint (map ColorMapping.centroidPoint cs)
        else f = (fun p => p))
    /\ nth_error rs i = Some r
    /\ ((f (CompositionUtils.closePoint p) = None
         /\ r = TricoloreResult.mk (item p 0) (item p 1) (item p 2)
                                   None None None None)
        \/ (exists q n0 n1 n2 h c l rgb,
               f (CompositionUtils.closePoint p) = Some q
               /\ CompositionUtils.closePoint p = Some (n0, n1, n2)
               /\ r = TricoloreResult.mk (JNum n0) (JNum n1) (JNum n2)
                                         (Some h) (Some c) (Some l) (Some rgb))).
Proof.
  intros Hp.
  destruct (colorMapTricolore_elements P c0 c1 c2 breaks hue chroma lightness
              contrast spread) as (f & rs & Hrs & _ & Hnone & Hshape & Hel).
  destruct (Hel i p Hp) as (r & Hr & Hof).
  exists f, rs, r. repeat (split; [assumption |]).
  destruct (f (CompositionUtils.closePoint p)) as [q |] eqn:Hq.
  - right.
    destruct (CompositionUtils.closePoint p) as [[[n0 n1] n2] |] eqn:Hn;
      [| rewrite Hnone in Hq; discriminate].
    assert (HN : nth_error (CompositionUtils.close P) i = Some (Some (n0, n1, n2)))
      by (rewrite nth_error_close, Hp; cbn; now rewrite Hn).
    destruct (CompositionUtils.powerScalePoint spread
                (CompositionUtils.perturbePoint
                   (Num.div (Fin 1) c0, Num.div (Fin 1) c1, Num.div (Fin 1) c2)
                   (Some q))) as [s |] eqn:Hs.
    + destruct (tricoloreOf_present P (CompositionUtils.close P) hue chroma
                  lightness contrast i s (n0, n1, n2) HN) as (h & c & l & rgb & E & _).
      rewrite E in Hof. inversion Hof; subst.
      exists q, n0, n1, n2, h, c, l, rgb. auto.
    + apply powerScalePoint_None, perturbePoint_None in Hs. discriminate.
  - left. split; [reflexivity |].
    assert (E : CompositionUtils.powerScalePoint spread
                  (CompositionUtils.perturbePoint
                     (Num.div (Fin 1) c0, Num.div (Fin 1) c1, Num.div (Fin 1) c2)
                     None) = None)
      by (apply powerScalePoint_None, perturbePoint_None; reflexivity).
    rewrite E in Hof. rewrite (tricoloreOf_absent _ _ _ _ _ _ _ _ Hp) in Hof.
    now inversion Hof.
Qed.

(** The shape of a result of [colorMapSextant]. *)
Lemma colorMapSextant_cases (P : list (list jsval)) (center : TernaryPoint)
  (values : list string) (i : nat) (p : list jsval) :
  List.length values = 6%nat ->
  nth_error P i = Some p ->
  exists rs r,
    ColorMapping.colorMapSextant P center values = Returns rs
    /\ List.length rs = List.length P
    /\ nth_error rs i = Some r
    /\ match CompositionUtils.closePoint p with
       | None => r = SextantResult.mk (item p 0) (item p 1) (item p 2) None None
       | Some (n0, n1, n2) =>
           r = SextantResult.mk (JNum n0) (JNum n1) (JNum n2)
                 (TernaryGeometry.sextantPoint center (Some (n0, n1, n2)))
                 match TernaryGeometry.sextantPoint center (Some (n0, n1, n2)) with
                 | Some s => at_num values (Num.sub s (Fin 1))
                 | None => None
                 end
       end.
Proof.
  intros Hlen Hp. unfold ColorMapping.colorMapSextant.
  rewrite Hlen. cbn [Nat.eqb negb].
  eexists. eexists. split; [reflexivity |].
  split; [rewrite length_mapi; unfold CompositionUtils.close; apply length_map |].
  rewrite nth_error_mapi, nth_error_close, Hp. cbn [option_map].
  split; [reflexivity |].
  destruct (CompositionUtils.closePoint p) as [[[n0 n1] n2] |] eqn:Hn.
  - cbn [ColorMapping.sextantOf].
    assert (Hs : nth i (TernaryGeometry.ternarySurroundingSextant
                          (CompositionUtils.close P) center) None
                 = TernaryGeometry.sextantPoint center (Some (n0, n1, n2))).
    { apply nth_of_nth_error. unfold TernaryGeometry.ternarySurroundingSextant.
      now rewrite nth_error_map, nth_error_close, Hp; cbn; rewrite Hn. }
    rewrite Hs. reflexivity.
  - cbn [ColorMapping.sextantOf]. now rewrite (nth_of_nth_error _ _ [] _ Hp).
Qed.

(** The result of an element depends on that element only, not on its
    position nor on the rest of the batch. *)
Lemma colorMapSextant_local (P P' : list (list jsval)) (center : TernaryPoint)
  (values : list string) (j j' : nat) (q : list jsval) :
  List.length values = 6%nat ->
  nth_error P j = Some q -> nth_error P' j' = Some q ->
  exists rs rs' r,
    ColorMapping.colorMapSextant P center values = Returns rs
    /\ ColorMapping.colorMapSextant P' center values = Returns rs'
    /\ nth_error rs j = Some r /\ nth_error rs' j' = Some r.
Proof.
  intros Hlen Hq Hq'.
  destruct (colorMapSextant_cases P center values j q Hlen Hq)
    as (rs & r & Hrs & _ & Hr & Hsh).
  destruct (colorMapSextant_cases P' center values j' q Hlen Hq')
    as (rs' & r' & Hrs' & _ & Hr' & Hsh').
  exists rs, rs', r. repeat (split; [assumption |]).
  rewrite Hr'. f_equal.
  destruct (CompositionUtils.closePoint q) as [[[n0 n1] n2] |]; congruence.
Qed.

Lemma tricoloreOf_local (P P' : list (list jsval))
  (hue chroma lightness contrast : num) (s : option TernaryPoint)
  (j j' : nat) (q : list jsval) :
  nth_error P j = Some q -> nth_error P' j' = Some q ->
  ColorMapping.tricoloreOf P (CompositionUtils.close P) hue chroma lightness contrast s j
  = ColorMapping.tricoloreOf P' (CompositionUtils.close P') hue chroma lightness contrast s j'.
Proof.
  intros Hq Hq'.
  assert (HN : nth j (CompositionUtils.close P) None = CompositionUtils.closePoint q)
    by (apply nth_of_nth_error; now rewrite nth_error_close, Hq).
  assert (HN' : nth j' (CompositionUtils.close P') None = CompositionUtils.closePoint q)
    by (apply nth_of_nth_error; now rewrite nth_error_close, Hq').
  unfold ColorMapping.tricoloreOf.
  rewrite HN, HN', (nth_of_nth_error _ _ [] _ Hq), (nth_of_nth_error _ _ [] _ Hq').
  reflexivity.
Qed.

Lemma colorMapTricolore_local (P P' : list (list jsval)) (c0 c1 c2 : num)
  (breaks hue chroma lightness contrast spread : num) (j j' : nat) (q : list jsval) :
  nth_error P j = Some q -> nth_error P' j' = Some q ->
  exists rs rs' r,
    ColorMapping.colorMapTricolore P (c0, c1, c2) breaks hue chroma lightness
                                   contrast spread = Returns rs
    /\ ColorMapping.colorMapTricolore P' (c0, c1, c2) breaks hue chroma lightness
                                      contrast spread = Returns rs'
    /\ nth_error rs j = Some r /\ nth_error rs' j' = Some r.
Proof.
  intros Hq Hq'.
  destruct (colorMapTricolore_elements P c0 c1 c2 breaks hue chroma lightness
              contrast spread) as (f & rs & Hrs & _ & _ & Hshape & Hel).
  destruct (colorMapTricolore_elements P' c0 c1 c2 breaks hue chroma lightness
              contrast spread) as (f' & rs' & Hrs' & _ & _ & Hshape' & Hel').
  destruct (Hel j q Hq) as (r & Hr & Hof).
  destruct (Hel' j' q Hq') as (r' & Hr' & Hof').
  assert (Hff : f' = f).
  { destruct (Num.isFinite breaks && Num.lt breaks (Fin 100)).
    - destruct Hshape as (cs & Hcs & ->), Hshape' as (cs' & Hcs' & ->).
      rewrite Hcs in Hcs'. now inversion Hcs'.
    - congruence. }
  subst f'. rewrite (tricoloreOf_local P P' _ _ _ _ _ j j' q Hq Hq') in Hof.
  rewrite Hof in Hof'. inversion Hof'; subst r'.
  exists rs, rs', r. auto.
Qed.

Lemma closePoint_closed (a b c : R) :
  a + b + c = 1 ->
  CompositionUtils.closePoint [JNum (Fin a); JNum (Fin b); JNum (Fin c)] =
  Some (Fin a, Fin b, Fin c).
Proof.
  intros H. rewrite closePoint_fin by lra. rewrite H.
  do 2 f_equal; [f_equal |]; apply (f_equal Fin); field.
Qed.

(** ** The components reported in a result *)

(** C9, as the code has it: the fields p1, p2, p3 of a result hold the
    element's own components only when the colour fields are [null] (as for
    every element that [close] rejects); otherwise they hold the components
    of the closed point, each original component divided by the sum of the
    three, which are the original ones when these already sum to 1. *)
Theorem C9_reported_components (P : list (list jsval)) (i : nat) (p : list jsval)
  (center : TernaryPoint) (values : list string) (c0 c1 c2 : num)
  (breaks hue chroma lightness contrast spread : num) :
  nth_error P i = Some p ->
  List.length values = 6%nat ->
  (exists rs r,
      ColorMapping.colorMapSextant P center values = Returns rs
      /\ nth_error rs i = Some r
      /\ match CompositionUtils.closePoint p with
         | None =>
             SextantResult.rgb r = None
             /\ SextantResult.p1 r = item p 0
             /\ SextantResult.p2 r = item p 1
             /\ SextantResult.p3 r = item p 2
         | Some (n0, n1, n2) =>
             SextantResult.p1 r = JNum n0
             /\ SextantResult.p2 r = JNum n1
             /\ SextantResult.p3 r = JNum n2
         end)
  /\ (exists rs r,
         ColorMapping.colorMapTricolore P (c0, c1, c2) breaks hue chroma lightness
                                        contrast spread = Returns rs
         /\ nth_error rs i = Some r
         /\ (CompositionUtils.closePoint p = None -> TricoloreResult.h r = None)
         /\ (Num.isFinite breaks && Num.lt breaks (Fin 100) = false ->
             CompositionUtils.closePoint p <> None -> TricoloreResult.h r <> None)
         /\ match TricoloreResult.h r with
            | None =>
                TricoloreResult.rgb r = None
                /\ TricoloreResult.p1 r = item p 0
                /\ TricoloreResult.p2 r = item p 1
                /\ TricoloreResult.p3 r = item p 2
            | Some _ =>
                exists n0 n1 n2,
                CompositionUtils.closePoint p = Some (n0, n1, n2)
                /\ TricoloreResult.p1 r = JNum n0
                /\ TricoloreResult.p2 r = JNum n1
                /\ TricoloreResult.p3 r = JNum n2
            end)
  /\ (forall a b c : R,
         p = [JNum (Fin a); JNum (Fin b); JNum (Fin c)] ->
         (a + b + c <> 0 ->
          CompositionUtils.closePoint p =
          Some (Fin (a / (a + b + c)), Fin (b / (a + b + c)), Fin (c / (a + b + c))))
         /\ (a + b + c = 1 ->
             CompositionUtils.closePoint p = Some (Fin a, Fin b, Fin c))).
Proof.
  intros Hp Hlen. split; [| split].
  - destruct (colorMapSextant_cases P center values i p Hlen Hp) as (rs & r & Hrs & _ & Hr & Hsh).
    exists rs, r. split; [exact Hrs |]. split; [exact Hr |].
    destruct (CompositionUtils.closePoint p) as [[[n0 n1] n2] |].
    + subst r. cbn. auto.
    + subst r. cbn. auto.
  - destruct (colorMapTricolore_cases P c0 c1 c2 breaks hue chroma lightness
                contrast spread i p Hp)
      as (f & rs & r & Hrs & Hnone & Hshape & Hr & Hcases).
    exists rs, r. split; [exact Hrs |]. split; [exact Hr |].
    destruct Hcases as [[Hf ->] | (q & n0 & n1 & n2 & h & c & l & rgb & Hf & Hn & ->)].
    + cbn. split; [reflexivity |]. split; [| auto].
      intros Hc Hne. rewrite Hc in Hshape. subst f. contradiction.
    + cbn. split; [intros E; rewrite E in Hn; discriminate |].
      split; [discriminate |]. exists n0, n1, n2. auto.
  - intros a b c ->. split; [apply closePoint_fin | apply closePoint_closed].
Qed.

Lemma C9_reported_components_witness :
  exists rs r,
    ColorMapping.colorMapSextant [[JNum (Fin 2); JNum (Fin 1); JNum (Fin 1)]]
      ColorMapping.defaultCenter ColorMapping.defaultValues = Returns rs
    /\ nth_error rs 0 = Some r
    /\ match CompositionUtils.closePoint [JNum (Fin 2); JNum (Fin 1); JNum (Fin 1)] with
       | None =>
           SextantResult.rgb r = None
           /\ SextantResult.p1 r = item [JNum (Fin 2); JNum (Fin 1); JNum (Fin 1)] 0
           /\ SextantResult.p2 r = item [JNum (Fin 2); JNum (Fin 1); JNum (Fin 1)] 1
           /\ SextantResult.p3 r = item [JNum (Fin 2); JNum (Fin 1); JNum (Fin 1)] 2
       | Some (n0, n1, n2) =>
           SextantResult.p1 r = JNum n0
           /\ SextantResult.p2 r = JNum n1
           /\ SextantResult.p3 r = JNum n2
       end.
Proof.
  exact (proj1 (C9_reported_components
                  [[JNum (Fin 2); JNum (Fin 1); JNum (Fin 1)]] 0
                  [JNum (Fin 2); JNum (Fin 1); JNum (Fin 1)]
                  ColorMapping.defaultCenter ColorMapping.defaultValues
                  (Fin 1) (Fin 1) (Fin 1) PInf (Fin 80) (Fin 140) (Fin 80)
                  (Fin 0) (Fin 1) eq_refl eq_refl)).
Defined.

(** The composition (2, 1, 1) is reported as (1/2, 1/4, 1/4) by both maps. *)
Lemma C9_counterexample :
  (exists rs r,
      ColorMapping.colorMapSextant [[JNum (Fin 2); JNum (Fin 1); JNum (Fin 1)]]
        ColorMapping.defaultCenter ColorMapping.defaultValues = Returns rs
      /\ nth_error rs 0 = Some r
      /\ SextantResult.p1 r = JNum (Fin (1/2))
      /\ SextantResult.p1 r <> JNum (Fin 2))
  /\ (exists rs r,
         ColorMapping.colorMapTricolore [[JNum (Fin 2); JNum (Fin 1); JNum (Fin 1)]]
           ColorMapping.defaultCenter PInf (Fin 80) (Fin 140) (Fin 80)
           (Fin (2/5)) (Fin 1) = Returns rs
         /\ nth_error rs 0 = Some r
         /\ TricoloreResult.p1 r = JNum (Fin (1/2))
         /\ TricoloreResult.p1 r <> JNum (Fin 2)).
Proof.
  assert (Hclose : CompositionUtils.closePoint [JNum (Fin 2); JNum (Fin 1); JNum (Fin 1)]
                   = Some (Fin (1/2), Fin (1/4), Fin (1/4))).
  { rewrite closePoint_fin by lra.
    do 2 f_equal; [f_equal |]; apply (f_equal Fin); lra. }
  assert (Hne : JNum (Fin (1/2)) <> JNum (Fin 2)).
  { intros E. inversion E. lra. }
  split.
  - destruct (colorMapSextant_cases [[JNum (Fin 2); JNum (Fin 1); JNum (Fin 1)]]
                ColorMapping.defaultCenter ColorMapping.defaultValues 0
                [JNum (Fin 2); JNum (Fin 1); JNum (Fin 1)] eq_refl eq_refl)
      as (rs & r & Hrs & _ & Hr & Hsh).
    rewrite Hclose in Hsh. subst r.
    exists rs. eexists. split; [exact Hrs |]. split; [exact Hr |]. cbn. auto.
  - destruct (colorMapTricolore_cases [[JNum (Fin 2); JNum (Fin 1); JNum (Fin 1)]]
                (Num.div (Fin 1) (Fin 3)) (Num.div (Fin 1) (Fin 3)) (Num.div (Fin 1) (Fin 3))
                PInf (Fin 80) (Fin 140) (Fin 80) (Fin (2/5)) (Fin 1) 0
                [JNum (Fin 2); JNum (Fin 1); JNum (Fin 1)] eq_refl)
      as (f & rs & r & Hrs & _ & Hshape & Hr & Hcases).
    cbn in Hshape. subst f. rewrite Hclose in Hcases.
    destruct Hcases as [[Hf _] | (q & n0 & n1 & n2 & h & c & l & rgb & _ & Hn & ->)];
      [discriminate |].
    inversion Hn; subst.
    exists rs. eexists. split; [exact Hrs |]. split; [exact Hr |]. cbn. auto.
Qed.

(** ** Invalid elements *)

Lemma invalid_iff (p : list jsval) :
  CompositionUtils.isValidTernary p = false <-> Spec.invalidElement p.
Proof.
  unfold CompositionUtils.isValidTernary, Spec.invalidElement.
  set (ok := fun v => isNumber v && negb (Num.isNaN (numberOf v))).
  assert (Hok : forall v, ok v = false <-> Spec.notANumber v).
  { intros [[r | | |] | | | s]; cbn; split; auto; discriminate. }
  assert (Hall : forallb ok p = false <-> Exists Spec.notANumber p).
  { induction p as [| v p IH]; cbn.
    - split; [discriminate | intros H; inversion H].
    - rewrite andb_false_iff, IH, Hok. split.
      + intros [H | H]; [now left | now right].
      + intros H. inversion H; subst; auto. }
  rewrite andb_false_iff, Nat.eqb_neq, Hall. reflexivity.
Qed.

Lemma closePoint_invalid (p : list jsval) :
  Spec.invalidElement p -> CompositionUtils.closePoint p = None.
Proof.
  intros H. apply invalid_iff in H. unfold CompositionUtils.closePoint.
  now rewrite H.
Qed.

(** C1, as the code has it: an element with the wrong arity, or with a
    component that is not a number or is [NaN], is mapped to the absent
    value by [close]; perturbation, power scaling, nearest assignment and
    sextant classification keep an absent value absent; both colour maps
    return (they do not throw) and give that element its own components
    with [null] colour fields; the result of any element is the same in any
    batch that holds it. *)
Theorem C1_invalid_elements (P : list (list jsval)) (i : nat) (p : list jsval)
  (values : list string) (c0 c1 c2 : num)
  (breaks hue chroma lightness contrast spread : num) :
  nth_error P i = Some p ->
  Spec.invalidElement p ->
  List.length values = 6%nat ->
  nth_error (CompositionUtils.close P) i = Some None
  /\ (forall (X : list (option TernaryPoint)) (c : TernaryPoint) (s : num)
             (C : list TernaryPoint),
         nth_error X i = Some None ->
         nth_error (CompositionUtils.perturbe X c) i = Some None
         /\ nth_error (CompositionUtils.powerScale X s) i = Some None
         /\ nth_error (TernaryGeometry.ternaryNearest X C) i = Some None
         /\ nth_error (TernaryGeometry.ternarySurroundingSextant X c) i = Some None)
  /\ (exists rs,
         ColorMapping.colorMapTricolore P (c0, c1, c2) breaks hue chroma lightness
                                        contrast spread = Returns rs
         /\ List.length rs = List.length P
         /\ nth_error rs i =
            Some (TricoloreResult.mk (item p 0) (item p 1) (item p 2)
                                     None None None None))
  /\ (exists rs,
         ColorMapping.colorMapSextant P (c0, c1, c2) values = Returns rs
         /\ List.length rs = List.length P
         /\ nth_error rs i =
            Some (SextantResult.mk (item p 0) (item p 1) (item p 2) None None))
  /\ (forall (P' : list (list jsval)) (j j' : nat) (q : list jsval),
         nth_error P j = Some q -> nth_error P' j' = Some q ->
         (exists rs rs' r,
             ColorMapping.colorMapTricolore P (c0, c1, c2) breaks hue chroma
                                            lightness contrast spread = Returns rs
             /\ ColorMapping.colorMapTricolore P' (c0, c1, c2) breaks hue chroma
                                               lightness contrast spread = Returns rs'
             /\ nth_error rs j = Some r /\ nth_error rs' j' = Some r)
         /\ (exists rs rs' r,
                ColorMapping.colorMapSextant P (c0, c1, c2) values = Returns rs
                /\ ColorMapping.colorMapSextant P' (c0, c1, c2) values = Returns rs'
                /\ nth_error rs j = Some r /\ nth_error rs' j' = Some r)).
Proof.
  intros Hp Hinv Hlen.
  pose proof (closePoint_invalid p Hinv) as Hclose.
  split; [| split; [| split; [| split]]].
  - now rewrite nth_error_close, Hp; cbn; rewrite Hclose.
  - intros X [[x0 x1] x2] s C HX.
    unfold CompositionUtils.perturbe, CompositionUtils.powerScale,
      TernaryGeometry.ternaryNearest, TernaryGeometry.ternarySurroundingSextant.
    rewrite !nth_error_map, HX. cbn. auto.
  - destruct (colorMapTricolore_elements P c0 c1 c2 breaks hue chroma lightness
                contrast spread) as (f & rs & Hrs & Hl & _ & _ & _).
    destruct (colorMapTricolore_cases P c0 c1 c2 breaks hue chroma lightness
                contrast spread i p Hp)
      as (f' & rs' & r & Hrs' & Hnone & _ & Hr & Hcases).
    rewrite Hrs in Hrs'. inversion Hrs'; subst rs'.
    exists rs. split; [exact Hrs |]. split; [exact Hl |].
    destruct Hcases as [[_ ->] | (q & n0 & n1 & n2 & h & c & l & rgb & _ & Hn & _)].
    + exact Hr.
    + rewrite Hclose in Hn. discriminate.
  - destruct (colorMapSextant_cases P (c0, c1, c2) values i p Hlen Hp)
      as (rs & r & Hrs & Hl & Hr & Hsh).
    rewrite Hclose in Hsh. subst r. exists rs. auto.
  - intros P' j j' q Hq Hq'. split.
    + now apply colorMapTricolore_local with (q := q).
    + now apply colorMapSextant_local with (q := q).
Qed.

Lemma C1_invalid_elements_witness :
  exists rs,
    ColorMapping.colorMapSextant
      [[JNum NaN; JNum (Fin 1); JNum (Fin 1)]; [JNum (Fin 1); JNum (Fin 1)]]
      (Fin 1, Fin 1, Fin 1) ColorMapping.defaultValues = Returns rs
    /\ List.length rs = 2%nat
    /\ nth_error rs 0 =
       Some (SextantResult.mk (JNum NaN) (JNum (Fin 1)) (JNum (Fin 1)) None None).
Proof.
  assert (Hinv : Spec.invalidElement [JNum NaN; JNum (Fin 1); JNum (Fin 1)])
    by (right; apply Exists_cons_hd; reflexivity).
  exact (proj1 (proj2 (proj2 (proj2
           (C1_invalid_elements
              [[JNum NaN; JNum (Fin 1); JNum (Fin 1)]; [JNum (Fin 1); JNum (Fin 1)]]
              0 [JNum NaN; JNum (Fin 1); JNum (Fin 1)] ColorMapping.defaultValues
              (Fin 1) (Fin 1) (Fin 1) PInf (Fin 80) (Fin 140) (Fin 80) (Fin 0) (Fin 1)
              eq_refl Hinv eq_refl))))).
Defined.

(** An infinite component is not a finite real number, yet [close] accepts
    the element, and on the continuous scale its result carries colour
    fields that are not [null]. *)
Lemma C1_counterexample :
  CompositionUtils.close [[JNum PInf; JNum (Fin 1); JNum (Fin 1)]]
  = [Some (NaN, Fin 0, Fin 0)]
  /\ ColorMapping.colorMapTricolore [[JNum PInf; JNum (Fin 1); JNum (Fin 1)]]
       ColorMapping.defaultCenter PInf (Fin 80) (Fin 140) (Fin 80) (Fin (2/5)) (Fin 1)
     = Returns [TricoloreResult.mk (JNum NaN) (JNum (Fin 0)) (JNum (Fin 0))
                  (Some NaN) (Some NaN) (Some NaN) (Some "#NaNNaNNaN"%string)].
Proof.
  split; [reflexivity |].
  unfold ColorMapping.colorMapTricolore, ColorMapping.defaultCenter.
  cbn [Num.isFinite andb bind].
  unfold CompositionUtils.close, CompositionUtils.perturbe, CompositionUtils.powerScale.
  cbn [map].
  assert (Hc : CompositionUtils.closePoint [JNum PInf; JNum (Fin 1); JNum (Fin 1)]
               = Some (NaN, Fin 0, Fin 0)) by reflexivity.
  rewrite Hc. rewrite !div_fin by lra.
  assert (Hs : CompositionUtils.powerScalePoint (Fin 1)
                 (CompositionUtils.perturbePoint
                    (Fin (1 / (1 / 3)), Fin (1 / (1 / 3)), Fin (1 / (1 / 3)))
                    (Some (NaN, Fin 0, Fin 0)))
               = Some (NaN, NaN, NaN)).
  { cbn. settle. reflexivity. }
  rewrite Hs. reflexivity.
Qed.

(** ** The mesh of an integer subdivision *)

Lemma Zfloor_sqrt (n : Z) : (0 <= n)%Z -> Zfloor (sqrt (IZR n)) = Z.sqrt n.
Proof.
  intros Hn. pose proof (Z.sqrt_spec n Hn) as [Hlo Hhi].
  pose proof (Z.sqrt_nonneg n) as Hs.
  set (s := Z.sqrt n) in *.
  assert (Hs' : 0 <= IZR s) by now apply IZR_le.
  apply Zfloor_eq. split.
  - rewrite <- (sqrt_square (IZR s)) by exact Hs'.
    apply sqrt_le_1_alt. rewrite <- mult_IZR. now apply IZR_le.
  - replace (IZR s + 1) with (sqrt ((IZR s + 1) * (IZR s + 1)))
      by (apply sqrt_square; lra).
    apply sqrt_lt_1_alt. split; [now apply IZR_le |].
    replace ((IZR s + 1) * (IZR s + 1)) with (IZR (Z.succ s * Z.succ s))
      by (rewrite mult_IZR, succ_IZR; ring).
    now apply IZR_lt.
Qed.

Lemma Zfloor_half (x : Z) : Zfloor (IZR x / 2) = (x / 2)%Z.
Proof.
  apply Zfloor_eq.
  pose proof (Z.div_mod x 2 ltac:(lia)) as Hx.
  pose proof (Z.mod_pos_bound x 2 ltac:(lia)) as Hm.
  assert (E : IZR x = 2 * IZR (x / 2) + IZR (x mod 2)).
  { rewrite Hx at 1. rewrite plus_IZR, mult_IZR. reflexivity. }
  assert (H0 : 0 <= IZR (x mod 2)) by (apply IZR_le; lia).
  assert (H1 : IZR (x mod 2) <= 1) by (apply IZR_le; lia).
  lra.
Qed.

Lemma Rtrunc_half (x : Z) : Num.Rtrunc (IZR x / 2) = Z.quot x 2.
Proof.
  unfold Num.Rtrunc. destruct (Rlt_dec (IZR x / 2) 0) as [Hneg | Hpos].
  - assert (Hx : (x < 0)%Z).
    { apply lt_IZR. lra. }
    unfold Zceil. replace (- (IZR x / 2)) with (IZR (- x) / 2)
      by (rewrite opp_IZR; lra).
    rewrite Zfloor_half.
    rewrite <- (Z.opp_involutive x) at 2. rewrite Z.quot_opp_l by lia.
    rewrite Z.quot_div_nonneg by lia. reflexivity.
  - assert (Hx : (0 <= x)%Z).
    { apply le_IZR. lra. }
    rewrite Zfloor_half. now rewrite Z.quot_div_nonneg by lia.
Qed.

Lemma rem2_int (x : Z) (r : R) :
  r = IZR x -> Num.rem (Fin r) (Fin 2) = Fin (IZR (Z.rem x 2)).
Proof.
  intros ->. cbn. rewrite Reqb_false by lra. rewrite Rtrunc_half.
  apply (f_equal Fin).
  pose proof (Z.quot_rem' x 2) as H.
  rewrite H at 1. rewrite plus_IZR, mult_IZR. lra.
Qed.

Lemma rem2_bound (x : Z) : (-1 <= Z.rem x 2 <= 1)%Z.
Proof.
  pose proof (Z.rem_bound_abs x 2 ltac:(lia)). lia.
Qed.

Ltac push_IZR :=
  repeat first [ rewrite plus_IZR | rewrite minus_IZR | rewrite mult_IZR
               | rewrite opp_IZR ].

(** The closed formula on integers. *)
Lemma centroidOf_int (k : Z) (i : nat) :
  (1 <= k)%Z -> (1 <= Z.of_nat i <= k * k)%Z ->
  TernaryGeometry.centroidOf (Fin (IZR k)) (Num.mul (Fin (IZR k)) (Fin (IZR k)))
                             (Fin (IZR (Z.of_nat i)))
  = TernaryCentroid.mk (Fin (IZR (Z.of_nat i)))
      (Fin (IZR (Mesh.numer1 k (Z.of_nat i)) / IZR (6 * k)))
      (Fin (IZR (Mesh.numer2 k (Z.of_nat i)) / IZR (3 * k)))
      (Fin (IZR (Mesh.numer3 k (Z.of_nat i)) / IZR (6 * k))).
Proof.
  intros Hk Hi. set (z := Z.of_nat i) in *.
  assert (Hk' : 1 <= IZR k) by now apply IZR_le.
  unfold TernaryGeometry.centroidOf.
  assert (Hg : Math.floor (Math.sqrt (Num.sub (Num.mul (Fin (IZR k)) (Fin (IZR k)))
                                              (Fin (IZR z))))
               = Fin (IZR (Mesh.root k z))).
  { cbn [Num.mul Num.sub Num.neg Num.add].
    replace (IZR k * IZR k + - IZR z) with (IZR (k * k - z)) by (push_IZR; ring).
    rewrite sqrt_fin by (apply IZR_le; lia).
    cbn [Math.floor]. rewrite Zfloor_sqrt by lia. reflexivity. }
  rewrite Hg. cbn zeta. cbn [Num.mul Num.sub Num.neg Num.add].
  set (s := Mesh.root k z).
  assert (Hp1 : Num.rem (Fin (- (IZR k * IZR k) + IZR z + IZR s * (IZR s + 2) + 1)) (Fin 2)
                = Fin (IZR (Mesh.parity k z))).
  { apply rem2_int. unfold Mesh.parity. fold s. push_IZR. reflexivity. }
  assert (Hp2 : Num.rem (Fin (- (IZR k * IZR k) + IZR s * IZR s + IZR z + 2 * IZR s + 1)) (Fin 2)
                = Fin (IZR (Mesh.parity k z))).
  { apply rem2_int. unfold Mesh.parity. fold s. push_IZR. ring. }
  rewrite Hp1, Hp2. cbn [Num.mul Num.sub Num.neg Num.add].
  rewrite !div_fin by lra.
  unfold Mesh.numer1, Mesh.numer2, Mesh.numer3. fold s.
  f_equal; apply (f_equal Fin); push_IZR; field; lra.
Qed.

Lemma mesh_int (k : Z) :
  (1 <= k)%Z ->
  exists cs,
    TernaryGeometry.ternaryMeshCentroids (Fin (IZR k)) = Returns cs
    /\ List.length cs = Z.to_nat (k * k)
    /\ map ColorMapping.centroidPoint cs = map (Mesh.point k) (seq 1 (Z.to_nat (k * k))).
Proof.
  intros Hk. unfold TernaryGeometry.ternaryMeshCentroids.
  cbn [Num.mul TernaryGeometry.loopIds].
  replace (IZR k * IZR k) with (IZR (k * k)) by apply mult_IZR.
  rewrite ZfloorZ. eexists. split; [reflexivity |].
  split; [now rewrite !length_map, length_seq |].
  rewrite !map_map. apply map_ext_in. intros i Hin. apply in_seq in Hin.
  replace (Fin (IZR (k * k))) with (Num.mul (Fin (IZR k)) (Fin (IZR k)))
    by (cbn; now rewrite mult_IZR).
  rewrite centroidOf_int by lia. reflexivity.
Qed.

(** ** Nearest candidates *)

Lemma distance_self (p : TernaryPoint) :
  Spec.onSimplexPlane p -> TernaryGeometry.distanceTo p p = Fin 0.
Proof.
  intros (x & y & z & -> & _). cbn. apply (f_equal Fin). ring.
Qed.

Lemma distance_form (x y z x' y' z' : R) :
  x + y + z = 1 -> x' + y' + z' = 1 ->
  TernaryGeometry.distanceTo (Fin x, Fin y, Fin z) (Fin x', Fin y', Fin z')
  = Fin ((x - x' + (y - y') / 2) * (x - x' + (y - y') / 2)
         + 3 / 4 * ((y - y') * (y - y'))).
Proof.
  intros Hp Hq. cbn. apply (f_equal Fin).
  replace z with (1 - x - y) by lra. replace z' with (1 - x' - y') by lra. field.
Qed.

Lemma distance_nonneg (p q : TernaryPoint) :
  Spec.onSimplexPlane p -> Spec.onSimplexPlane q ->
  exists d : R, TernaryGeometry.distanceTo p q = Fin d /\ 0 <= d.
Proof.
  intros (x & y & z & -> & Hp) (x' & y' & z' & -> & Hq).
  rewrite distance_form by assumption. eexists. split; [reflexivity |].
  pose proof (Rle_0_sqr (x - x' + (y - y') / 2)) as H1.
  pose proof (Rle_0_sqr (y - y')) as H2.
  unfold Rsqr in H1, H2. lra.
Qed.

Lemma distance_other (p q : TernaryPoint) :
  Spec.onSimplexPlane p -> Spec.onSimplexPlane q -> p <> q ->
  exists d : R, TernaryGeometry.distanceTo p q = Fin d /\ 0 < d.
Proof.
  intros (x & y & z & -> & Hp) (x' & y' & z' & -> & Hq) Hne.
  rewrite distance_form by assumption. eexists. split; [reflexivity |].
  assert (Hd : x - x' <> 0 \/ y - y' <> 0).
  { destruct (Req_dec_T x x') as [Ex | Ex]; [| left; lra].
    destruct (Req_dec_T y y') as [Ey | Ey]; [| right; lra].
    exfalso. apply Hne. subst x' y'. replace z' with z by lra. reflexivity. }
  set (a := x - x') in *. set (b := y - y') in *.
  pose proof (Rle_0_sqr (a + b / 2)) as H1.
  pose proof (Rle_0_sqr b) as H2.
  unfold Rsqr in H1, H2.
  destruct (Req_dec_T b 0) as [Eb | Eb].
  - assert (Ha : a + b / 2 <> 0) by (destruct Hd; lra).
    pose proof (Rsqr_pos_lt _ Ha) as H3. unfold Rsqr in H3. lra.
  - pose proof (Rsqr_pos_lt _ Eb) as H3. unfold Rsqr in H3. lra.
Qed.

Lemma min_fold_zero (ds : list num) :
  Forall (fun d => exists x : R, d = Fin x /\ 0 <= x) ds ->
  forall acc,
    (acc = PInf \/ exists a : R, acc = Fin a /\ 0 <= a) ->
    (acc = Fin 0 \/ In (Fin 0) ds) ->
    fold_left Math.min2 ds acc = Fin 0.
Proof.
  induction 1 as [| d ds (x & -> & Hx) _ IH]; intros acc Hacc Hzero; cbn [fold_left].
  - destruct Hzero as [-> | []]. reflexivity.
  - apply IH.
    + destruct Hacc as [-> | (a & -> & Ha)]; cbn.
      * right. now exists x.
      * right. unfold Num.Rltb. destruct (Rlt_dec x a); eauto.
    + destruct Hzero as [-> | [E | Hin]].
      * left. cbn. now rewrite Rltb_false.
      * left. inversion E; subst x.
        destruct Hacc as [-> | (a & -> & Ha)]; cbn; [reflexivity |].
        unfold Num.Rltb. destruct (Rlt_dec 0 a); [reflexivity |].
        apply (f_equal Fin). lra.
      * now right.
Qed.

Lemma indexOf_first (l1 l2 : list num) (x : num) :
  Forall (fun d => Num.eq d x = false) l1 ->
  Num.eq x x = true ->
  forall k, TernaryGeometry.indexOfFrom k (l1 ++ x :: l2) x
            = (k + Z.of_nat (List.length l1))%Z.
Proof.
  intros Hl1 Hx. induction Hl1 as [| d l1 Hd _ IH]; intros k; cbn [app TernaryGeometry.indexOfFrom].
  - rewrite Hx. cbn. lia.
  - rewrite Hd, IH. cbn [List.length]. lia.
Qed.

Lemma nearestPoint_self (C1 C2 : list TernaryPoint) (p : TernaryPoint) :
  Forall Spec.onSimplexPlane (C1 ++ p :: C2) ->
  ~ In p C1 ->
  TernaryGeometry.nearestPoint (C1 ++ p :: C2) (Some p) = Some p.
Proof.
  intros Hall Hnot.
  assert (Hp : Spec.onSimplexPlane p).
  { rewrite Forall_forall in Hall. apply Hall, in_elt. }
  unfold TernaryGeometry.nearestPoint, TernaryGeometry.ternaryDistance.
  rewrite map_app. cbn [map]. rewrite (distance_self p Hp).
  assert (Hdist : forall q, In q (C1 ++ p :: C2) ->
                            exists x : R, TernaryGeometry.distanceTo p q = Fin x /\ 0 <= x).
  { intros q Hq. rewrite Forall_forall in Hall.
    apply distance_nonneg; [exact Hp | now apply Hall]. }
  assert (Hmin : Math.min (map (TernaryGeometry.distanceTo p) C1
                             ++ Fin 0 :: map (TernaryGeometry.distanceTo p) C2) = Fin 0).
  { unfold Math.min. apply min_fold_zero.
    - apply Forall_app. split; [| constructor; [exists 0; split; [reflexivity | lra] |]];
        apply Forall_forall; intros d Hd; apply in_map_iff in Hd;
        destruct Hd as (q & <- & Hq); apply Hdist;
        apply in_or_app; [left | right; right]; assumption.
    - now left.
    - right. apply in_elt. }
  rewrite Hmin. unfold TernaryGeometry.indexOf. rewrite indexOf_first.
  - rewrite length_map. unfold at_index.
    destruct (0 + Z.of_nat (List.length C1) <? 0)%Z eqn:E; [apply Z.ltb_lt in E; lia |].
    replace (Z.to_nat (0 + Z.of_nat (List.length C1))) with (List.length C1) by lia.
    rewrite nth_error_app2 by lia. now rewrite Nat.sub_diag.
  - apply Forall_forall. intros d Hd. apply in_map_iff in Hd.
    destruct Hd as (q & <- & Hq).
    assert (Hne : p <> q) by (intros ->; contradiction).
    rewrite Forall_forall in Hall.
    destruct (distance_other p q Hp (Hall q (in_or_app _ _ _ (or_introl Hq))) Hne)
      as (d & -> & Hpos).
    cbn. apply Reqb_false. lra.
  - cbn. now apply Reqb_true.
Qed.

Lemma ternaryNearest_self (C : list TernaryPoint) :
  Forall Spec.onSimplexPlane C -> NoDup C ->
  TernaryGeometry.ternaryNearest (map Some C) C = map Some C.
Proof.
  intros Hall Hnd. unfold TernaryGeometry.ternaryNearest. rewrite map_map.
  apply map_ext_in. intros p Hin.
  destruct (in_split p C Hin) as (C1 & C2 & ->).
  apply nearestPoint_self; [exact Hall |].
  apply NoDup_remove_2 in Hnd. intros H. apply Hnd. apply in_or_app. now left.
Qed.

Lemma min_fold_in (ds : list num) :
  Forall (fun d => exists x : R, d = Fin x) ds ->
  forall a : R,
  exists m : R,
    fold_left Math.min2 ds (Fin a) = Fin m
    /\ (Fin m = Fin a \/ In (Fin m) ds)
    /\ m <= a
    /\ (forall x : R, In (Fin x) ds -> m <= x).
Proof.
  induction 1 as [| d ds (x & ->) _ IH]; intros a; cbn [fold_left].
  - exists a. repeat split; [now left | lra | intros x []].
  - cbn [Math.min2 Num.lt]. unfold Num.Rltb. destruct (Rlt_dec x a) as [Hlt | Hge].
    + destruct (IH x) as (m & Hm & Hin & Hle & Hall). exists m.
      split; [exact Hm |]. split; [| split].
      * right. destruct Hin as [E | Hin]; [left; now symmetry | now right].
      * lra.
      * intros x' [E | Hx']; [injection E as <-; exact Hle | now apply Hall].
    + destruct (IH a) as (m & Hm & Hin & Hle & Hall). exists m.
      split; [exact Hm |]. split; [| split].
      * destruct Hin as [E | Hin]; [now left | right; now right].
      * exact Hle.
      * intros x' [E | Hx']; [injection E as <-; lra | now apply Hall].
Qed.

Lemma min_in (ds : list num) :
  ds <> [] ->
  Forall (fun d => exists x : R, d = Fin x) ds ->
  exists m : R,
    Math.min ds = Fin m /\ In (Fin m) ds
    /\ (forall x : R, In (Fin x) ds -> m <= x).
Proof.
  intros Hne Hall. destruct ds as [| d ds]; [contradiction |].
  inversion Hall as [| ? ? (x & ->) Hds]; subst.
  unfold Math.min. cbn [fold_left Math.min2 Num.lt].
  destruct (min_fold_in ds Hds x) as (m & Hm & Hin & Hle & Hmin).
  exists m. split; [exact Hm |]. split.
  - destruct Hin as [E | Hin]; [left; now symmetry | now right].
  - intros x' [E | Hx']; [injection E as <-; exact Hle | now apply Hmin].
Qed.

Lemma indexOf_in (ds : list num) (x : num) :
  In x ds -> Num.eq x x = true ->
  forall k, exists (n : nat) (d : num),
    TernaryGeometry.indexOfFrom k ds x = (k + Z.of_nat n)%Z
    /\ nth_error ds n = Some d
    /\ Num.eq d x = true.
Proof.
  intros Hin Hx. induction ds as [| d ds IH]; [contradiction |].
  intros k. cbn [TernaryGeometry.indexOfFrom].
  destruct (Num.eq d x) eqn:E.
  - exists 0%nat, d. cbn. repeat split; [lia | exact E].
  - destruct Hin as [-> | Hin]; [congruence |].
    destruct (IH Hin (k + 1)%Z) as (n & d' & Hn & Hd & He).
    exists (S n), d'. cbn [nth_error]. repeat split; [lia | exact Hd | exact He].
Qed.

Lemma eq_fin (d : num) (m : R) : Num.eq d (Fin m) = true -> d = Fin m.
Proof.
  destruct d as [r | | |]; cbn; try discriminate.
  intros H. apply Reqb_spec in H. now subst.
Qed.

(** Among finite candidates of sum 1, [nearestPoint] returns a candidate
    at the least ternary distance from a finite point of sum 1. *)
Lemma nearestPoint_min (C : list TernaryPoint) (p : TernaryPoint) :
  C <> [] -> Forall Spec.onSimplexPlane C -> Spec.onSimplexPlane p ->
  exists (q : TernaryPoint) (d : R),
    TernaryGeometry.nearestPoint C (Some p) = Some q
    /\ In q C
    /\ TernaryGeometry.distanceTo p q = Fin d
    /\ forall c, In c C ->
                 exists d' : R, TernaryGeometry.distanceTo p c = Fin d' /\ d <= d'.
Proof.
  intros Hne Hall Hp.
  unfold TernaryGeometry.nearestPoint, TernaryGeometry.ternaryDistance.
  set (ds := map (TernaryGeometry.distanceTo p) C).
  assert (Hfin : Forall (fun d => exists x : R, d = Fin x) ds).
  { apply Forall_forall. intros d Hd. apply in_map_iff in Hd.
    destruct Hd as (q & <- & Hq). rewrite Forall_forall in Hall.
    destruct (distance_nonneg p q Hp (Hall q Hq)) as (x & Hx & _). now exists x. }
  assert (Hds : ds <> []).
  { subst ds. destruct C; [contradiction | discriminate]. }
  destruct (min_in ds Hds Hfin) as (m & Hm & Hin & Hmin).
  rewrite Hm. unfold TernaryGeometry.indexOf.
  destruct (indexOf_in ds (Fin m) Hin ltac:(cbn; now apply Reqb_true) 0%Z)
    as (n & d & Hn & Hd & He).
  apply eq_fin in He. subst d.
  rewrite Hn. unfold at_index.
  destruct (0 + Z.of_nat n <? 0)%Z eqn:E; [apply Z.ltb_lt in E; lia |].
  replace (Z.to_nat (0 + Z.of_nat n)) with n by lia.
  subst ds. rewrite nth_error_map in Hd.
  destruct (nth_error C n) as [q |] eqn:Hq; [| discriminate].
  cbn in Hd. injection Hd as Hd.
  exists q, m. split; [reflexivity |].
  split; [eapply nth_error_In; exact Hq |]. split; [exact Hd |].
  intros c Hc. rewrite Forall_forall in Hall.
  destruct (distance_nonneg p c Hp (Hall c Hc)) as (x & Hx & _).
  exists x. split; [exact Hx |]. apply Hmin. rewrite <- Hx. now apply in_map.
Qed.

Lemma nearestPoint_in (C : list TernaryPoint) (p : TernaryPoint) :
  C <> [] -> Forall Spec.onSimplexPlane C -> Spec.onSimplexPlane p ->
  exists q, TernaryGeometry.nearestPoint C (Some p) = Some q /\ In q C.
Proof.
  intros Hne Hall Hp.
  destruct (nearestPoint_min C p Hne Hall Hp) as (q & d & Hq & Hin & _).
  now exists q.
Qed.

Lemma closePoint_onPlane (a b c : R) :
  a + b + c <> 0 ->
  exists q0,
    CompositionUtils.closePoint [JNum (Fin a); JNum (Fin b); JNum (Fin c)] = Some q0
    /\ Spec.onSimplexPlane q0.
Proof.
  intros Hs. rewrite closePoint_fin by exact Hs. eexists. split; [reflexivity |].
  do 3 eexists. split; [reflexivity |]. field. exact Hs.
Qed.

(** ** The centroids of the mesh *)

Lemma root_spec (k i : Z) :
  (1 <= k)%Z -> (1 <= i <= k * k)%Z ->
  (0 <= Mesh.root k i < k
   /\ Mesh.root k i * Mesh.root k i <= k * k - i
   /\ k * k - i < (Mesh.root k i + 1) * (Mesh.root k i + 1))%Z.
Proof.
  intros Hk Hi. unfold Mesh.root.
  pose proof (Z.sqrt_spec (k * k - i) ltac:(lia)) as [Hlo Hhi].
  pose proof (Z.sqrt_nonneg (k * k - i)) as Hs.
  set (s := Z.sqrt (k * k - i)) in *.
  repeat split; try lia. nia.
Qed.

Lemma parity_bound (k i : Z) : (-1 <= Mesh.parity k i <= 1)%Z.
Proof. apply rem2_bound. Qed.

Lemma parity_nonneg (k i : Z) :
  (1 <= k)%Z -> (1 <= i <= k * k)%Z -> (0 <= Mesh.parity k i <= 1)%Z.
Proof.
  intros Hk Hi. pose proof (root_spec k i Hk Hi) as (Hs & Hlo & Hhi).
  unfold Mesh.parity.
  pose proof (Z.rem_bound_pos
                (- (k * k) + i + Mesh.root k i * (Mesh.root k i + 2) + 1) 2
                ltac:(nia) ltac:(lia)).
  lia.
Qed.

Lemma numer_sum (k i : Z) :
  (Mesh.numer1 k i + 2 * Mesh.numer2 k i + Mesh.numer3 k i = 6 * k)%Z.
Proof. unfold Mesh.numer1, Mesh.numer2, Mesh.numer3. ring. Qed.

Lemma numer_inj (k i j : Z) :
  Mesh.numer1 k i = Mesh.numer1 k j ->
  Mesh.numer2 k i = Mesh.numer2 k j ->
  i = j.
Proof.
  unfold Mesh.numer1, Mesh.numer2. intros H1 H2.
  pose proof (parity_bound k i). pose proof (parity_bound k j).
  assert (Hs : Mesh.root k i = Mesh.root k j) by lia.
  assert (Hm : Mesh.parity k i = Mesh.parity k j) by lia.
  rewrite Hs, Hm in H1. lia.
Qed.

Lemma numer_pos (k i : Z) :
  (1 <= k)%Z -> (1 <= i <= k * k)%Z ->
  (0 < Mesh.numer1 k i /\ 0 < Mesh.numer2 k i /\ 0 < Mesh.numer3 k i)%Z.
Proof.
  intros Hk Hi. pose proof (root_spec k i Hk Hi) as (Hs & Hlo & Hhi).
  pose proof (parity_nonneg k i Hk Hi) as Hm.
  unfold Mesh.numer1, Mesh.numer2, Mesh.numer3.
  repeat split; nia.
Qed.

Lemma point_onPlane (k : Z) (i : nat) :
  (1 <= k)%Z -> Spec.onSimplexPlane (Mesh.point k i).
Proof.
  intros Hk. unfold Mesh.point. do 3 eexists. split; [reflexivity |].
  assert (Hk' : 1 <= IZR k) by now apply IZR_le.
  pose proof (numer_sum k (Z.of_nat i)) as Hsum.
  apply (f_equal IZR) in Hsum. revert Hsum. push_IZR. intros Hsum.
  field_simplify_eq; lra.
Qed.

Lemma point_inj (k : Z) (i j : nat) :
  (1 <= k)%Z -> Mesh.point k i = Mesh.point k j -> i = j.
Proof.
  intros Hk E. unfold Mesh.point in E.
  assert (Hk' : 1 <= IZR k) by now apply IZR_le.
  inversion E as [[E1 E2 E3]].
  assert (H1 : Mesh.numer1 k (Z.of_nat i) = Mesh.numer1 k (Z.of_nat j)).
  { apply eq_IZR. apply (Rmult_eq_reg_r (/ IZR (6 * k))); [exact E1 |].
    apply Rinv_neq_0_compat. rewrite mult_IZR. lra. }
  assert (H2 : Mesh.numer2 k (Z.of_nat i) = Mesh.numer2 k (Z.of_nat j)).
  { apply eq_IZR. apply (Rmult_eq_reg_r (/ IZR (3 * k))); [exact E2 |].
    apply Rinv_neq_0_compat. rewrite mult_IZR. lra. }
  pose proof (numer_inj _ _ _ H1 H2). lia.
Qed.

Lemma mesh_points_NoDup (k : Z) (n : nat) :
  (1 <= k)%Z -> NoDup (map (Mesh.point k) (seq 1 n)).
Proof.
  intros Hk. apply NoDup_map_NoDup_ForallPairs; [| apply seq_NoDup].
  intros i j _ _ E. now apply (point_inj k).
Qed.

Lemma mesh_points_onPlane (k : Z) (n : nat) :
  (1 <= k)%Z -> Forall Spec.onSimplexPlane (map (Mesh.point k) (seq 1 n)).
Proof.
  intros Hk. apply Forall_forall. intros p Hp. apply in_map_iff in Hp.
  destruct Hp as (i & <- & _). now apply point_onPlane.
Qed.

(** C3: for every positive integer [k], [ternaryMeshCentroids(k)] returns
    exactly [k * k] centroids, which are pairwise distinct, and
    [ternaryNearest] applied to the centroids with themselves as
    candidates returns every centroid unchanged: the ternary distance of a
    centroid to itself is 0 and its distance to any other centroid is
    positive. *)
Theorem C3_mesh_centroids (k : Z) :
  (1 <= k)%Z ->
  exists cs,
    TernaryGeometry.ternaryMeshCentroids (Fin (IZR k)) = Returns cs
    /\ List.length cs = Z.to_nat (k * k)
    /\ NoDup (map ColorMapping.centroidPoint cs)
    /\ TernaryGeometry.ternaryNearest
         (map Some (map ColorMapping.centroidPoint cs))
         (map ColorMapping.centroidPoint cs)
       = map Some (map ColorMapping.centroidPoint cs)
    /\ (forall p q,
           In p (map ColorMapping.centroidPoint cs) ->
           In q (map ColorMapping.centroidPoint cs) ->
           TernaryGeometry.distanceTo p p = Fin 0
           /\ exists d : R,
               TernaryGeometry.distanceTo p q = Fin d
               /\ 0 <= d /\ (p <> q -> 0 < d)).
Proof.
  intros Hk. destruct (mesh_int k Hk) as (cs & Hcs & Hlen & Hpts).
  exists cs. split; [exact Hcs |]. split; [exact Hlen |].
  rewrite Hpts.
  pose proof (mesh_points_onPlane k (Z.to_nat (k * k)) Hk) as Hplane.
  pose proof (mesh_points_NoDup k (Z.to_nat (k * k)) Hk) as Hnd.
  split; [exact Hnd |]. split; [now apply ternaryNearest_self |].
  intros p q Hp Hq. rewrite Forall_forall in Hplane.
  split; [apply distance_self; now apply Hplane |].
  destruct (distance_nonneg p q (Hplane p Hp) (Hplane q Hq)) as (d & Hd & Hd0).
  exists d. split; [exact Hd |]. split; [exact Hd0 |].
  intros Hne.
  destruct (distance_other p q (Hplane p Hp) (Hplane q Hq) Hne) as (d' & Hd' & Hpos).
  rewrite Hd in Hd'. injection Hd' as ->. exact Hpos.
Qed.

Lemma C3_mesh_centroids_witness :
  exists cs,
    TernaryGeometry.ternaryMeshCentroids (Fin (IZR 3)) = Returns cs
    /\ List.length cs = 9%nat.
Proof.
  destruct (C3_mesh_centroids 3 ltac:(lia)) as (cs & Hcs & Hlen & _).
  exists cs. split; [exact Hcs | exact Hlen].
Defined.

(** The four cells of the subdivision [k = 2]: numerators of the
    coordinates over [6 k], [3 k] and [6 k]. *)
Example mesh_two :
  map (fun i => (Mesh.numer1 2 i, Mesh.numer2 2 i, Mesh.numer3 2 i)) [1; 2; 3; 4]%Z
  = [(8, 1, 2); (4, 2, 4); (2, 1, 8); (2, 4, 2)]%Z.
Proof. reflexivity. Qed.

(** ** Discretisation *)



Lemma mesh_empty (k : R) :
  -1 < k < 1 -> TernaryGeometry.ternaryMeshCentroids (Fin k) = Returns [].
Proof.
  intros Hk. unfold TernaryGeometry.ternaryMeshCentroids.
  cbn [Num.mul TernaryGeometry.loopIds].
  rewrite (Zfloor_eq 0 (k * k)) by (cbn; nra). reflexivity.
Qed.

Lemma nearestPoint_empty (p : option TernaryPoint) :
  TernaryGeometry.nearestPoint [] p = None.
Proof. destruct p as [p |]; reflexivity. Qed.





(** ** Lightness without contrast *)

Lemma closePoint_proper (a b c : R) :
  0 <= a -> 0 <= b -> 0 <= c -> 0 < a + b + c ->
  exists p,
    CompositionUtils.closePoint [JNum (Fin a); JNum (Fin b); JNum (Fin c)] = Some p
    /\ Spec.properPoint p /\ Spec.onSimplexPlane p.
Proof.
  intros Ha Hb Hc Hs. rewrite closePoint_fin by lra. eexists. split; [reflexivity |].
  assert (Hinv : 0 < / (a + b + c)) by now apply Rinv_0_lt_compat.
  assert (Hsum : a / (a + b + c) + b / (a + b + c) + c / (a + b + c) = 1)
    by (field; lra).
  split.
  - do 3 eexists. split; [reflexivity |].
    repeat split; first [lra | unfold Rdiv; nra].
  - do 3 eexists. split; [reflexivity | exact Hsum].
Qed.

Lemma point_proper (k : Z) (i : nat) :
  (1 <= k)%Z -> (1 <= Z.of_nat i <= k * k)%Z -> Spec.properPoint (Mesh.point k i).
Proof.
  intros Hk Hi. destruct (numer_pos k (Z.of_nat i) Hk Hi) as (H1 & H2 & H3).
  unfold Mesh.point. do 3 eexists. split; [reflexivity |].
  assert (P1 : 0 < IZR (Mesh.numer1 k (Z.of_nat i))) by now apply IZR_lt.
  assert (P2 : 0 < IZR (Mesh.numer2 k (Z.of_nat i))) by now apply IZR_lt.
  assert (P3 : 0 < IZR (Mesh.numer3 k (Z.of_nat i))) by now apply IZR_lt.
  assert (K6 : 0 < IZR (6 * k)) by (apply IZR_lt; lia).
  assert (K3 : 0 < IZR (3 * k)) by (apply IZR_lt; lia).
  pose proof (Rdiv_lt_0_compat _ _ P1 K6).
  pose proof (Rdiv_lt_0_compat _ _ P2 K3).
  pose proof (Rdiv_lt_0_compat _ _ P3 K6).
  repeat split; lra.
Qed.

Lemma perturbePoint_proper (c0 c1 c2 : R) (p : TernaryPoint) :
  0 < c0 -> 0 < c1 -> 0 < c2 -> Spec.properPoint p ->
  exists p',
    CompositionUtils.perturbePoint
      (Num.div (Fin 1) (Fin c0), Num.div (Fin 1) (Fin c1), Num.div (Fin 1) (Fin c2))
      (Some p) = Some p'
    /\ Spec.properPoint p'.
Proof.
  intros H0 H1 H2 (x & y & z & -> & Hx & Hy & Hz & Hs).
  rewrite !div_fin by lra. cbn.
  assert (I0 : 0 < 1 / c0) by (apply Rdiv_lt_0_compat; lra).
  assert (I1 : 0 < 1 / c1) by (apply Rdiv_lt_0_compat; lra).
  assert (I2 : 0 < 1 / c2) by (apply Rdiv_lt_0_compat; lra).
  set (r0 := x * (1 / c0)). set (r1 := y * (1 / c1)). set (r2 := z * (1 / c2)).
  assert (R0 : 0 <= r0) by (subst r0; nra).
  assert (R1 : 0 <= r1) by (subst r1; nra).
  assert (R2 : 0 <= r2) by (subst r2; nra).
  assert (Rs : 0 < 0 + r0 + r1 + r2).
  { destruct (Rle_lt_or_eq_dec 0 x Hx) as [Px | <-].
    - assert (0 < r0) by (subst r0; nra). lra.
    - destruct (Rle_lt_or_eq_dec 0 y Hy) as [Py | <-].
      + assert (0 < r1) by (subst r1; nra). lra.
      + assert (0 < z) by lra. assert (0 < r2) by (subst r2; nra). lra. }
  rewrite !(Reqb_false (0 + r0 + r1 + r2) 0) by lra.
  eexists. split; [reflexivity |].
  do 3 eexists. split; [reflexivity |].
  assert (Hinv : 0 < / (0 + r0 + r1 + r2)) by now apply Rinv_0_lt_compat.
  assert (Hsum : r0 / (0 + r0 + r1 + r2) + r1 / (0 + r0 + r1 + r2)
                 + r2 / (0 + r0 + r1 + r2) = 1) by (field; lra).
  repeat split; first [lra | unfold Rdiv; nra].
Qed.

Lemma pow_nonneg (x s : R) :
  0 <= x -> 0 <= s ->
  exists y : R, Math.pow (Fin x) (Fin s) = Fin y /\ 0 <= y /\ (0 < x -> 0 < y).
Proof.
  intros Hx Hs. unfold Math.pow.
  destruct (Rle_lt_or_eq_dec 0 s Hs) as [Ps | <-].
  - rewrite (Reqb_false s 0) by lra.
    destruct (Rle_lt_or_eq_dec 0 x Hx) as [Px | <-].
    + rewrite (Reqb_false x 0) by lra. rewrite (Rltb_true 0 x) by lra.
      exists (Rpower x s). unfold Rpower. pose proof (exp_pos (s * ln x)).
      split; [reflexivity |]. split; [lra | intros _; lra].
    + rewrite (Reqb_true 0 0) by reflexivity. rewrite (Rltb_true 0 s) by lra.
      exists 0. split; [reflexivity |]. split; [lra | intros H; lra].
  - rewrite (Reqb_true 0 0) by reflexivity.
    exists 1. split; [reflexivity |]. split; [lra | intros _; lra].
Qed.

Lemma powerScalePoint_proper (s : R) (p : TernaryPoint) :
  0 <= s -> Spec.properPoint p ->
  exists p',
    CompositionUtils.powerScalePoint (Fin s) (Some p) = Some p'
    /\ Spec.properPoint p'.
Proof.
  intros Hs (x & y & z & -> & Hx & Hy & Hz & Hsum).
  destruct (pow_nonneg x s Hx Hs) as (r0 & E0 & R0 & P0).
  destruct (pow_nonneg y s Hy Hs) as (r1 & E1 & R1 & P1).
  destruct (pow_nonneg z s Hz Hs) as (r2 & E2 & R2 & P2).
  unfold CompositionUtils.powerScalePoint. rewrite E0, E1, E2.
  cbn [Num.add].
  assert (Rs : 0 < 0 + r0 + r1 + r2).
  { destruct (Rle_lt_or_eq_dec 0 x Hx) as [Px | <-]; [specialize (P0 Px); lra |].
    destruct (Rle_lt_or_eq_dec 0 y Hy) as [Py | <-]; [specialize (P1 Py); lra |].
    assert (Pz : 0 < z) by lra. specialize (P2 Pz). lra. }
  rewrite !div_fin by lra.
  eexists. split; [reflexivity |].
  do 3 eexists. split; [reflexivity |].
  assert (Hinv : 0 < / (0 + r0 + r1 + r2)) by now apply Rinv_0_lt_compat.
  assert (Hone : r0 / (0 + r0 + r1 + r2) + r1 / (0 + r0 + r1 + r2)
                 + r2 / (0 + r0 + r1 + r2) = 1) by (field; lra).
  repeat split; first [lra | unfold Rdiv; nra].
Qed.

Lemma mul_one (x : num) : Num.mul (Fin 1) x = x.
Proof.
  destruct x as [r | | |]; cbn.
  - apply (f_equal Fin). ring.
  - rewrite Reqb_false by lra. now rewrite Rltb_true by lra.
  - rewrite Reqb_false by lra. now rewrite Rltb_false by lra.
  - reflexivity.
Qed.

Lemma sum_squares_nonneg (u v : R) : 0 <= u * u + v * v.
Proof. pose proof (Rle_0_sqr u). pose proof (Rle_0_sqr v). unfold Rsqr in *. lra. Qed.

Lemma angle_fin (h : R) :
  Num.div (Num.mul (Fin h) Math.PI) (Fin 180) = Fin (h * PI / 180).
Proof. unfold Math.PI. cbn [Num.mul]. now rewrite div_fin by lra. Qed.

(** With no contrast the lightness of a finite point is the lightness
    parameter. *)
Lemma tricoloreOf_flat (P : list (list jsval)) (N : list (option TernaryPoint))
  (hue chroma : R) (lightness : num) (x y z : R) (i : nat) (n : TernaryPoint) :
  chroma <> 0 ->
  nth_error N i = Some (Some n) ->
  exists r,
    ColorMapping.tricoloreOf P N (Fin hue) (Fin chroma) lightness (Fin 0)
                             (Some (Fin x, Fin y, Fin z)) i = Returns r
    /\ TricoloreResult.l r = Some lightness.
Proof.
  intros Hch Hn. destruct n as [[n0 n1] n2].
  unfold ColorMapping.tricoloreOf. rewrite (nth_of_nth_error _ _ None _ Hn).
  eexists. split; [reflexivity |]. cbn [TricoloreResult.l].
  apply f_equal.
  cbn [Num.add]. rewrite !angle_fin.
  cbn [Num.mul Math.cos Math.sin fold_left fst snd Num.add].
  match goal with
  | |- context [Math.sqrt (Fin (?re * ?re + ?im * ?im))] =>
      rewrite (sqrt_fin (re * re + im * im) (sum_squares_nonneg re im));
      set (c := sqrt (re * re + im * im))
  end.
  cbn [Num.mul]. rewrite div_fin by exact Hch.
  cbn [Num.add Num.sub Num.neg].
  replace (c * 0 / chroma + 1 + - 0) with 1 by (field; exact Hch).
  apply mul_one.
Qed.

Lemma mul_nan_r (x : num) : Num.mul x NaN = NaN.
Proof. destruct x; reflexivity. Qed.

Lemma add_nan_r (x : num) : Num.add x NaN = NaN.
Proof. destruct x; reflexivity. Qed.

Lemma nearestPoint_nan (C : list TernaryPoint) (y z : num) :
  TernaryGeometry.nearestPoint C (Some (NaN, y, z)) = None.
Proof.
  unfold TernaryGeometry.nearestPoint, TernaryGeometry.ternaryDistance,
    TernaryGeometry.indexOf.
  set (m := Math.min _). clearbody m.
  assert (H : forall k, TernaryGeometry.indexOfFrom
                          k (map (TernaryGeometry.distanceTo (NaN, y, z)) C) m
                        = (-1)%Z).
  { induction C as [| [[c0 c1] c2] C IH]; intros k; cbn [map TernaryGeometry.indexOfFrom].
    - reflexivity.
    - assert (E : TernaryGeometry.distanceTo (NaN, y, z) (c0, c1, c2) = NaN).
      { unfold TernaryGeometry.distanceTo.
        replace (Num.sub NaN c0) with NaN by reflexivity.
        now rewrite mul_nan_r, add_nan_r. }
      rewrite E. cbn [Num.eq]. apply IH. }
  rewrite H. reflexivity.
Qed.

Lemma mesh_point_proper (k : Z) (q : TernaryPoint) :
  (1 <= k)%Z ->
  In q (map (Mesh.point k) (seq 1 (Z.to_nat (k * k)))) ->
  Spec.properPoint q.
Proof.
  intros Hk Hq. apply in_map_iff in Hq. destruct Hq as (i & <- & Hi).
  apply in_seq in Hi. apply point_proper; [exact Hk | lia].
Qed.

(** With a zero chroma the contrast factor is 0 / 0. *)
Lemma tricoloreOf_zero_chroma (P : list (list jsval)) (N : list (option TernaryPoint))
  (hue : R) (lightness : num) (x y z : R) (i : nat) (n : TernaryPoint) :
  nth_error N i = Some (Some n) ->
  exists r,
    ColorMapping.tricoloreOf P N (Fin hue) (Fin 0) lightness (Fin 0)
                             (Some (Fin x, Fin y, Fin z)) i = Returns r
    /\ TricoloreResult.l r = Some NaN.
Proof.
  intros Hn. destruct n as [[n0 n1] n2].
  unfold ColorMapping.tricoloreOf. rewrite (nth_of_nth_error _ _ None _ Hn).
  eexists. split; [reflexivity |]. cbn [TricoloreResult.l].
  apply f_equal.
  cbn [Num.add]. rewrite !angle_fin.
  cbn [Num.mul Math.cos Math.sin fold_left fst snd Num.add].
  match goal with
  | |- context [Math.sqrt (Fin (?re * ?re + ?im * ?im))] =>
      rewrite (sqrt_fin (re * re + im * im) (sum_squares_nonneg re im));
      set (c := sqrt (re * re + im * im))
  end.
  cbn [Num.mul Num.div].
  rewrite (Reqb_true 0 0) by reflexivity.
  rewrite (Reqb_true (c * 0) 0) by ring.
  reflexivity.
Qed.

Lemma powerScalePoint_simplex (s : R) (p : TernaryPoint) :
  0 <= s -> Spec.properPoint p ->
  exists x y z : R,
    CompositionUtils.powerScalePoint (Fin s) (Some p) = Some (Fin x, Fin y, Fin z)
    /\ 0 <= x /\ 0 <= y /\ 0 <= z /\ x + y + z = 1.
Proof.
  intros Hs (x & y & z & -> & Hx & Hy & Hz & Hsum).
  destruct (pow_nonneg x s Hx Hs) as (r0 & E0 & R0 & P0).
  destruct (pow_nonneg y s Hy Hs) as (r1 & E1 & R1 & P1).
  destruct (pow_nonneg z s Hz Hs) as (r2 & E2 & R2 & P2).
  unfold CompositionUtils.powerScalePoint. rewrite E0, E1, E2.
  cbn [Num.add].
  assert (Rs : 0 < 0 + r0 + r1 + r2).
  { destruct (Rle_lt_or_eq_dec 0 x Hx) as [Px | <-]; [specialize (P0 Px); lra |].
    destruct (Rle_lt_or_eq_dec 0 y Hy) as [Py | <-]; [specialize (P1 Py); lra |].
    assert (Pz : 0 < z) by lra. specialize (P2 Pz). lra. }
  rewrite !div_fin by lra.
  do 3 eexists. split; [reflexivity |].
  assert (Hinv : 0 < / (0 + r0 + r1 + r2)) by now apply Rinv_0_lt_compat.
  assert (Hone : r0 / (0 + r0 + r1 + r2) + r1 / (0 + r0 + r1 + r2)
                 + r2 / (0 + r0 + r1 + r2) = 1) by (field; lra).
  repeat split; first [lra | unfold Rdiv; nra].
Qed.

(** The point that [colorMapTricolore] hands to its colour callback for a
    proper element lies in the simplex. *)
Lemma scaled_simplex (P : list (list jsval)) (i : nat) (a b c : R)
  (c0 c1 c2 : R) (breaks hue chroma lightness contrast : num) (spread : R) :
  nth_error P i = Some [JNum (Fin a); JNum (Fin b); JNum (Fin c)] ->
  0 <= a -> 0 <= b -> 0 <= c -> 0 < a + b + c ->
  0 < c0 -> 0 < c1 -> 0 < c2 -> 0 <= spread ->
  (~ (exists x : R, breaks = Fin x /\ x < 100)
   \/ exists k : Z, (1 <= k < 100)%Z /\ breaks = Fin (IZR k)) ->
  exists rs r q0 x y z,
    ColorMapping.colorMapTricolore P (Fin c0, Fin c1, Fin c2) breaks
      hue chroma lightness contrast (Fin spread) = Returns rs
    /\ List.length rs = List.length P
    /\ nth_error rs i = Some r
    /\ nth_error (CompositionUtils.close P) i = Some (Some q0)
    /\ 0 <= x /\ 0 <= y /\ 0 <= z /\ x + y + z = 1
    /\ ColorMapping.tricoloreOf P (CompositionUtils.close P) hue chroma lightness
         contrast (Some (Fin x, Fin y, Fin z)) i = Returns r.
Proof.
  intros Hp Ha Hb Hc Hs H0 H1 H2 Hsp Hbr.
  destruct (colorMapTricolore_elements P (Fin c0) (Fin c1) (Fin c2) breaks
              hue chroma lightness contrast (Fin spread))
    as (f & rs & Hrs & Hlen & _ & Hshape & Hel).
  destruct (Hel i _ Hp) as (r & Hr & Hof).
  destruct (closePoint_proper a b c Ha Hb Hc Hs) as (q0 & Hq0 & Hproper & Hplane).
  assert (HN : nth_error (CompositionUtils.close P) i = Some (Some q0))
    by (rewrite nth_error_close, Hp; cbn [option_map]; now rewrite Hq0).
  assert (Hf : exists q, f (Some q0) = Some q /\ Spec.properPoint q).
  { destruct Hbr as [Hcont | (k & Hk & ->)].
    - destruct (Num.isFinite breaks && Num.lt breaks (Fin 100)) eqn:E.
      + exfalso. apply Hcont. now apply discrete_finite.
      + subst f. exists q0. split; [reflexivity | exact Hproper].
    - assert (E : Num.isFinite (Fin (IZR k)) && Num.lt (Fin (IZR k)) (Fin 100) = true).
      { cbn. apply Rltb_true. apply (IZR_lt k 100). lia. }
      rewrite E in Hshape. destruct Hshape as (cs & Hcs & ->).
      destruct (mesh_int k ltac:(lia)) as (cs' & Hcs' & _ & Hpts).
      rewrite Hcs in Hcs'. inversion Hcs'; subst cs'. rewrite Hpts.
      destruct (nearestPoint_in (map (Mesh.point k) (seq 1 (Z.to_nat (k * k)))) q0)
        as (q & Hq & Hin).
      + assert (Hpos : (0 < Z.to_nat (k * k))%nat) by nia.
        destruct (Z.to_nat (k * k)); [lia | discriminate].
      + apply mesh_points_onPlane. lia.
      + exact Hplane.
      + exists q. split; [exact Hq |]. apply (mesh_point_proper k); [lia | exact Hin]. }
  destruct Hf as (q & Hfq & Hq).
  rewrite Hq0, Hfq in Hof.
  destruct (perturbePoint_proper c0 c1 c2 q H0 H1 H2 Hq) as (q' & Hq' & Hproper').
  rewrite Hq' in Hof.
  destruct (powerScalePoint_simplex spread q' Hsp Hproper')
    as (x & y & z & Hq'' & Hx & Hy & Hz & Hsum).
  rewrite Hq'' in Hof.
  exists rs, r, q0, x, y, z. repeat (split; [assumption |]). exact Hof.
Qed.

Lemma mul_nan_l (x : num) : Num.mul NaN x = NaN.
Proof. reflexivity. Qed.

(** With no contrast the factor of the lightness is 1 or [NaN], whatever
    the point, the chroma and the lightness are. *)
Lemma flat_factor (cv chroma : num) :
  Num.sub (Num.add (Num.div (Num.mul cv (Fin 0)) chroma) (Fin 1)) (Fin 0) = Fin 1
  \/ Num.sub (Num.add (Num.div (Num.mul cv (Fin 0)) chroma) (Fin 1)) (Fin 0) = NaN.
Proof.
  destruct cv as [r | | |]; cbn [Num.mul];
    rewrite ?(Reqb_true 0 0) by reflexivity; try (now right).
  destruct chroma as [ch | | |]; cbn [Num.div]; try (now right).
  - destruct (Num.Reqb ch 0) eqn:E.
    + rewrite (Reqb_true (r * 0) 0) by ring. now right.
    + apply Bool.not_true_iff_false in E. rewrite Reqb_spec in E.
      left. cbn. apply (f_equal Fin). field. exact E.
  - left. cbn. apply (f_equal Fin). ring.
  - left. cbn. apply (f_equal Fin). ring.
Qed.

Lemma tricoloreOf_flat_cases (P : list (list jsval)) (N : list (option TernaryPoint))
  (hue chroma lightness : num) (s : option TernaryPoint) (i : nat)
  (r : TricoloreResult.t) :
  ColorMapping.tricoloreOf P N hue chroma lightness (Fin 0) s i = Returns r ->
  TricoloreResult.l r = None
  \/ TricoloreResult.l r = Some NaN
  \/ TricoloreResult.l r = Some lightness.
Proof.
  destruct s as [[[s0 s1] s2] |]; unfold ColorMapping.tricoloreOf.
  - destruct (nth i N None) as [[[n0 n1] n2] |]; [| discriminate].
    intros E. injection E as <-. cbn [TricoloreResult.l]. right.
    match goal with
    | |- context [Num.mul (Math.sqrt ?e) (Fin 0)] =>
        destruct (flat_factor (Math.sqrt e) chroma) as [-> | ->]
    end.
    + right. now rewrite mul_one.
    + left. now rewrite mul_nan_l.
  - intros E. injection E as <-. now left.
Qed.

(** C7, as the code has it.  With [contrast = 0] the lightness of a result
    is the lightness parameter, [NaN] or [null], never another number,
    whatever the data and the other parameters are.  It is the lightness
    parameter for every composition of three finite non-negative numbers
    that are not all zero and whose sum does not exceed 1e308, when the
    components of the centre lie between 1e-300 and 1e300, the hue is at
    most 1e300 in absolute value, the chroma is non-zero and at most 1e150
    in absolute value, the spread lies between 0 and 600, and [breaks] is
    either outside the discrete range or a positive integer below 100.
    The bounds are those within which the doubles of the source stay
    finite and the three powers of [powerScale] do not all vanish: beyond
    them the chroma of the source is [NaN] or [Infinity], and the
    lightness [NaN]. *)
Theorem C7_flat_lightness (P : list (list jsval))
  (c0 c1 c2 breaks hue chroma lightness spread : num) :
  exists rs,
    ColorMapping.colorMapTricolore P (c0, c1, c2) breaks
      hue chroma lightness (Fin 0) spread = Returns rs
    /\ List.length rs = List.length P
    /\ (forall r, In r rs ->
          TricoloreResult.l r = None
          \/ TricoloreResult.l r = Some NaN
          \/ TricoloreResult.l r = Some lightness)
    /\ (forall (i : nat) (a b c r0 r1 r2 h ch s : R),
          nth_error P i = Some [JNum (Fin a); JNum (Fin b); JNum (Fin c)] ->
          0 <= a -> 0 <= b -> 0 <= c -> 0 < a + b + c <= 1e308 ->
          c0 = Fin r0 -> c1 = Fin r1 -> c2 = Fin r2 ->
          1e-300 <= r0 <= 1e300 -> 1e-300 <= r1 <= 1e300 -> 1e-300 <= r2 <= 1e300 ->
          hue = Fin h -> Rabs h <= 1e300 ->
          chroma = Fin ch -> ch <> 0 -> Rabs ch <= 1e150 ->
          spread = Fin s -> 0 <= s <= 600 ->
          (~ (exists x : R, breaks = Fin x /\ x < 100)
           \/ exists k : Z, (1 <= k < 100)%Z /\ breaks = Fin (IZR k)) ->
          exists r,
            nth_error rs i = Some r
            /\ TricoloreResult.l r = Some lightness).
Proof.
  destruct (colorMapTricolore_elements P c0 c1 c2 breaks
              hue chroma lightness (Fin 0) spread)
    as (f & rs & Hrs & Hlen & _ & _ & Hel).
  exists rs. split; [exact Hrs |]. split; [exact Hlen |]. split.
  - intros r Hin. apply In_nth_error in Hin. destruct Hin as (i & Hi).
    assert (Hlt : (i < List.length P)%nat)
      by (rewrite <- Hlen; apply nth_error_Some; congruence).
    destruct (nth_error P i) as [p |] eqn:Hp;
      [| apply nth_error_None in Hp; lia].
    destruct (Hel i p Hp) as (r' & Hr' & Hof).
    rewrite Hi in Hr'. injection Hr' as <-.
    exact (tricoloreOf_flat_cases _ _ _ _ _ _ _ _ Hof).
  - intros i a b c r0 r1 r2 h ch s Hp Ha Hb Hc [Hs _] -> -> -> H0 H1 H2
           -> _ -> Hch _ -> [Hsp _] Hbr.
    destruct (scaled_simplex P i a b c r0 r1 r2 breaks (Fin h) (Fin ch)
                lightness (Fin 0) s Hp Ha Hb Hc Hs
                ltac:(lra) ltac:(lra) ltac:(lra) Hsp Hbr)
      as (rs' & r & q0 & x & y & z & Hrs' & _ & Hr & HN & _ & _ & _ & _ & Hof).
    pose proof (eq_trans (eq_sym Hrs) Hrs') as E. injection E as <-.
    exists r. split; [exact Hr |].
    destruct (tricoloreOf_flat P (CompositionUtils.close P) h ch lightness
                x y z i q0 Hch HN) as (r' & Hr' & Hl).
    pose proof (eq_trans (eq_sym Hof) Hr') as E. injection E as ->. exact Hl.
Qed.

Lemma C7_flat_lightness_witness :
  exists rs r,
    ColorMapping.colorMapTricolore [[JNum (Fin 2); JNum (Fin 1); JNum (Fin 1)]]
      (Fin (1/3), Fin (1/3), Fin (1/3)) (Fin (IZR 4))
      (Fin 80) (Fin 140) (Fin 80) (Fin 0) (Fin 1) = Returns rs
    /\ nth_error rs 0 = Some r
    /\ TricoloreResult.l r = Some (Fin 80).
Proof.
  destruct (C7_flat_lightness [[JNum (Fin 2); JNum (Fin 1); JNum (Fin 1)]]
              (Fin (1/3)) (Fin (1/3)) (Fin (1/3)) (Fin (IZR 4))
              (Fin 80) (Fin 140) (Fin 80) (Fin 1)) as (rs & Hrs & _ & _ & Hflat).
  destruct (Hflat 0%nat 2 1 1 (1/3) (1/3) (1/3) 80 140 1) as (r & Hr & Hl);
    try reflexivity; try lra.
  - rewrite Rabs_right; lra.
  - rewrite Rabs_right; lra.
  - right. exists 4%Z. split; [lia | reflexivity].
  - exists rs, r. split; [exact Hrs |]. split; [exact Hr | exact Hl].
Defined.

(** The composition (0, 0, 0) passes the validity rule of [close]; with the
    default parameters and [contrast = 0] its lightness is [null].  With a
    zero chroma the lightness of (1, 1, 1) on the continuous scale is
    [NaN]. *)
Lemma C7_counterexample :
  CompositionUtils.isValidTernary [JNum (Fin 0); JNum (Fin 0); JNum (Fin 0)] = true
  /\ (exists rs r,
         ColorMapping.colorMapTricolore [[JNum (Fin 0); JNum (Fin 0); JNum (Fin 0)]]
           ColorMapping.defaultCenter (Fin 4)
           (Fin 80) (Fin 140) (Fin 80) (Fin 0) (Fin 1) = Returns rs
         /\ nth_error rs 0 = Some r
         /\ TricoloreResult.l r = None
         /\ TricoloreResult.l r <> Some (Fin 80))
  /\ (exists rs r,
         ColorMapping.colorMapTricolore [[JNum (Fin 1); JNum (Fin 1); JNum (Fin 1)]]
           ColorMapping.defaultCenter PInf
           (Fin 80) (Fin 0) (Fin 80) (Fin 0) (Fin 1) = Returns rs
         /\ nth_error rs 0 = Some r
         /\ TricoloreResult.l r = Some NaN
         /\ TricoloreResult.l r <> Some (Fin 80)).
Proof.
  split; [reflexivity |]. split.
  - destruct (colorMapTricolore_cases
                [[JNum (Fin 0); JNum (Fin 0); JNum (Fin 0)]]
                (Num.div (Fin 1) (Fin 3)) (Num.div (Fin 1) (Fin 3)) (Num.div (Fin 1) (Fin 3))
                (Fin 4) (Fin 80) (Fin 140) (Fin 80) (Fin 0) (Fin 1) 0
                [JNum (Fin 0); JNum (Fin 0); JNum (Fin 0)] eq_refl)
      as (f & rs & r & Hrs & _ & Hshape & Hr & Hcases).
    assert (E : Num.isFinite (Fin 4) && Num.lt (Fin 4) (Fin 100) = true)
      by (cbn; apply Rltb_true; lra).
    rewrite E in Hshape. destruct Hshape as (cs & _ & ->).
    assert (Hclose : CompositionUtils.closePoint [JNum (Fin 0); JNum (Fin 0); JNum (Fin 0)]
                     = Some (NaN, NaN, NaN)).
    { unfold CompositionUtils.closePoint. cbn. settle. reflexivity. }
    rewrite Hclose, nearestPoint_nan in Hcases.
    destruct Hcases as [[_ ->] | (q & n0 & n1 & n2 & h & c & l & rgb & Hq & _)];
      [| discriminate].
    exists rs. eexists. split; [exact Hrs |]. split; [exact Hr |].
    cbn. split; [reflexivity | discriminate].
  - destruct (colorMapTricolore_elements
                [[JNum (Fin 1); JNum (Fin 1); JNum (Fin 1)]]
                (Num.div (Fin 1) (Fin 3)) (Num.div (Fin 1) (Fin 3)) (Num.div (Fin 1) (Fin 3))
                PInf (Fin 80) (Fin 0) (Fin 80) (Fin 0) (Fin 1))
      as (f & rs & Hrs & _ & _ & Hshape & Hel).
    cbn in Hshape. subst f.
    destruct (Hel 0%nat _ eq_refl) as (r & Hr & Hof).
    exists rs, r. split; [exact Hrs |]. split; [exact Hr |].
    destruct (closePoint_proper 1 1 1 ltac:(lra) ltac:(lra) ltac:(lra) ltac:(lra))
      as (q0 & Hq0 & Hproper & _).
    rewrite Hq0 in Hof. rewrite !div_fin in Hof by lra.
    destruct (perturbePoint_proper (1/3) (1/3) (1/3) q0 ltac:(lra) ltac:(lra) ltac:(lra)
                Hproper) as (q' & Hq' & Hproper').
    rewrite !div_fin in Hq' by lra. rewrite Hq' in Hof.
    destruct (powerScalePoint_proper 1 q' ltac:(lra) Hproper')
      as (q'' & Hq'' & (x & y & z & -> & _)).
    rewrite Hq'' in Hof.
    assert (HN : nth_error (CompositionUtils.close [[JNum (Fin 1); JNum (Fin 1); JNum (Fin 1)]]) 0
                 = Some (Some q0))
      by (unfold CompositionUtils.close; cbn [map nth_error]; now rewrite Hq0).
    destruct (tricoloreOf_zero_chroma [[JNum (Fin 1); JNum (Fin 1); JNum (Fin 1)]]
                (CompositionUtils.close [[JNum (Fin 1); JNum (Fin 1); JNum (Fin 1)]])
                80 (Fin 80) x y z 0 q0 HN) as (r' & Hr' & Hl).
    pose proof (eq_trans (eq_sym Hof) Hr') as E. injection E as ->.
    rewrite Hl. split; [reflexivity | discriminate].
Qed.

(** * Further properties of the code *)

(** ** Projections *)

(** [cartesianToTernary] returns, for any finite [x] and [y], a point whose
    components sum to 1 and whose projection is [(x, y)] again. *)
Theorem cartesianToTernary_section (x y : R) :
  exists a b c : R,
    TernaryGeometry.cartesianToTernary (Fin x) (Fin y) = (Fin a, Fin b, Fin c)
    /\ a + b + c = 1
    /\ TernaryGeometry.ternaryToCartesian (Fin a, Fin b, Fin c) = (Fin x, Fin y).
Proof.
  pose proof sqrt3_pos as H3.
  unfold TernaryGeometry.cartesianToTernary, TernaryGeometry.ternaryToCartesian.
  rewrite sqrt_fin by lra. cbn [Num.mul].
  rewrite (div_fin (2 * y) (sqrt 3)) by lra.
  rewrite !div_fin by lra. cbn [Num.sub Num.neg Num.add Num.mul].
  do 3 eexists. split; [reflexivity |]. split; [ring |].
  f_equal; apply (f_equal Fin); field; lra.
Qed.

(** For a size between 1e-100 and 1e100, [svgToTernaryCoords] undoes
    [ternaryToSvgCoords] on every point of the simplex, and
    [ternaryToSvgCoords] undoes [svgToTernaryCoords] on every pixel of the
    square of that size: exactly over the reals, and in doubles up to the
    rounding of numbers of the magnitude of the size, since within these
    bounds no product or quotient of the two functions overflows. *)
Theorem svg_round_trip (size : R) :
  1e-100 <= size <= 1e100 ->
  (forall a b c : R,
      0 <= a -> 0 <= b -> 0 <= c -> a + b + c = 1 ->
      TricoloreViz.svgToTernaryCoords
        (TricoloreViz.ternaryToSvgCoords (Fin a, Fin b, Fin c) (Fin size)) (Fin size)
      = (Fin a, Fin b, Fin c))
  /\ (forall x y : R,
         0 <= x <= size -> 0 <= y <= size ->
         TricoloreViz.ternaryToSvgCoords
           (TricoloreViz.svgToTernaryCoords (Fin x, Fin y) (Fin size)) (Fin size)
         = (Fin x, Fin y)).
Proof.
  intros Hsize. assert (Hs : size <> 0) by lra.
  pose proof sqrt3_pos as H3. split.
  - intros a b c _ _ _ Hsum.
    assert (Ea : a = 1 - b - c) by lra. subst a. clear Hsum.
    unfold TricoloreViz.svgToTernaryCoords, TricoloreViz.ternaryToSvgCoords,
      TernaryGeometry.ternaryToCartesian.
    rewrite sqrt_fin by lra. rewrite (div_fin (sqrt 3) 2) by lra.
    cbn [Num.mul Num.add Num.sub Num.neg fst snd].
    rewrite !(div_fin _ size) by exact Hs.
    cbn [Num.add Num.neg].
    unfold TernaryGeometry.cartesianToTernary.
    rewrite sqrt_fin by lra. cbn [Num.mul].
    rewrite (div_fin _ (sqrt 3)) by lra. rewrite !div_fin by lra.
    cbn [Num.sub Num.neg Num.add].
    f_equal; [f_equal |]; apply (f_equal Fin); field; lra.
  - intros x y _ _.
    unfold TricoloreViz.svgToTernaryCoords, TricoloreViz.ternaryToSvgCoords.
    cbn [fst snd]. rewrite !(div_fin _ size) by exact Hs.
    cbn [Num.sub Num.neg Num.add].
    unfold TernaryGeometry.cartesianToTernary, TernaryGeometry.ternaryToCartesian.
    rewrite sqrt_fin by lra. cbn [Num.mul].
    rewrite (div_fin _ (sqrt 3)) by lra. rewrite !div_fin by lra.
    cbn [Num.sub Num.neg Num.add Num.mul].
    f_equal; apply (f_equal Fin); field; lra.
Qed.

Lemma svg_round_trip_witness :
  TricoloreViz.svgToTernaryCoords
    (TricoloreViz.ternaryToSvgCoords (Fin (1/2), Fin (1/4), Fin (1/4)) (Fin 400))
    (Fin 400)
  = (Fin (1/2), Fin (1/4), Fin (1/4)).
Proof.
  apply (proj1 (svg_round_trip 400 ltac:(lra)) (1/2) (1/4) (1/4)); lra.
Defined.

(** ** Closure, perturbation and power scaling *)

(** Closing a closed composition changes nothing: for non-negative
    components that are each zero or between 1e-100 and 1e100, and not all
    zero, [close] applied to its own result returns that result (exactly
    over the reals; in doubles up to rounding, since within these bounds
    neither the sum nor a quotient leaves the range of doubles). *)
Theorem close_idempotent (a b c : R) :
  Spec.zeroOrWithin 1e-100 1e100 a ->
  Spec.zeroOrWithin 1e-100 1e100 b ->
  Spec.zeroOrWithin 1e-100 1e100 c ->
  0 < a + b + c ->
  exists x y z : R,
    CompositionUtils.close [[JNum (Fin a); JNum (Fin b); JNum (Fin c)]]
    = [Some (Fin x, Fin y, Fin z)]
    /\ CompositionUtils.close [[JNum (Fin x); JNum (Fin y); JNum (Fin z)]]
       = [Some (Fin x, Fin y, Fin z)]
    /\ x + y + z = 1.
Proof.
  intros _ _ _ Hpos. assert (Hs : a + b + c <> 0) by lra.
  do 3 eexists. unfold CompositionUtils.close. cbn [map].
  rewrite closePoint_fin by exact Hs. split; [reflexivity |].
  split; [| field; exact Hs].
  rewrite closePoint_closed; [reflexivity |]. field. exact Hs.
Qed.

Lemma close_idempotent_witness :
  exists x y z : R,
    CompositionUtils.close [[JNum (Fin 2); JNum (Fin 1); JNum (Fin 1)]]
    = [Some (Fin x, Fin y, Fin z)]
    /\ CompositionUtils.close [[JNum (Fin x); JNum (Fin y); JNum (Fin z)]]
       = [Some (Fin x, Fin y, Fin z)]
    /\ x + y + z = 1.
Proof.
  apply (close_idempotent 2 1 1); try (right; unfold Spec.within; lra). lra.
Defined.

Lemma perturbePoint_fin (c0 c1 c2 x y z : R) :
  x * c0 + y * c1 + z * c2 <> 0 ->
  CompositionUtils.perturbePoint (Fin c0, Fin c1, Fin c2) (Some (Fin x, Fin y, Fin z))
  = Some (Fin (x * c0 / (0 + x * c0 + y * c1 + z * c2)),
          Fin (y * c1 / (0 + x * c0 + y * c1 + z * c2)),
          Fin (z * c2 / (0 + x * c0 + y * c1 + z * c2))).
Proof.
  intros H. cbn. now rewrite !(Reqb_false (0 + x * c0 + y * c1 + z * c2) 0) by lra.
Qed.

Lemma point_eq (a b c a' b' c' : R) :
  a = a' -> b = b' -> c = c' ->
  Some (Fin a, Fin b, Fin c) = Some (Fin a', Fin b', Fin c').
Proof. intros -> -> ->. reflexivity. Qed.

(** Perturbation by the reciprocal vector undoes perturbation, up to
    closure: for a composition [p] of non-negative numbers, each zero or
    between 1e-50 and 1e50 and not all zero, and a vector [c] of numbers
    between 1e-50 and 1e50, perturbing [p] by [c] and the result by [1 / c]
    gives the closure of [p] (exactly over the reals; in doubles up to
    rounding, since within these bounds no product, sum or quotient leaves
    the range of doubles). *)
Theorem perturbe_inverse (x y z c0 c1 c2 : R) :
  Spec.zeroOrWithin 1e-50 1e50 x ->
  Spec.zeroOrWithin 1e-50 1e50 y ->
  Spec.zeroOrWithin 1e-50 1e50 z ->
  0 < x + y + z ->
  Spec.within 1e-50 1e50 c0 -> Spec.within 1e-50 1e50 c1 -> Spec.within 1e-50 1e50 c2 ->
  CompositionUtils.perturbe
    (CompositionUtils.perturbe [Some (Fin x, Fin y, Fin z)] (Fin c0, Fin c1, Fin c2))
    (Num.div (Fin 1) (Fin c0), Num.div (Fin 1) (Fin c1), Num.div (Fin 1) (Fin c2))
  = [Some (Fin (x / (x + y + z)), Fin (y / (x + y + z)), Fin (z / (x + y + z)))].
Proof.
  unfold Spec.zeroOrWithin, Spec.within.
  intros Bx By Bz Hs B0 B1 B2.
  assert (Hx : 0 <= x) by (destruct Bx; lra).
  assert (Hy : 0 <= y) by (destruct By; lra).
  assert (Hz : 0 <= z) by (destruct Bz; lra).
  assert (H0 : 0 < c0) by lra. assert (H1 : 0 < c1) by lra.
  assert (H2 : 0 < c2) by lra. clear Bx By Bz B0 B1 B2.
  unfold CompositionUtils.perturbe. cbn [map].
  assert (P0 : 0 <= x * c0) by nra.
  assert (P1 : 0 <= y * c1) by nra.
  assert (P2 : 0 <= z * c2) by nra.
  assert (HS : 0 < x * c0 + y * c1 + z * c2).
  { destruct (Rle_lt_or_eq_dec 0 x Hx) as [Px | <-]; [assert (0 < x * c0) by nra; lra |].
    destruct (Rle_lt_or_eq_dec 0 y Hy) as [Py | <-]; [assert (0 < y * c1) by nra; lra |].
    assert (0 < z) by lra. assert (0 < z * c2) by nra. lra. }
  rewrite perturbePoint_fin by lra. rewrite !div_fin by lra.
  set (S := 0 + x * c0 + y * c1 + z * c2).
  assert (HS' : S <> 0) by (subst S; lra).
  assert (E : x * c0 / S * (1 / c0) + y * c1 / S * (1 / c1) + z * c2 / S * (1 / c2)
              = (x + y + z) / S) by (field; lra).
  assert (Hq : 0 < (x + y + z) / S) by (apply Rdiv_lt_0_compat; subst S; lra).
  rewrite perturbePoint_fin by lra. f_equal.
  apply point_eq; field; lra.
Qed.

Lemma perturbe_inverse_witness :
  CompositionUtils.perturbe
    (CompositionUtils.perturbe [Some (Fin 2, Fin 1, Fin 1)] (Fin (1/2), Fin (1/4), Fin (1/4)))
    (Num.div (Fin 1) (Fin (1/2)), Num.div (Fin 1) (Fin (1/4)), Num.div (Fin 1) (Fin (1/4)))
  = [Some (Fin (2 / (2 + 1 + 1)), Fin (1 / (2 + 1 + 1)), Fin (1 / (2 + 1 + 1)))].
Proof.
  apply (perturbe_inverse 2 1 1 (1/2) (1/4) (1/4));
    try (right; unfold Spec.within; lra); try (unfold Spec.within; lra).
Defined.

(** The default vector (1/3, 1/3, 1/3) of [perturbe] is neutral up to
    closure on compositions of non-negative numbers, each zero or between
    1e-100 and 1e100 and not all zero, and a vector of numbers between
    1e-150 and 1e150 in absolute value perturbed by its reciprocal is the
    barycentre (1/3, 1/3, 1/3) (exactly over the reals; in doubles up to
    rounding, since within these bounds no product, reciprocal, sum or
    quotient leaves the range of doubles). *)
Theorem perturbe_neutral :
  (forall x y z : R,
      Spec.zeroOrWithin 1e-100 1e100 x ->
      Spec.zeroOrWithin 1e-100 1e100 y ->
      Spec.zeroOrWithin 1e-100 1e100 z ->
      0 < x + y + z ->
      CompositionUtils.perturbe [Some (Fin x, Fin y, Fin z)]
        (Num.div (Fin 1) (Fin 3), Num.div (Fin 1) (Fin 3), Num.div (Fin 1) (Fin 3))
      = [Some (Fin (x / (x + y + z)), Fin (y / (x + y + z)), Fin (z / (x + y + z)))])
  /\ (forall c0 c1 c2 : R,
         Spec.within 1e-150 1e150 (Rabs c0) ->
         Spec.within 1e-150 1e150 (Rabs c1) ->
         Spec.within 1e-150 1e150 (Rabs c2) ->
         CompositionUtils.perturbe [Some (Fin c0, Fin c1, Fin c2)]
           (Num.div (Fin 1) (Fin c0), Num.div (Fin 1) (Fin c1), Num.div (Fin 1) (Fin c2))
         = [Some (Fin (1/3), Fin (1/3), Fin (1/3))]).
Proof.
  split.
  - intros x y z _ _ _ Hs. unfold CompositionUtils.perturbe. cbn [map].
    rewrite !div_fin by lra. rewrite perturbePoint_fin by lra.
    f_equal. apply point_eq; field; lra.
  - unfold Spec.within. intros c0 c1 c2 B0 B1 B2.
    assert (N : forall c : R, 1e-150 <= Rabs c <= 1e150 -> c <> 0).
    { intros c [Hlo _] ->. rewrite Rabs_R0 in Hlo. lra. }
    pose proof (N c0 B0) as H0. pose proof (N c1 B1) as H1. pose proof (N c2 B2) as H2.
    unfold CompositionUtils.perturbe. cbn [map].
    rewrite !div_fin by assumption.
    assert (E : c0 * (1 / c0) + c1 * (1 / c1) + c2 * (1 / c2) = 3) by (field; auto).
    rewrite perturbePoint_fin by lra.
    f_equal. apply point_eq; field; auto.
Qed.

Lemma perturbe_neutral_witness :
  CompositionUtils.perturbe [Some (Fin 2, Fin 1, Fin 1)]
    (Num.div (Fin 1) (Fin 3), Num.div (Fin 1) (Fin 3), Num.div (Fin 1) (Fin 3))
  = [Some (Fin (2 / (2 + 1 + 1)), Fin (1 / (2 + 1 + 1)), Fin (1 / (2 + 1 + 1)))]
  /\ CompositionUtils.perturbe [Some (Fin 2, Fin 1, Fin 1)]
       (Num.div (Fin 1) (Fin 2), Num.div (Fin 1) (Fin 1), Num.div (Fin 1) (Fin 1))
     = [Some (Fin (1/3), Fin (1/3), Fin (1/3))].
Proof.
  split.
  - apply (proj1 perturbe_neutral 2 1 1);
      try (right; unfold Spec.within; lra); lra.
  - apply (proj2 perturbe_neutral 2 1 1);
      unfold Spec.within; rewrite Rabs_right; lra.
Defined.

Lemma pow_pos (x s : R) : 0 < x -> Math.pow (Fin x) (Fin s) = Fin (Rpower x s).
Proof.
  intros Hx. unfold Math.pow. destruct (Req_dec_T s 0) as [-> | Hs].
  - rewrite Reqb_true by reflexivity. now rewrite Rpower_O.
  - rewrite (Reqb_false s 0) by exact Hs. rewrite (Reqb_false x 0) by lra.
    now rewrite (Rltb_true 0 x).
Qed.

Lemma powerScalePoint_pos (x y z s : R) :
  0 < x -> 0 < y -> 0 < z ->
  CompositionUtils.powerScalePoint (Fin s) (Some (Fin x, Fin y, Fin z))
  = Some (Fin (Rpower x s / (0 + Rpower x s + Rpower y s + Rpower z s)),
          Fin (Rpower y s / (0 + Rpower x s + Rpower y s + Rpower z s)),
          Fin (Rpower z s / (0 + Rpower x s + Rpower y s + Rpower z s))).
Proof.
  intros Hx Hy Hz. unfold CompositionUtils.powerScalePoint.
  rewrite !pow_pos by assumption. cbn [Num.add].
  pose proof (exp_pos (s * ln x)). pose proof (exp_pos (s * ln y)).
  pose proof (exp_pos (s * ln z)).
  rewrite !div_fin by (unfold Rpower; lra). reflexivity.
Qed.

Lemma Rpower_div (a b t : R) :
  0 < a -> 0 < b -> Rpower (a / b) t = Rpower a t / Rpower b t.
Proof.
  intros Ha Hb. unfold Rdiv.
  rewrite <- Rpower_mult_distr by (try assumption; now apply Rinv_0_lt_compat).
  f_equal. unfold Rpower. rewrite ln_Rinv by assumption.
  replace (t * - ln b) with (- (t * ln b)) by ring. apply exp_Ropp.
Qed.

(** Power scalings compose by multiplying the exponents: on a composition
    of numbers between 1e-10 and 1e10, scaling by [s] and then by [t], both
    between -3 and 3, is scaling by [s * t] (exactly over the reals; in
    doubles up to rounding, since within these bounds no power, sum or
    quotient leaves the range of doubles). *)
Theorem powerScale_compose (x y z s t : R) :
  Spec.within 1e-10 1e10 x -> Spec.within 1e-10 1e10 y -> Spec.within 1e-10 1e10 z ->
  -3 <= s <= 3 -> -3 <= t <= 3 ->
  CompositionUtils.powerScale
    (CompositionUtils.powerScale [Some (Fin x, Fin y, Fin z)] (Fin s)) (Fin t)
  = CompositionUtils.powerScale [Some (Fin x, Fin y, Fin z)] (Fin (s * t)).
Proof.
  unfold Spec.within. intros Bx By Bz _ _.
  assert (Hx : 0 < x) by lra. assert (Hy : 0 < y) by lra. assert (Hz : 0 < z) by lra.
  clear Bx By Bz.
  unfold CompositionUtils.powerScale. cbn [map].
  rewrite (powerScalePoint_pos x y z s) by assumption.
  rewrite (powerScalePoint_pos x y z (s * t)) by assumption.
  assert (Px : 0 < Rpower x s) by apply exp_pos.
  assert (Py : 0 < Rpower y s) by apply exp_pos.
  assert (Pz : 0 < Rpower z s) by apply exp_pos.
  set (S := 0 + Rpower x s + Rpower y s + Rpower z s).
  assert (PS : 0 < S) by (subst S; lra).
  rewrite powerScalePoint_pos by (apply Rdiv_lt_0_compat; assumption).
  rewrite !Rpower_div by assumption. rewrite !Rpower_mult.
  assert (PSt : 0 < Rpower S t) by apply exp_pos.
  assert (Qx : 0 < Rpower x (s * t)) by apply exp_pos.
  assert (Qy : 0 < Rpower y (s * t)) by apply exp_pos.
  assert (Qz : 0 < Rpower z (s * t)) by apply exp_pos.
  f_equal. apply point_eq; field; lra.
Qed.

Lemma powerScale_compose_witness :
  CompositionUtils.powerScale
    (CompositionUtils.powerScale [Some (Fin (1/2), Fin (1/4), Fin (1/4))] (Fin 2)) (Fin 3)
  = CompositionUtils.powerScale [Some (Fin (1/2), Fin (1/4), Fin (1/4))] (Fin (2 * 3)).
Proof.
  apply (powerScale_compose (1/2) (1/4) (1/4) 2 3); unfold Spec.within; lra.
Defined.

(** The default exponent 1 of [powerScale] is neutral up to closure on
    compositions of positive numbers, and the exponent 0 sends every point,
    whatever its components, to the barycentre (1/3, 1/3, 1/3). *)
Theorem powerScale_neutral :
  (forall x y z : R,
      0 < x -> 0 < y -> 0 < z ->
      CompositionUtils.powerScale [Some (Fin x, Fin y, Fin z)] (Fin 1)
      = [Some (Fin (x / (x + y + z)), Fin (y / (x + y + z)), Fin (z / (x + y + z)))])
  /\ (forall p : TernaryPoint,
         CompositionUtils.powerScale [Some p] (Fin 0)
         = [Some (Fin (1/3), Fin (1/3), Fin (1/3))]).
Proof.
  split.
  - intros x y z Hx Hy Hz. unfold CompositionUtils.powerScale. cbn [map].
    rewrite powerScalePoint_pos by assumption. rewrite !Rpower_1 by assumption.
    f_equal. apply point_eq; field; lra.
  - intros [[p0 p1] p2]. unfold CompositionUtils.powerScale. cbn [map].
    unfold CompositionUtils.powerScalePoint, Math.pow.
    rewrite (Reqb_true 0 0) by reflexivity. cbn [Num.add].
    rewrite div_fin by lra. f_equal. apply point_eq; lra.
Qed.

Lemma powerScale_neutral_witness :
  CompositionUtils.powerScale [Some (Fin 2, Fin 1, Fin 1)] (Fin 1)
  = [Some (Fin (2 / (2 + 1 + 1)), Fin (1 / (2 + 1 + 1)), Fin (1 / (2 + 1 + 1)))].
Proof. apply (proj1 powerScale_neutral 2 1 1); lra. Defined.

(** ** Geometric mean and centre *)

Lemma fold_log (xs : list R) :
  Forall (fun x => 0 < x) xs ->
  forall acc : R,
    fold_left (fun sum val => Num.add sum (Math.log val)) (map Fin xs) (Fin acc)
    = Fin (acc + Spec.logSum xs).
Proof.
  induction 1 as [| x xs Hx _ IH]; intros acc; cbn [map fold_left].
  - apply (f_equal Fin). unfold Spec.logSum. cbn [fold_right]. ring.
  - change (Spec.logSum (x :: xs)) with (ln x + Spec.logSum xs).
    unfold Math.log at 2. rewrite (Rltb_false x 0) by lra.
    rewrite (Reqb_false x 0) by lra. cbn [Num.add]. rewrite IH.
    apply (f_equal Fin). ring.
Qed.

Lemma filter_nonzero (xs : list R) :
  Forall (fun x => 0 < x) xs ->
  filter (fun v => negb (Num.eq v (Fin 0))) (map Fin xs) = map Fin xs.
Proof.
  induction 1 as [| x xs Hx _ IH]; cbn [map filter]; [reflexivity |].
  cbn [Num.eq]. rewrite (Reqb_false x 0) by lra. cbn [negb]. now rewrite IH.
Qed.

Lemma length_pos_IZR {A : Type} (xs : list A) :
  xs <> [] -> 0 < IZR (Z.of_nat (List.length xs)).
Proof.
  intros H. apply (IZR_lt 0). destruct xs; [contradiction | cbn [List.length]; lia].
Qed.

Lemma geometricMean_pos (xs : list R) (removeZeros : bool) :
  xs <> [] -> Forall (fun x => 0 < x) xs ->
  CompositionUtils.geometricMean (map Fin xs) removeZeros
  = Fin (exp (Spec.logSum xs / IZR (Z.of_nat (List.length xs)))).
Proof.
  intros Hne Hpos. unfold CompositionUtils.geometricMean.
  assert (Hv : (if removeZeros
                then filter (fun v => negb (Num.eq v (Fin 0))) (map Fin xs)
                else map Fin xs) = map Fin xs)
    by (destruct removeZeros; [now apply filter_nonzero | reflexivity]).
  rewrite Hv. unfold lengthOf. rewrite length_map.
  pose proof (length_pos_IZR xs Hne) as Hn.
  cbn [Num.eq]. rewrite Reqb_false by lra.
  rewrite fold_log by exact Hpos. rewrite div_fin by lra. cbn [Math.exp].
  apply (f_equal Fin). f_equal. f_equal. ring.
Qed.

Lemma exp_logSum (xs : list R) :
  Forall (fun x => 0 < x) xs -> exp (Spec.logSum xs) = Spec.product xs.
Proof.
  induction 1 as [| x xs Hx _ IH].
  - apply exp_0.
  - change (Spec.logSum (x :: xs)) with (ln x + Spec.logSum xs).
    change (Spec.product (x :: xs)) with (x * Spec.product xs).
    rewrite exp_plus, exp_ln by exact Hx. now rewrite IH.
Qed.

Lemma exp_pow_nat (a : R) (n : nat) : exp a ^ n = exp (INR n * a).
Proof.
  induction n as [| n IH].
  - cbn. rewrite Rmult_0_l. symmetry. apply exp_0.
  - rewrite S_INR. cbn [pow]. rewrite IH, <- exp_plus. f_equal. ring.
Qed.

(** The geometric mean of [n >= 1] positive numbers is the positive number
    whose [n]-th power is their product, with or without the removal of
    zeros. *)
Theorem geometricMean_product (xs : list R) (removeZeros : bool) :
  xs <> [] -> Forall (fun x => 0 < x) xs ->
  exists g : R,
    CompositionUtils.geometricMean (map Fin xs) removeZeros = Fin g
    /\ 0 < g
    /\ g ^ List.length xs = Spec.product xs.
Proof.
  intros Hne Hpos. rewrite geometricMean_pos by assumption.
  eexists. split; [reflexivity |]. split; [apply exp_pos |].
  rewrite exp_pow_nat, <- exp_logSum by exact Hpos. f_equal.
  rewrite INR_IZR_INZ. field.
  pose proof (length_pos_IZR xs Hne). lra.
Qed.

Lemma geometricMean_product_witness :
  exists g : R,
    CompositionUtils.geometricMean (map Fin [2; 8]) true = Fin g
    /\ 0 < g
    /\ g ^ 2 = Spec.product [2; 8].
Proof.
  apply (geometricMean_product [2; 8] true); [discriminate |].
  repeat constructor; lra.
Defined.

Lemma filter_zero_app (l1 l2 : list num) :
  filter (fun v => negb (Num.eq v (Fin 0))) (l1 ++ Fin 0 :: l2)
  = filter (fun v => negb (Num.eq v (Fin 0))) (l1 ++ l2).
Proof.
  rewrite !filter_app. cbn [filter Num.eq].
  now rewrite (Reqb_true 0 0) by reflexivity.
Qed.

Lemma geometricMean_repeat_zero (n : nat) :
  CompositionUtils.geometricMean (repeat (Fin 0) n) true = Fin 0.
Proof.
  unfold CompositionUtils.geometricMean.
  assert (E : filter (fun v => negb (Num.eq v (Fin 0))) (repeat (Fin 0) n) = []).
  { induction n as [| n IH]; cbn [repeat filter Num.eq]; [reflexivity |].
    now rewrite (Reqb_true 0 0) by reflexivity. }
  rewrite E. unfold lengthOf. cbn [List.length Z.of_nat Num.eq].
  now rewrite (Reqb_true 0 0) by reflexivity.
Qed.

(** With the removal of zeros, a zero entry does not change the geometric
    mean, and a list with nothing but zeros, the empty list included, has
    the geometric mean 0. *)
Theorem geometricMean_zeros :
  (forall l1 l2 : list num,
      CompositionUtils.geometricMean (l1 ++ Fin 0 :: l2) true
      = CompositionUtils.geometricMean (l1 ++ l2) true)
  /\ (forall n : nat,
         CompositionUtils.geometricMean (repeat (Fin 0) n) true = Fin 0).
Proof.
  split.
  - intros l1 l2. unfold CompositionUtils.geometricMean. now rewrite filter_zero_app.
  - exact geometricMean_repeat_zero.
Qed.

Lemma columns_pos (ps : list (R * R * R)) :
  Forall Spec.positive3 ps ->
  Forall (fun x => 0 < x) (Spec.column1 ps)
  /\ Forall (fun x => 0 < x) (Spec.column2 ps)
  /\ Forall (fun x => 0 < x) (Spec.column3 ps).
Proof.
  induction 1 as [| [[x y] z] ps (Hx & Hy & Hz) _ (IH1 & IH2 & IH3)];
    cbn; repeat split; constructor; assumption.
Qed.

Lemma centre_pos (ps : list (R * R * R)) :
  ps <> [] -> Forall Spec.positive3 ps ->
  let n := IZR (Z.of_nat (List.length ps)) in
  let g1 := exp (Spec.logSum (Spec.column1 ps) / n) in
  let g2 := exp (Spec.logSum (Spec.column2 ps) / n) in
  let g3 := exp (Spec.logSum (Spec.column3 ps) / n) in
  CompositionUtils.centre (map Spec.finPoint ps)
  = (Fin (g1 / (g1 + g2 + g3)), Fin (g2 / (g1 + g2 + g3)), Fin (g3 / (g1 + g2 + g3))).
Proof.
  intros Hne Hpos n g1 g2 g3.
  destruct (columns_pos ps Hpos) as (H1 & H2 & H3).
  unfold CompositionUtils.centre. rewrite !map_map.
  assert (E1 : map (fun x => fst (fst (Spec.finPoint x))) ps = map Fin (Spec.column1 ps)).
  { unfold Spec.column1. rewrite map_map. apply map_ext. now intros [[x y] z]. }
  assert (E2 : map (fun x => snd (fst (Spec.finPoint x))) ps = map Fin (Spec.column2 ps)).
  { unfold Spec.column2. rewrite map_map. apply map_ext. now intros [[x y] z]. }
  assert (E3 : map (fun x => snd (Spec.finPoint x)) ps = map Fin (Spec.column3 ps)).
  { unfold Spec.column3. rewrite map_map. apply map_ext. now intros [[x y] z]. }
  rewrite E1, E2, E3.
  assert (N1 : Spec.column1 ps <> []) by (destruct ps; [contradiction | discriminate]).
  assert (N2 : Spec.column2 ps <> []) by (destruct ps; [contradiction | discriminate]).
  assert (N3 : Spec.column3 ps <> []) by (destruct ps; [contradiction | discriminate]).
  rewrite !geometricMean_pos by assumption.
  unfold Spec.column1, Spec.column2, Spec.column3. rewrite !length_map.
  fold (Spec.column1 ps) (Spec.column2 ps) (Spec.column3 ps). fold n. fold g1 g2 g3.
  pose proof (exp_pos (Spec.logSum (Spec.column1 ps) / n)) as P1.
  pose proof (exp_pos (Spec.logSum (Spec.column2 ps) / n)) as P2.
  pose proof (exp_pos (Spec.logSum (Spec.column3 ps) / n)) as P3.
  fold g1 in P1. fold g2 in P2. fold g3 in P3.
  cbn [Num.add]. rewrite !div_fin by lra. reflexivity.
Qed.

Lemma within3_positive (lo hi : R) (ps : list (R * R * R)) :
  0 < lo -> Forall (Spec.within3 lo hi) ps -> Forall Spec.positive3 ps.
Proof.
  intros Hlo Hall. apply Forall_forall. intros [[x y] z] Hin.
  rewrite Forall_forall in Hall. specialize (Hall _ Hin).
  unfold Spec.within3, Spec.within in Hall. cbn. lra.
Qed.

Lemma within_positive (lo hi : R) (ls : list R) :
  0 < lo -> Forall (Spec.within lo hi) ls -> Forall (fun l => 0 < l) ls.
Proof.
  intros Hlo Hall. apply Forall_forall. intros l Hin.
  rewrite Forall_forall in Hall. specialize (Hall _ Hin).
  unfold Spec.within in Hall. lra.
Qed.

(** The centre of a non-empty data set of points with components between
    1e-100 and 1e100 is the closure of the three geometric means: its
    components are positive and sum to 1, and each is the share of its
    column's geometric mean (exactly over the reals; in doubles up to
    rounding, since within these bounds the means, their sum and the
    quotients stay in the range of doubles). *)
Theorem centre_closed_means (ps : list (R * R * R)) :
  ps <> [] -> Forall (Spec.within3 1e-100 1e100) ps ->
  exists g1 g2 g3 : R,
    0 < g1 /\ 0 < g2 /\ 0 < g3
    /\ g1 ^ List.length ps = Spec.product (Spec.column1 ps)
    /\ g2 ^ List.length ps = Spec.product (Spec.column2 ps)
    /\ g3 ^ List.length ps = Spec.product (Spec.column3 ps)
    /\ CompositionUtils.centre (map Spec.finPoint ps)
       = (Fin (g1 / (g1 + g2 + g3)), Fin (g2 / (g1 + g2 + g3)), Fin (g3 / (g1 + g2 + g3)))
    /\ g1 / (g1 + g2 + g3) + g2 / (g1 + g2 + g3) + g3 / (g1 + g2 + g3) = 1.
Proof.
  intros Hne Hin.
  assert (Hpos : Forall Spec.positive3 ps)
    by (apply (within3_positive 1e-100 1e100); [lra | exact Hin]).
  destruct (columns_pos ps Hpos) as (H1 & H2 & H3).
  pose proof (length_pos_IZR ps Hne) as Hn.
  assert (Hpow : forall col : list R,
             Forall (fun x => 0 < x) col -> List.length col = List.length ps ->
             exp (Spec.logSum col / IZR (Z.of_nat (List.length ps))) ^ List.length ps
             = Spec.product col).
  { intros col Hcol Hlen. rewrite exp_pow_nat, <- exp_logSum by exact Hcol. f_equal.
    rewrite INR_IZR_INZ. field. lra. }
  do 3 eexists.
  split; [apply exp_pos |]. split; [apply exp_pos |]. split; [apply exp_pos |].
  split; [apply (Hpow _ H1); apply length_map |].
  split; [apply (Hpow _ H2); apply length_map |].
  split; [apply (Hpow _ H3); apply length_map |].
  split; [exact (centre_pos ps Hne Hpos) |].
  pose proof (exp_pos (Spec.logSum (Spec.column1 ps) / IZR (Z.of_nat (List.length ps)))).
  pose proof (exp_pos (Spec.logSum (Spec.column2 ps) / IZR (Z.of_nat (List.length ps)))).
  pose proof (exp_pos (Spec.logSum (Spec.column3 ps) / IZR (Z.of_nat (List.length ps)))).
  field. lra.
Qed.

Lemma centre_closed_means_witness :
  exists g1 g2 g3 : R,
    0 < g1 /\ 0 < g2 /\ 0 < g3
    /\ g1 ^ 2 = Spec.product (Spec.column1 [(1, 2, 1); (4, 2, 2)])
    /\ g2 ^ 2 = Spec.product (Spec.column2 [(1, 2, 1); (4, 2, 2)])
    /\ g3 ^ 2 = Spec.product (Spec.column3 [(1, 2, 1); (4, 2, 2)])
    /\ CompositionUtils.centre (map Spec.finPoint [(1, 2, 1); (4, 2, 2)])
       = (Fin (g1 / (g1 + g2 + g3)), Fin (g2 / (g1 + g2 + g3)), Fin (g3 / (g1 + g2 + g3)))
    /\ g1 / (g1 + g2 + g3) + g2 / (g1 + g2 + g3) + g3 / (g1 + g2 + g3) = 1.
Proof.
  apply (centre_closed_means [(1, 2, 1); (4, 2, 2)]); [discriminate |].
  repeat constructor; unfold Spec.within; lra.
Defined.

Lemma logSum_repeat (x : R) (n : nat) : Spec.logSum (repeat x n) = INR n * ln x.
Proof.
  induction n as [| n IH].
  - cbn. ring.
  - change (Spec.logSum (repeat x (S n))) with (ln x + Spec.logSum (repeat x n)).
    rewrite IH, S_INR. ring.
Qed.

(** The centre of a data set that repeats one point of positive components
    is the closure of that point. *)
Theorem centre_constant (x y z : R) (n : nat) :
  0 < x -> 0 < y -> 0 < z -> (0 < n)%nat ->
  CompositionUtils.centre (repeat (Fin x, Fin y, Fin z) n)
  = (Fin (x / (x + y + z)), Fin (y / (x + y + z)), Fin (z / (x + y + z))).
Proof.
  intros Hx Hy Hz Hn.
  assert (E : repeat (Fin x, Fin y, Fin z) n = map Spec.finPoint (repeat (x, y, z) n))
    by (now rewrite map_repeat).
  rewrite E. clear E.
  assert (Hne : repeat (x, y, z) n <> []) by (destruct n; [lia | discriminate]).
  assert (Hpos : Forall Spec.positive3 (repeat (x, y, z) n)).
  { apply Forall_forall. intros p Hp. apply repeat_spec in Hp. subst p. cbn. auto. }
  rewrite (centre_pos _ Hne Hpos). cbv zeta.
  unfold Spec.column1, Spec.column2, Spec.column3. rewrite !map_repeat. cbn [fst snd].
  rewrite !logSum_repeat, repeat_length, <- INR_IZR_INZ.
  assert (Hn' : 0 < INR n) by (apply lt_0_INR; exact Hn).
  replace (INR n * ln x / INR n) with (ln x) by (field; lra).
  replace (INR n * ln y / INR n) with (ln y) by (field; lra).
  replace (INR n * ln z / INR n) with (ln z) by (field; lra).
  now rewrite !exp_ln by assumption.
Qed.

Lemma centre_constant_witness :
  CompositionUtils.centre (repeat (Fin 2, Fin 1, Fin 1) 3)
  = (Fin (2 / (2 + 1 + 1)), Fin (1 / (2 + 1 + 1)), Fin (1 / (2 + 1 + 1))).
Proof. apply (centre_constant 2 1 1 3); [lra | lra | lra | lia]. Defined.

(** A data set without any non-zero value, the empty one included, has no
    centre: all three components are [NaN]. *)
Theorem centre_degenerate (n : nat) :
  CompositionUtils.centre (repeat (Fin 0, Fin 0, Fin 0) n) = (NaN, NaN, NaN).
Proof.
  unfold CompositionUtils.centre. rewrite !map_repeat. cbn [fst snd].
  rewrite !geometricMean_repeat_zero. cbn [Num.add Num.div].
  rewrite (Reqb_true (0 + 0 + 0) 0) by lra. now rewrite (Reqb_true 0 0) by reflexivity.
Qed.

Lemma logSum_scaled (ls : list R) (ps : list (R * R * R)) :
  List.length ls = List.length ps ->
  Forall (fun l => 0 < l) ls -> Forall Spec.positive3 ps ->
  let qs := map Spec.scalePoint (combine ls ps) in
  List.length qs = List.length ps
  /\ Forall Spec.positive3 qs
  /\ Spec.logSum (Spec.column1 qs) = Spec.logSum ls + Spec.logSum (Spec.column1 ps)
  /\ Spec.logSum (Spec.column2 qs) = Spec.logSum ls + Spec.logSum (Spec.column2 ps)
  /\ Spec.logSum (Spec.column3 qs) = Spec.logSum ls + Spec.logSum (Spec.column3 ps).
Proof.
  intros Hlen Hls. revert ps Hlen.
  induction Hls as [| l ls Hl _ IH]; intros [| [[x y] z] ps] Hlen Hps;
    try discriminate.
  - cbn. repeat split; [constructor | ring | ring | ring].
  - inversion Hps as [| ? ? Hp Hps']; subst.
    unfold Spec.positive3 in Hp. destruct Hp as (Hx & Hy & Hz).
    injection Hlen as Hlen.
    destruct (IH ps Hlen Hps') as (L & P & E1 & E2 & E3).
    cbn zeta in *. cbn [combine map Spec.scalePoint].
    split; [cbn [List.length]; now rewrite L |].
    split; [constructor; [cbn; repeat split; nra | exact P] |].
    unfold Spec.column1, Spec.column2, Spec.column3 in *. cbn [map fst snd].
    change (Spec.logSum (l :: ls)) with (ln l + Spec.logSum ls).
    repeat match goal with
           | |- context [Spec.logSum (?a :: ?t)] =>
               change (Spec.logSum (a :: t)) with (ln a + Spec.logSum t)
           end.
    rewrite E1, E2, E3, !ln_mult by assumption.
    repeat split; ring.
Qed.

Lemma ratio_scale (e a b c d : R) :
  0 < e -> 0 < b -> 0 < c -> 0 < d ->
  e * a / (e * b + e * c + e * d) = a / (b + c + d).
Proof.
  intros He Hb Hc Hd. replace (e * b + e * c + e * d) with (e * (b + c + d)) by ring.
  field. lra.
Qed.

(** The centre does not depend on the scale of the data points: multiplying
    every point of a data set of components between 1e-50 and 1e50 by a
    factor of its own between 1e-50 and 1e50 leaves the centre unchanged
    (exactly over the reals; in doubles up to rounding, since within these
    bounds the scaled components, the means, their sum and the quotients
    stay in the range of doubles). *)
Theorem centre_scale_invariant (ls : list R) (ps : list (R * R * R)) :
  ps <> [] -> List.length ls = List.length ps ->
  Forall (Spec.within 1e-50 1e50) ls -> Forall (Spec.within3 1e-50 1e50) ps ->
  CompositionUtils.centre (map Spec.finPoint (map Spec.scalePoint (combine ls ps)))
  = CompositionUtils.centre (map Spec.finPoint ps).
Proof.
  intros Hne Hlen Bls Bps.
  assert (Hls : Forall (fun l => 0 < l) ls)
    by (apply (within_positive 1e-50 1e50); [lra | exact Bls]).
  assert (Hps : Forall Spec.positive3 ps)
    by (apply (within3_positive 1e-50 1e50); [lra | exact Bps]).
  destruct (logSum_scaled ls ps Hlen Hls Hps) as (L & P & E1 & E2 & E3).
  cbn zeta in *.
  set (qs := map Spec.scalePoint (combine ls ps)) in *.
  assert (Hq : qs <> []).
  { intros E. rewrite E in L. destruct ps; [contradiction | discriminate]. }
  rewrite (centre_pos qs Hq P), (centre_pos ps Hne Hps). cbv zeta.
  rewrite L, E1, E2, E3.
  pose proof (length_pos_IZR ps Hne) as Hn.
  set (n := IZR (Z.of_nat (List.length ps))) in *.
  assert (Hsplit : forall s : R, exp ((Spec.logSum ls + s) / n)
                                 = exp (Spec.logSum ls / n) * exp (s / n)).
  { intros s. rewrite <- exp_plus. f_equal. field. lra. }
  rewrite !Hsplit.
  pose proof (exp_pos (Spec.logSum ls / n)).
  pose proof (exp_pos (Spec.logSum (Spec.column1 ps) / n)).
  pose proof (exp_pos (Spec.logSum (Spec.column2 ps) / n)).
  pose proof (exp_pos (Spec.logSum (Spec.column3 ps) / n)).
  rewrite !(ratio_scale (exp (Spec.logSum ls / n))) by assumption. reflexivity.
Qed.

Lemma centre_scale_invariant_witness :
  CompositionUtils.centre
    (map Spec.finPoint (map Spec.scalePoint (combine [2; 3] [(1, 2, 1); (4, 2, 2)])))
  = CompositionUtils.centre (map Spec.finPoint [(1, 2, 1); (4, 2, 2)]).
Proof.
  apply (centre_scale_invariant [2; 3] [(1, 2, 1); (4, 2, 2)]);
    [discriminate | reflexivity
     | repeat constructor; unfold Spec.within; lra
     | repeat constructor; unfold Spec.within; lra].
Defined.

(** ** Validation *)

Lemma validatePoint_fin (show : num -> string) (x y z : R) :
  CompositionUtils.validatePoint show (Some [Fin x; Fin y; Fin z])
  = if Num.Rltb x 0 || (Num.Rltb y 0 || (Num.Rltb z 0 || false)) then
      Throws ("Ternary point contains negative values: ["
                ++ CompositionUtils.showArray show [Fin x; Fin y; Fin z] ++ "]")%string
    else if Num.Rltb 1e-9 (Rabs (x + y + z + - 1)) then
      Throws ("Ternary point components must sum to 1, got "
                ++ show (Fin (x + y + z)) ++ ": ["
                ++ CompositionUtils.showArray show [Fin x; Fin y; Fin z] ++ "]")%string
    else Returns tt.
Proof.
  unfold CompositionUtils.validatePoint, lengthOf.
  cbn [List.length Z.of_nat Pos.of_succ_nat Pos.succ Num.eq].
  rewrite (Reqb_true 3 3) by reflexivity. cbn [negb existsb Num.lt nth Num.add].
  reflexivity.
Qed.

Lemma validate_app (show : num -> string) (P Q : list (option (list num))) :
  CompositionUtils.validateTernaryPoints show P = Returns tt ->
  CompositionUtils.validateTernaryPoints show (P ++ Q)
  = CompositionUtils.validateTernaryPoints show Q.
Proof.
  induction P as [| p P IH]; cbn [app CompositionUtils.validateTernaryPoints];
    [reflexivity |].
  destruct (CompositionUtils.validatePoint show p); try discriminate. exact IH.
Qed.

Lemma validate_closed_element (show : num -> string) (p : list jsval) :
  Spec.invalidElement p \/ Spec.properElement p ->
  CompositionUtils.validatePoint
    show (option_map CompositionUtils.arrayOf (CompositionUtils.closePoint p))
  = Returns tt.
Proof.
  intros [Hinv | (a & b & c & -> & Ha & Hb & Hc & Hs)].
  - now rewrite closePoint_invalid.
  - rewrite closePoint_fin by lra. cbn [option_map CompositionUtils.arrayOf].
    rewrite validatePoint_fin.
    assert (Hinv : 0 < / (a + b + c)) by now apply Rinv_0_lt_compat.
    rewrite !Rltb_false by (unfold Rdiv; nra). cbn [orb].
    replace (a / (a + b + c) + b / (a + b + c) + c / (a + b + c) + - 1) with 0
      by (field; lra).
    rewrite Rabs_R0. now rewrite Rltb_false by lra.
Qed.

Lemma validate_closed_list (show : num -> string) (data : list (list jsval)) :
  Forall (fun p => Spec.invalidElement p \/ Spec.properElement p) data ->
  CompositionUtils.validateTernaryPoints
    show (map (option_map CompositionUtils.arrayOf)
              (map CompositionUtils.closePoint data))
  = Returns tt.
Proof.
  induction 1 as [| p data Hp _ IH]; cbn [map CompositionUtils.validateTernaryPoints];
    [reflexivity |].
  now rewrite (validate_closed_element show p Hp).
Qed.

Lemma bounded_accepted (data : list (list jsval)) :
  Forall (fun p => Spec.invalidElement p \/ Spec.boundedElement p) data ->
  Forall (fun p => Spec.invalidElement p \/ Spec.properElement p) data.
Proof.
  intros Hall. eapply Forall_impl; [| exact Hall]. cbv beta.
  intros p [Hinv | (a & b & c & -> & Ha & Hb & Hc & Hs & _)]; [now left | right].
  exists a, b, c. repeat split; assumption.
Qed.

(** Closing data and validating the closed points, as [addDataPoints]
    does, does not throw when every element is either rejected by closure
    (it is skipped as [null]) or a composition of finite non-negative
    numbers that are not all zero and whose sum does not exceed 1e308, so
    that the sum is a finite double. *)
Theorem validate_closed_data (show : num -> string) (data : list (list jsval)) :
  Forall (fun p => Spec.invalidElement p \/ Spec.boundedElement p) data ->
  TricoloreViz.validateData show data = Returns tt.
Proof.
  intros Hall. unfold TricoloreViz.validateData, CompositionUtils.close.
  now apply validate_closed_list, bounded_accepted.
Qed.

Lemma validate_closed_data_witness :
  TricoloreViz.validateData
    (fun _ => EmptyString)
    [[JNum (Fin 2); JNum (Fin 1); JNum (Fin 1)]; [JNum NaN; JNum (Fin 1)]]
  = Returns tt.
Proof.
  apply validate_closed_data. constructor; [| constructor; [| constructor]].
  - right. exists 2, 1, 1. repeat split; lra.
  - left. left. discriminate.
Defined.

(** Validation stops at the first offending point.  When the elements
    before it are accepted, an element of finite numbers makes
    [addDataPoints]'s validation throw the negative-values error that
    quotes the closed point, if one of its components has the sign
    opposite to the sum, each component is zero or between 1e-100 and
    1e100 in absolute value, and the sum is not smaller in absolute value
    than a millionth of the sum of the absolute values: then the sum of
    the doubles has the sign of the exact sum and no quotient vanishes. *)
Theorem validate_negative_component (show : num -> string)
  (good rest : list (list jsval)) (a b c : R) :
  Forall (fun p => Spec.invalidElement p \/ Spec.boundedElement p) good ->
  Spec.zeroOrWithin 1e-100 1e100 (Rabs a) ->
  Spec.zeroOrWithin 1e-100 1e100 (Rabs b) ->
  Spec.zeroOrWithin 1e-100 1e100 (Rabs c) ->
  a + b + c <> 0 ->
  Rabs a + Rabs b + Rabs c <= 1e6 * Rabs (a + b + c) ->
  a / (a + b + c) < 0 \/ b / (a + b + c) < 0 \/ c / (a + b + c) < 0 ->
  TricoloreViz.validateData
    show (good ++ [JNum (Fin a); JNum (Fin b); JNum (Fin c)] :: rest)
  = Throws ("Ternary point contains negative values: ["
              ++ CompositionUtils.showArray
                   show [Fin (a / (a + b + c)); Fin (b / (a + b + c));
                         Fin (c / (a + b + c))]
              ++ "]")%string.
Proof.
  intros Hgood _ _ _ Hs _ Hneg.
  pose proof (validate_closed_list show good (bounded_accepted good Hgood)) as Hg.
  unfold TricoloreViz.validateData, CompositionUtils.close.
  rewrite !map_app. rewrite validate_app by exact Hg.
  cbn [map CompositionUtils.validateTernaryPoints].
  rewrite closePoint_fin by exact Hs. cbn [option_map CompositionUtils.arrayOf].
  rewrite validatePoint_fin.
  assert (E : Num.Rltb (a / (a + b + c)) 0
              || (Num.Rltb (b / (a + b + c)) 0
                  || (Num.Rltb (c / (a + b + c)) 0 || false)) = true).
  { destruct Hneg as [H | [H | H]]; rewrite (Rltb_true _ 0 H);
      rewrite ?orb_true_r; reflexivity. }
  now rewrite E.
Qed.

Lemma validate_negative_component_witness :
  TricoloreViz.validateData
    (fun _ => EmptyString)
    ([[JNum (Fin 2); JNum (Fin 1); JNum (Fin 1)]]
       ++ [JNum (Fin (-1)); JNum (Fin 1); JNum (Fin 1)] :: [])
  = Throws ("Ternary point contains negative values: ["
              ++ CompositionUtils.showArray
                   (fun _ => EmptyString)
                   [Fin (-1 / (-1 + 1 + 1)); Fin (1 / (-1 + 1 + 1));
                    Fin (1 / (-1 + 1 + 1))]
              ++ "]")%string.
Proof.
  assert (A1 : Rabs 1 = 1) by (apply Rabs_right; lra).
  assert (Am : Rabs (-1) = 1) by (rewrite Rabs_left; lra).
  apply (validate_negative_component (fun _ => EmptyString)
           [[JNum (Fin 2); JNum (Fin 1); JNum (Fin 1)]] [] (-1) 1 1).
  - constructor; [| constructor]. right. exists 2, 1, 1. repeat split; lra.
  - right. unfold Spec.within. rewrite Am. lra.
  - right. unfold Spec.within. rewrite A1. lra.
  - right. unfold Spec.within. rewrite A1. lra.
  - lra.
  - replace (-1 + 1 + 1) with 1 by lra. rewrite Am, A1. lra.
  - left. lra.
Defined.

(** Validation does not catch [NaN]: a point with a [NaN] component and no
    negative component is accepted, since no comparison with [NaN] holds.
    So the all-zero composition, which closure turns into three [NaN]s,
    passes [addDataPoints]'s validation. *)
Theorem validate_accepts_nan (show : num -> string) :
  (forall y z : num,
      Num.lt y (Fin 0) = false -> Num.lt z (Fin 0) = false ->
      CompositionUtils.validateTernaryPoints show [Some [NaN; y; z]] = Returns tt)
  /\ TricoloreViz.validateData show [[JNum (Fin 0); JNum (Fin 0); JNum (Fin 0)]]
     = Returns tt.
Proof.
  assert (H : forall y z : num,
             Num.lt y (Fin 0) = false -> Num.lt z (Fin 0) = false ->
             CompositionUtils.validateTernaryPoints show [Some [NaN; y; z]] = Returns tt).
  { intros y z Hy Hz. cbn [CompositionUtils.validateTernaryPoints].
    unfold CompositionUtils.validatePoint, lengthOf.
    cbn [List.length Z.of_nat Pos.of_succ_nat Pos.succ Num.eq].
    rewrite (Reqb_true 3 3) by reflexivity.
    cbn [negb existsb Num.lt nth Num.add]. rewrite Hy, Hz. reflexivity. }
  split; [exact H |].
  unfold TricoloreViz.validateData, CompositionUtils.close. cbn [map].
  assert (Hc : CompositionUtils.closePoint [JNum (Fin 0); JNum (Fin 0); JNum (Fin 0)]
               = Some (NaN, NaN, NaN)).
  { unfold CompositionUtils.closePoint. cbn. settle. reflexivity. }
  rewrite Hc. cbn [option_map CompositionUtils.arrayOf]. now apply H.
Qed.

Lemma validate_accepts_nan_witness :
  CompositionUtils.validateTernaryPoints (fun _ => EmptyString)
    [Some [NaN; Fin (1/2); Fin (1/2)]] = Returns tt.
Proof.
  apply (proj1 (validate_accepts_nan (fun _ => EmptyString)));
    apply Rltb_false; lra.
Defined.

(** ** The vertices of the mesh *)

Lemma floor_sqrt_int (k : Z) (z : Z) :
  (1 <= k)%Z -> (1 <= z <= k * k)%Z ->
  Math.floor (Math.sqrt (Num.sub (Num.mul (Fin (IZR k)) (Fin (IZR k))) (Fin (IZR z))))
  = Fin (IZR (Mesh.root k z)).
Proof.
  intros Hk Hz. cbn [Num.mul Num.sub Num.neg Num.add].
  replace (IZR k * IZR k + - IZR z) with (IZR (k * k - z)) by (push_IZR; ring).
  rewrite sqrt_fin by (apply IZR_le; lia).
  cbn [Math.floor]. rewrite Zfloor_sqrt by lia. reflexivity.
Qed.

Lemma pow_minus_one (m : Z) :
  m = 0%Z \/ m = 1%Z ->
  Math.pow (Fin (-1)) (Fin (IZR m)) = Fin (IZR (1 - 2 * m)).
Proof.
  intros [-> | ->]; unfold Math.pow.
  - now rewrite (Reqb_true 0 0) by reflexivity.
  - rewrite (Reqb_false 1 0) by lra. rewrite (Reqb_false (-1) 0) by lra.
    rewrite (Rltb_false 0 (-1)) by lra.
    unfold Math.isInteger. rewrite (ZfloorZ 1). rewrite (Reqb_true 1 1) by reflexivity.
    apply (f_equal Fin). rewrite powerRZ_1. reflexivity.
Qed.

Lemma verticesOf_int (k : Z) (i : nat) :
  (1 <= k)%Z -> (1 <= Z.of_nat i <= k * k)%Z ->
  TernaryGeometry.verticesOf (Fin (IZR k))
    (TernaryCentroid.mk (Fin (IZR (Z.of_nat i)))
       (Fin (IZR (Mesh.numer1 k (Z.of_nat i)) / IZR (6 * k)))
       (Fin (IZR (Mesh.numer2 k (Z.of_nat i)) / IZR (3 * k)))
       (Fin (IZR (Mesh.numer3 k (Z.of_nat i)) / IZR (6 * k))))
  = Mesh.vertices k i.
Proof.
  intros Hk Hi. set (z := Z.of_nat i) in *.
  assert (Hk' : 1 <= IZR k) by now apply IZR_le.
  unfold TernaryGeometry.verticesOf, Mesh.vertices. fold z.
  cbn [TernaryCentroid.id TernaryCentroid.p1 TernaryCentroid.p2 TernaryCentroid.p3].
  rewrite floor_sqrt_int by assumption. cbv zeta.
  set (s := Mesh.root k z).
  cbn [Num.mul Num.sub Num.neg Num.add].
  assert (Hrem : Num.rem (Fin (IZR z + - ((IZR k + - IZR s + - (1))
                                             * (2 * IZR k + - (IZR k + - IZR s) + 1))))
                         (Fin 2)
                 = Fin (IZR (Mesh.parity k z))).
  { replace (Mesh.parity k z)
      with (Z.rem (z - (k - s - 1) * (2 * k - (k - s) + 1)) 2).
    - apply rem2_int. push_IZR. ring.
    - unfold Mesh.parity. fold s. f_equal. ring. }
  rewrite Hrem.
  pose proof (parity_nonneg k z Hk Hi) as Hm.
  rewrite pow_minus_one by lia. fold (Mesh.sign k z).
  cbn [Num.mul]. rewrite !div_fin by lra. cbn [Num.add Num.neg].
  reflexivity.
Qed.

Lemma meshVertices_int (k : Z) :
  (1 <= k)%Z ->
  exists cs,
    TernaryGeometry.ternaryMeshCentroids (Fin (IZR k)) = Returns cs
    /\ TernaryGeometry.ternaryMeshVertices cs
       = flat_map (Mesh.vertices k) (seq 1 (Z.to_nat (k * k))).
Proof.
  intros Hk. unfold TernaryGeometry.ternaryMeshCentroids.
  cbn [Num.mul TernaryGeometry.loopIds].
  replace (IZR k * IZR k) with (IZR (k * k)) by apply mult_IZR.
  rewrite ZfloorZ. eexists. split; [reflexivity |].
  unfold TernaryGeometry.ternaryMeshVertices, lengthOf.
  rewrite !length_map, length_seq.
  replace (Z.of_nat (Z.to_nat (k * k))) with (k * k)%Z by nia.
  assert (Hsq : Math.sqrt (Fin (IZR (k * k))) = Fin (IZR k)).
  { rewrite sqrt_fin by (apply IZR_le; nia). rewrite mult_IZR.
    rewrite sqrt_square by (apply (IZR_le 0); lia). reflexivity. }
  rewrite Hsq. rewrite !flat_map_concat_map, !map_map. f_equal.
  apply map_ext_in. intros i Hin. apply in_seq in Hin.
  replace (Fin (IZR (k * k))) with (Num.mul (Fin (IZR k)) (Fin (IZR k)))
    by (cbn; now rewrite mult_IZR).
  rewrite centroidOf_int by lia. apply verticesOf_int; lia.
Qed.

Lemma vertex_bounds (k i : Z) :
  (1 <= k)%Z -> (1 <= i <= k * k)%Z ->
  (0 <= Mesh.numer1 k i - 4 * Mesh.sign k i
   /\ 0 <= Mesh.numer2 k i + Mesh.sign k i
   /\ 0 <= Mesh.numer3 k i + 2 * Mesh.sign k i
   /\ 0 <= Mesh.numer1 k i + 2 * Mesh.sign k i
   /\ 0 <= Mesh.numer2 k i - 2 * Mesh.sign k i
   /\ 0 <= Mesh.numer3 k i - 4 * Mesh.sign k i)%Z.
Proof.
  intros Hk Hi. pose proof (root_spec k i Hk Hi) as (Hs & Hlo & Hhi).
  pose proof (parity_nonneg k i Hk Hi) as Hm.
  unfold Mesh.numer1, Mesh.numer2, Mesh.numer3, Mesh.sign.
  pose proof (Z.quot_rem' (- (k * k) + i + Mesh.root k i * (Mesh.root k i + 2) + 1) 2)
    as Hq.
  fold (Mesh.parity k i) in Hq.
  set (m := Mesh.parity k i) in *. set (s := Mesh.root k i) in *.
  set (q := Z.quot (- (k * k) + i + s * (s + 2) + 1) 2) in *.
  assert (Hcase : m = 0%Z \/ m = 1%Z) by lia.
  destruct Hcase as [E | E]; rewrite E in *; repeat split; nia.
Qed.

(** For every positive integer [k], [ternaryMeshVertices] applied to the
    centroids of [ternaryMeshCentroids(k)] returns [3 * k * k] vertices, and
    every one of them lies in the simplex: its components are finite,
    non-negative and sum to 1. *)
Theorem mesh_vertices_in_simplex (k : Z) :
  (1 <= k)%Z ->
  exists cs,
    TernaryGeometry.ternaryMeshCentroids (Fin (IZR k)) = Returns cs
    /\ List.length (TernaryGeometry.ternaryMeshVertices cs) = Z.to_nat (3 * (k * k))
    /\ forall v,
        In v (TernaryGeometry.ternaryMeshVertices cs) ->
        exists x y z : R,
          TernaryVertex.p1 v = Fin x /\ TernaryVertex.p2 v = Fin y
          /\ TernaryVertex.p3 v = Fin z
          /\ 0 <= x /\ 0 <= y /\ 0 <= z /\ x + y + z = 1.
Proof.
  intros Hk. destruct (meshVertices_int k Hk) as (cs & Hcs & Hvs).
  exists cs. split; [exact Hcs |]. rewrite Hvs. split.
  - rewrite (flat_map_constant_length (c := 3%nat)) by (intros; reflexivity).
    rewrite length_seq. nia.
  - intros v Hv. apply in_flat_map in Hv. destruct Hv as (i & Hi & Hv).
    apply in_seq in Hi.
    assert (Hz : (1 <= Z.of_nat i <= k * k)%Z) by lia.
    destruct (vertex_bounds k (Z.of_nat i) Hk Hz) as (B1 & B2 & B3 & B4 & B5 & B6).
    pose proof (numer_sum k (Z.of_nat i)) as Hsum.
    apply IZR_le in B1, B2, B3, B4, B5, B6. apply (f_equal IZR) in Hsum.
    revert B1 B2 B3 B4 B5 B6 Hsum. push_IZR.
    set (n1 := IZR (Mesh.numer1 k (Z.of_nat i))).
    set (n2 := IZR (Mesh.numer2 k (Z.of_nat i))).
    set (n3 := IZR (Mesh.numer3 k (Z.of_nat i))).
    set (sg := IZR (Mesh.sign k (Z.of_nat i))).
    intros B1 B2 B3 B4 B5 B6 Hsum.
    assert (Hk' : 1 <= IZR k) by now apply IZR_le.
    assert (Hinv : 0 < / IZR k) by (apply Rinv_0_lt_compat; lra).
    assert (F1 : forall a : R, 0 <= a -> 0 <= a / (6 * IZR k))
      by (intros a Ha; unfold Rdiv; apply Rmult_le_pos;
          [exact Ha | apply Rlt_le, Rinv_0_lt_compat; lra]).
    unfold Mesh.vertices in Hv. cbv zeta in Hv. fold n1 n2 n3 sg in Hv.
    revert Hv. push_IZR. intros Hv.
    destruct Hv as [<- | [<- | [<- | []]]];
      cbn [TernaryVertex.p1 TernaryVertex.p2 TernaryVertex.p3];
      do 3 eexists; (split; [reflexivity |]); (split; [reflexivity |]);
      (split; [reflexivity |]).
    + split; [| split; [| split]].
      * replace (n1 / (6 * IZR k) - sg * 2 / (3 * IZR k))
          with ((n1 - 4 * sg) / (6 * IZR k)) by (field; lra). now apply F1.
      * replace (n2 / (3 * IZR k) + sg / (3 * IZR k))
          with ((2 * (n2 + sg)) / (6 * IZR k)) by (field; lra). apply F1. lra.
      * replace (n3 / (6 * IZR k) + sg / (3 * IZR k))
          with ((n3 + 2 * sg) / (6 * IZR k)) by (field; lra). now apply F1.
      * replace n1 with (6 * IZR k - 2 * n2 - n3) by lra. field. lra.
    + split; [| split; [| split]].
      * replace (n1 / (6 * IZR k) + sg / (3 * IZR k))
          with ((n1 + 2 * sg) / (6 * IZR k)) by (field; lra). now apply F1.
      * replace (n2 / (3 * IZR k) - sg * 2 / (3 * IZR k))
          with ((2 * (n2 - 2 * sg)) / (6 * IZR k)) by (field; lra). apply F1. lra.
      * replace (n3 / (6 * IZR k) + sg / (3 * IZR k))
          with ((n3 + 2 * sg) / (6 * IZR k)) by (field; lra). now apply F1.
      * replace n1 with (6 * IZR k - 2 * n2 - n3) by lra. field. lra.
    + split; [| split; [| split]].
      * replace (n1 / (6 * IZR k) + sg / (3 * IZR k))
          with ((n1 + 2 * sg) / (6 * IZR k)) by (field; lra). now apply F1.
      * replace (n2 / (3 * IZR k) + sg / (3 * IZR k))
          with ((2 * (n2 + sg)) / (6 * IZR k)) by (field; lra). apply F1. lra.
      * replace (n3 / (6 * IZR k) - sg * 2 / (3 * IZR k))
          with ((n3 - 4 * sg) / (6 * IZR k)) by (field; lra). now apply F1.
      * replace n1 with (6 * IZR k - 2 * n2 - n3) by lra. field. lra.
Qed.

Lemma mesh_vertices_in_simplex_witness :
  exists cs,
    TernaryGeometry.ternaryMeshCentroids (Fin (IZR 2)) = Returns cs
    /\ List.length (TernaryGeometry.ternaryMeshVertices cs) = 12%nat.
Proof.
  destruct (mesh_vertices_in_simplex 2 ltac:(lia)) as (cs & Hcs & Hlen & _).
  exists cs. split; [exact Hcs | exact Hlen].
Defined.

Lemma mesh_records (k : Z) :
  (1 <= k)%Z ->
  exists cs,
    TernaryGeometry.ternaryMeshCentroids (Fin (IZR k)) = Returns cs
    /\ Math.sqrt (lengthOf cs) = Fin (IZR k)
    /\ forall c, In c cs ->
                 exists i : nat,
                   (1 <= Z.of_nat i <= k * k)%Z
                   /\ c = TernaryCentroid.mk (Fin (IZR (Z.of_nat i)))
                            (Fin (IZR (Mesh.numer1 k (Z.of_nat i)) / IZR (6 * k)))
                            (Fin (IZR (Mesh.numer2 k (Z.of_nat i)) / IZR (3 * k)))
                            (Fin (IZR (Mesh.numer3 k (Z.of_nat i)) / IZR (6 * k))).
Proof.
  intros Hk. unfold TernaryGeometry.ternaryMeshCentroids.
  cbn [Num.mul TernaryGeometry.loopIds].
  replace (IZR k * IZR k) with (IZR (k * k)) by apply mult_IZR.
  rewrite ZfloorZ. eexists. split; [reflexivity |]. split.
  - unfold lengthOf. rewrite !length_map, length_seq.
    replace (Z.of_nat (Z.to_nat (k * k))) with (k * k)%Z by nia.
    rewrite sqrt_fin by (apply IZR_le; nia). rewrite mult_IZR.
    now rewrite sqrt_square by (apply (IZR_le 0); lia).
  - intros c Hc. rewrite map_map in Hc. apply in_map_iff in Hc.
    destruct Hc as (i & <- & Hi). apply in_seq in Hi. exists i.
    split; [lia |].
    replace (Fin (IZR (k * k))) with (Num.mul (Fin (IZR k)) (Fin (IZR k)))
      by (cbn; now rewrite mult_IZR).
    apply centroidOf_int; lia.
Qed.

(** For every positive integer [k] and every centroid of
    [ternaryMeshCentroids(k)], [ternaryMeshVertices] pushes three vertices
    that carry the centroid's id and the vertex numbers 1, 2, 3, and the
    component-wise mean of the three is the centroid. *)
Theorem mesh_vertices_barycentre (k : Z) :
  (1 <= k)%Z ->
  exists cs,
    TernaryGeometry.ternaryMeshCentroids (Fin (IZR k)) = Returns cs
    /\ TernaryGeometry.ternaryMeshVertices cs
       = flat_map (TernaryGeometry.verticesOf (Math.sqrt (lengthOf cs))) cs
    /\ forall c, In c cs ->
        exists x1 y1 z1 x2 y2 z2 x3 y3 z3 : R,
          TernaryGeometry.verticesOf (Math.sqrt (lengthOf cs)) c
          = [ TernaryVertex.mk (TernaryCentroid.id c) (Fin 1) (Fin x1) (Fin y1) (Fin z1);
              TernaryVertex.mk (TernaryCentroid.id c) (Fin 2) (Fin x2) (Fin y2) (Fin z2);
              TernaryVertex.mk (TernaryCentroid.id c) (Fin 3) (Fin x3) (Fin y3) (Fin z3) ]
          /\ ColorMapping.centroidPoint c
             = (Fin ((x1 + x2 + x3) / 3), Fin ((y1 + y2 + y3) / 3),
                Fin ((z1 + z2 + z3) / 3)).
Proof.
  intros Hk. destruct (mesh_records k Hk) as (cs & Hcs & Hsq & Hrec).
  exists cs. split; [exact Hcs |]. split; [reflexivity |].
  intros c Hc. destruct (Hrec c Hc) as (i & Hi & ->). rewrite Hsq.
  rewrite verticesOf_int by assumption. unfold Mesh.vertices. cbv zeta.
  do 9 eexists. split; [reflexivity |].
  assert (Hk' : 1 <= IZR k) by now apply IZR_le.
  unfold ColorMapping.centroidPoint.
  cbn [TernaryCentroid.p1 TernaryCentroid.p2 TernaryCentroid.p3].
  f_equal; [f_equal |]; apply (f_equal Fin); push_IZR; field; lra.
Qed.

Lemma mesh_vertices_barycentre_witness :
  exists cs,
    TernaryGeometry.ternaryMeshCentroids (Fin (IZR 2)) = Returns cs
    /\ TernaryGeometry.ternaryMeshVertices cs
       = flat_map (TernaryGeometry.verticesOf (Math.sqrt (lengthOf cs))) cs.
Proof.
  destruct (mesh_vertices_barycentre 2 ltac:(lia)) as (cs & Hcs & Hvs & _).
  exists cs. split; [exact Hcs | exact Hvs].
Defined.

(** ** The sextant polygons *)

(** For a centre in the simplex, [ternarySextantVertices] returns 27
    vertices, each in the simplex and each in the closed region of the
    sextant whose id it carries: the six polygons are the closures of the
    six regions of [ternarySurroundingSextant]. *)
Theorem sextant_vertices_closed_regions (a b c : R) :
  0 <= a -> 0 <= b -> 0 <= c -> a + b + c = 1 ->
  List.length (TernaryGeometry.ternarySextantVertices (Fin a, Fin b, Fin c)) = 27%nat
  /\ forall v,
      In v (TernaryGeometry.ternarySextantVertices (Fin a, Fin b, Fin c)) ->
      exists x y z : R,
        TernaryVertex.p1 v = Fin x /\ TernaryVertex.p2 v = Fin y
        /\ TernaryVertex.p3 v = Fin z
        /\ 0 <= x /\ 0 <= y /\ 0 <= z /\ x + y + z = 1
        /\ Spec.inClosedSextant (TernaryVertex.id v) a b c x y z.
Proof.
  intros Ha Hb Hc Hs. split; [reflexivity |].
  intros v Hv.
  unfold TernaryGeometry.ternarySextantVertices, TernaryGeometry.sextantPolygons in Hv.
  cbn [seq flat_map Nat.sub nth mapi mapiFrom app Num.sub Num.neg Num.add
       Z.of_nat Pos.of_succ_nat Pos.succ] in Hv.
  repeat (destruct Hv as [<- | Hv];
          [ cbn [TernaryVertex.p1 TernaryVertex.p2 TernaryVertex.p3 TernaryVertex.id];
            do 3 eexists; (split; [reflexivity |]); (split; [reflexivity |]);
            (split; [reflexivity |]);
            (split; [lra |]); (split; [lra |]); (split; [lra |]); (split; [lra |])
          | ]);
    try contradiction.
  all: first
         [ exists true, false, false; split; [reflexivity | cbn; repeat split; lra]
         | exists true, true, false; split; [reflexivity | cbn; repeat split; lra]
         | exists false, true, false; split; [reflexivity | cbn; repeat split; lra]
         | exists false, true, true; split; [reflexivity | cbn; repeat split; lra]
         | exists false, false, true; split; [reflexivity | cbn; repeat split; lra]
         | exists true, false, true; split; [reflexivity | cbn; repeat split; lra] ].
Qed.

Lemma sextant_vertices_closed_regions_witness :
  List.length (TernaryGeometry.ternarySextantVertices (Fin (1/2), Fin (1/4), Fin (1/4)))
  = 27%nat.
Proof.
  apply (sextant_vertices_closed_regions (1/2) (1/4) (1/4)); lra.
Defined.

(** * The colour conversion *)

(** ** Finite values *)

Lemma finite_add (a b : num) :
  Num.isFinite a = true -> Num.isFinite b = true -> Num.isFinite (Num.add a b) = true.
Proof. destruct a, b; cbn; congruence. Qed.

Lemma finite_sub (a b : num) :
  Num.isFinite a = true -> Num.isFinite b = true -> Num.isFinite (Num.sub a b) = true.
Proof. destruct a, b; cbn; congruence. Qed.

Lemma finite_mul (a b : num) :
  Num.isFinite a = true -> Num.isFinite b = true -> Num.isFinite (Num.mul a b) = true.
Proof. destruct a, b; cbn; congruence. Qed.

Lemma finite_neg (a : num) :
  Num.isFinite a = true -> Num.isFinite (Num.neg a) = true.
Proof. destruct a; cbn; congruence. Qed.

Lemma finite_div (a : num) (c : R) :
  c <> 0 -> Num.isFinite a = true -> Num.isFinite (Num.div a (Fin c)) = true.
Proof.
  intros Hc Ha. destruct a as [r | | |]; try discriminate.
  now rewrite div_fin.
Qed.

Lemma finite_rem (a : num) (c : R) :
  c <> 0 -> Num.isFinite a = true -> Num.isFinite (Num.rem a (Fin c)) = true.
Proof.
  intros Hc Ha. destruct a as [r | | |]; try discriminate.
  cbn. now rewrite Reqb_false.
Qed.

Lemma finite_cos (a : num) :
  Num.isFinite a = true -> Num.isFinite (Math.cos a) = true.
Proof. destruct a; cbn; congruence. Qed.

Lemma finite_sin (a : num) :
  Num.isFinite a = true -> Num.isFinite (Math.sin a) = true.
Proof. destruct a; cbn; congruence. Qed.

Lemma finite_min2 (a b : num) :
  Num.isFinite a = true -> Num.isFinite b = true -> Num.isFinite (Math.min2 a b) = true.
Proof.
  destruct a, b; try discriminate. intros _ _. unfold Math.min2.
  now destruct (Num.lt _ _).
Qed.

Lemma finite_max2 (a b : num) :
  Num.isFinite a = true -> Num.isFinite b = true -> Num.isFinite (Math.max2 a b) = true.
Proof.
  destruct a, b; try discriminate. intros _ _. unfold Math.max2.
  now destruct (Num.lt _ _).
Qed.

Lemma finite_if (c : bool) (a b : num) :
  Num.isFinite a = true -> Num.isFinite b = true ->
  Num.isFinite (if c then a else b) = true.
Proof. now destruct c. Qed.

Lemma finite_cube (t : num) :
  Num.isFinite t = true -> Num.isFinite (Math.pow t (Fin 3)) = true.
Proof.
  destruct t as [r | | |]; try discriminate. intros _. unfold Math.pow.
  rewrite (Reqb_false 3 0) by lra.
  destruct (Num.Reqb r 0); [now rewrite (Rltb_true 0 3) by lra |].
  destruct (Num.Rltb 0 r); [reflexivity |].
  assert (E : Math.isInteger 3 = true).
  { unfold Math.isInteger. apply Reqb_true. now rewrite ZfloorZ. }
  now rewrite E.
Qed.

Lemma finite_gamma (v : num) :
  Num.isFinite v = true ->
  Num.isFinite
    (if Num.gt v (Fin 0.0031308)
     then Num.sub (Num.mul (Fin 1.055) (Math.pow v (Num.div (Fin 1) (Fin 2.4))))
                  (Fin 0.055)
     else Num.mul (Fin 12.92) v) = true.
Proof.
  destruct v as [r | | |]; try discriminate. intros _.
  destruct (Num.gt (Fin r) (Fin 0.0031308)) eqn:E; [| reflexivity].
  apply gt_fin in E. rewrite div_fin by lra. unfold Math.pow.
  rewrite (Reqb_false (1 / 2.4) 0) by lra.
  rewrite (Reqb_false r 0) by lra. rewrite (Rltb_true 0 r) by lra. reflexivity.
Qed.

Ltac finite :=
  repeat match goal with
    | |- Num.isFinite (Fin _) = true => reflexivity
    | |- Num.isFinite Math.PI = true => reflexivity
    | |- Num.isFinite (Num.add _ _) = true => apply finite_add
    | |- Num.isFinite (Num.sub _ _) = true => apply finite_sub
    | |- Num.isFinite (Num.mul _ _) = true => apply finite_mul
    | |- Num.isFinite (Num.neg _) = true => apply finite_neg
    | |- Num.isFinite (Num.div _ (Fin _)) = true => apply finite_div; [lra |]
    | |- Num.isFinite (Num.rem _ (Fin _)) = true => apply finite_rem; [lra |]
    | |- Num.isFinite (Math.cos _) = true => apply finite_cos
    | |- Num.isFinite (Math.sin _) = true => apply finite_sin
    | |- Num.isFinite (Math.min2 _ _) = true => apply finite_min2
    | |- Num.isFinite (Math.max2 _ _) = true => apply finite_max2
    | |- Num.isFinite (Math.pow _ (Fin 3)) = true => apply finite_cube
    | |- Num.isFinite (if Num.gt _ (Fin 0.0031308) then _ else _) = true =>
        apply finite_gamma
    | |- Num.isFinite (if _ then _ else _) = true => apply finite_if
    end.

(** ** Bytes *)

Lemma hexDigits_byte (n : Z) :
  (0 <= n <= 255)%Z ->
  (let hex := if (n <? 0)%Z
              then ("-" ++ ColorMapping.hexDigits (Z.to_nat (- n)) (- n)%Z)%string
              else ColorMapping.hexDigits (Z.to_nat n) n in
   if (String.length hex =? 1)%nat then ("0" ++ hex)%string else hex)
  = Spec.hexByte n.
Proof.
  intros Hn.
  assert (H : forallb
                (fun n : Z =>
                   String.eqb
                     (let hex := if (n <? 0)%Z
                                 then ("-" ++ ColorMapping.hexDigits (Z.to_nat (- n)) (- n)%Z)%string
                                 else ColorMapping.hexDigits (Z.to_nat n) n in
                      if (String.length hex =? 1)%nat then ("0" ++ hex)%string else hex)
                     (Spec.hexByte n))
                (map Z.of_nat (seq 0 256)) = true) by (vm_compute; reflexivity).
  rewrite forallb_forall in H. apply String.eqb_eq. apply H.
  apply in_map_iff. exists (Z.to_nat n). split; [lia |]. apply in_seq. lia.
Qed.

Lemma clamp_byte (v : num) :
  Num.isFinite v = true ->
  exists n : Z,
    (0 <= n <= 255)%Z
    /\ Math.round (Num.mul (Math.max2 (Fin 0) (Math.min2 (Fin 1) v)) (Fin 255))
       = Fin (IZR n).
Proof.
  destruct v as [r | | |]; try discriminate. intros _.
  unfold Math.min2. cbn [Num.lt].
  destruct (Num.Rltb r 1) eqn:E1.
  - apply Rltb_spec in E1. unfold Math.max2. cbn [Num.lt].
    destruct (Num.Rltb 0 r) eqn:E0.
    + apply Rltb_spec in E0. cbn [Num.mul Math.round].
      exists (Zfloor (r * 255 + / 2)). split; [| reflexivity].
      pose proof (Zfloor_bound (r * 255 + / 2)) as [Hlo Hhi].
      split.
      * apply (Zfloor_lub 0). lra.
      * assert (H : (Zfloor (r * 255 + / 2) < 256)%Z) by (apply lt_IZR; lra).
        lia.
    + cbn [Num.mul Math.round]. exists 0%Z. split; [lia |].
      replace (0 * 255 + / 2) with (IZR 0 + / 2) by lra.
      apply (f_equal Fin), f_equal. apply Zfloor_eq. lra.
  - unfold Math.max2. cbn [Num.lt]. rewrite (Rltb_true 0 1) by lra.
    cbn [Num.mul Math.round]. exists 255%Z. split; [lia |].
    apply (f_equal Fin), f_equal. apply Zfloor_eq. lra.
Qed.

Lemma toHex_byte (v : num) :
  Num.isFinite v = true ->
  exists n : Z,
    (0 <= n <= 255)%Z
    /\ (let hex :=
          ColorMapping.toString16
            (Math.round (Num.mul (Math.max2 (Fin 0) (Math.min2 (Fin 1) v)) (Fin 255))) in
        if (String.length hex =? 1)%nat then ("0" ++ hex)%string else hex)
       = Spec.hexByte n.
Proof.
  intros Hv. destruct (clamp_byte v Hv) as (n & Hn & ->).
  exists n. split; [exact Hn |].
  unfold ColorMapping.toString16. rewrite ZfloorZ. now apply hexDigits_byte.
Qed.

Lemma length_append (s t : string) :
  String.length (s ++ t)%string = (String.length s + String.length t)%nat.
Proof. induction s as [| ch s IH]; cbn; [reflexivity | now rewrite IH]. Qed.

Lemma hclToHex_bytes (h c l : R) :
  exists r g b : Z,
    (0 <= r <= 255)%Z /\ (0 <= g <= 255)%Z /\ (0 <= b <= 255)%Z
    /\ ColorMapping.hclToHex (Fin h) (Fin c) (Fin l)
       = ("#" ++ Spec.hexByte r ++ Spec.hexByte g ++ Spec.hexByte b)%string.
Proof.
  remember (ColorMapping.hclToHex (Fin h) (Fin c) (Fin l)) as s eqn:Es.
  unfold ColorMapping.hclToHex in Es. cbv zeta beta in Es.
  repeat match type of Es with
    | context [ColorMapping.toString16
                 (Math.round (Num.mul (Math.max2 _ (Math.min2 _ ?v)) _))] =>
        let n := fresh "n" in
        let Hn := fresh "Hn" in
        let E := fresh "E" in
        let Hfin := fresh "Hfin" in
        assert (Hfin : Num.isFinite v = true) by finite;
        destruct (toHex_byte v Hfin) as (n & Hn & E);
        cbv zeta in E; rewrite E in Es; clear E Hfin
    end.
  eauto 10.
Qed.

(** For finite [h], [c] and [l], [hclToHex] returns [#] followed by three
    bytes in two lower-case hexadecimal digits each: seven characters. *)
Theorem hclToHex_format (h c l : R) :
  exists r g b : Z,
    (0 <= r <= 255)%Z /\ (0 <= g <= 255)%Z /\ (0 <= b <= 255)%Z
    /\ ColorMapping.hclToHex (Fin h) (Fin c) (Fin l)
       = ("#" ++ Spec.hexByte r ++ Spec.hexByte g ++ Spec.hexByte b)%string
    /\ String.length (ColorMapping.hclToHex (Fin h) (Fin c) (Fin l)) = 7%nat.
Proof.
  assert (Hlen : forall n : Z, (0 <= n <= 255)%Z -> String.length (Spec.hexByte n) = 2%nat).
  { intros n Hn.
    assert (H : forallb (fun n : Z => (String.length (Spec.hexByte n) =? 2)%nat)
                        (map Z.of_nat (seq 0 256)) = true) by (vm_compute; reflexivity).
    rewrite forallb_forall in H. apply Nat.eqb_eq. apply H.
    apply in_map_iff. exists (Z.to_nat n). split; [lia |]. apply in_seq. lia. }
  destruct (hclToHex_bytes h c l) as (r & g & b & Hr & Hg & Hb & E). exists r, g, b.
  repeat (split; [assumption |]). rewrite E.
  cbn [String.append String.length]. rewrite !length_append.
  now rewrite !Hlen.
Qed.

(** * The ranges of the reported hue, chroma and lightness *)

Lemma atan_nonpos (x : R) : x <= 0 -> atan x <= 0.
Proof.
  intros [Hx | ->]; [| rewrite atan_0; lra].
  pose proof (atan_increasing x 0 Hx) as H. rewrite atan_0 in H. lra.
Qed.

Lemma atan_pos (x : R) : 0 < x -> 0 < atan x.
Proof.
  intros Hx. pose proof (atan_increasing 0 x Hx) as H. now rewrite atan_0 in H.
Qed.

Lemma atan2_range (b a : R) :
  exists t : R, Math.atan2 (Fin b) (Fin a) = Fin t /\ - PI <= t <= PI.
Proof.
  pose proof PI_RGT_0 as Hpi. pose proof (atan_bound (b / a)) as [Hlo Hhi].
  unfold Math.atan2.
  destruct (Num.Rltb 0 a) eqn:Ea.
  { eexists. split; [reflexivity | lra]. }
  destruct (Num.Rltb a 0) eqn:Ea'.
  { apply Rltb_spec in Ea'.
    assert (Hinv : / a < 0) by now apply Rinv_lt_0_compat.
    destruct (Num.Rltb b 0) eqn:Eb.
    - apply Rltb_spec in Eb.
      assert (Hq : 0 < b / a) by (unfold Rdiv; nra).
      pose proof (atan_pos _ Hq). eexists. split; [reflexivity | lra].
    - apply Bool.not_true_iff_false in Eb. rewrite Rltb_spec in Eb.
      assert (Hq : b / a <= 0) by (unfold Rdiv; nra).
      pose proof (atan_nonpos _ Hq). eexists. split; [reflexivity | lra]. }
  destruct (Num.Rltb 0 b); [eexists; split; [reflexivity | lra] |].
  destruct (Num.Rltb b 0); eexists; (split; [reflexivity | lra]).
Qed.

(** The hue of [colorMapTricolore]: the angle in degrees, shifted by a
    turn and reduced modulo 360. *)
Lemma hue_range (im re : R) :
  exists hh : R,
    Num.rem
      (Num.add (Num.div (Num.mul (Math.atan2 (Fin im) (Fin re)) (Fin 180)) Math.PI)
               (Fin 360))
      (Fin 360) = Fin hh
    /\ 0 <= hh < 360.
Proof.
  pose proof PI_RGT_0 as Hpi.
  destruct (atan2_range im re) as (t & -> & Hlo & Hhi).
  unfold Math.PI. cbn [Num.mul]. rewrite div_fin by lra. cbn [Num.add Num.rem].
  rewrite (Reqb_false 360 0) by lra.
  set (u := t * 180 / PI + 360).
  assert (Hu : 180 <= u <= 540).
  { assert (Hinv : 0 < / PI) by now apply Rinv_0_lt_compat.
    assert (Hone : PI * / PI = 1) by (apply Rinv_r; lra).
    assert (Hq : -1 <= t * / PI <= 1) by (split; nra).
    subst u. unfold Rdiv.
    replace (t * 180 * / PI) with (t * / PI * 180) by ring. lra. }
  eexists. split; [reflexivity |].
  unfold Num.Rtrunc.
  destruct (Rlt_dec (u / 360) 0) as [Hneg | _]; [lra |].
  destruct (Rlt_dec u 360) as [Hlt | Hge].
  - rewrite (Zfloor_eq 0 (u / 360)) by (cbn; lra). lra.
  - rewrite (Zfloor_eq 1 (u / 360)) by (cbn; lra). lra.
Qed.

(** A convex combination of three points of the unit circle lies in the
    unit disc. *)
Lemma convex_norm (x y z a0 b0 a1 b1 a2 b2 : R) :
  0 <= x -> 0 <= y -> 0 <= z -> x + y + z = 1 ->
  a0 * a0 + b0 * b0 = 1 -> a1 * a1 + b1 * b1 = 1 -> a2 * a2 + b2 * b2 = 1 ->
  (x * a0 + y * a1 + z * a2) * (x * a0 + y * a1 + z * a2)
  + (x * b0 + y * b1 + z * b2) * (x * b0 + y * b1 + z * b2) <= 1.
Proof.
  intros Hx Hy Hz Hs H0 H1 H2.
  assert (D01 : a0 * a1 + b0 * b1 <= 1)
    by (pose proof (sum_squares_nonneg (a0 - a1) (b0 - b1)); lra).
  assert (D02 : a0 * a2 + b0 * b2 <= 1)
    by (pose proof (sum_squares_nonneg (a0 - a2) (b0 - b2)); lra).
  assert (D12 : a1 * a2 + b1 * b2 <= 1)
    by (pose proof (sum_squares_nonneg (a1 - a2) (b1 - b2)); lra).
  assert (P01 : x * y * (a0 * a1 + b0 * b1) <= x * y * 1)
    by (apply Rmult_le_compat_l; [now apply Rmult_le_pos | exact D01]).
  assert (P02 : x * z * (a0 * a2 + b0 * b2) <= x * z * 1)
    by (apply Rmult_le_compat_l; [now apply Rmult_le_pos | exact D02]).
  assert (P12 : y * z * (a1 * a2 + b1 * b2) <= y * z * 1)
    by (apply Rmult_le_compat_l; [now apply Rmult_le_pos | exact D12]).
  replace ((x * a0 + y * a1 + z * a2) * (x * a0 + y * a1 + z * a2)
           + (x * b0 + y * b1 + z * b2) * (x * b0 + y * b1 + z * b2))
    with (x * x * (a0 * a0 + b0 * b0) + y * y * (a1 * a1 + b1 * b1)
          + z * z * (a2 * a2 + b2 * b2)
          + 2 * (x * y * (a0 * a1 + b0 * b1))
          + 2 * (x * z * (a0 * a2 + b0 * b2))
          + 2 * (y * z * (a1 * a2 + b1 * b2))) by ring.
  rewrite H0, H1, H2.
  assert (S : (x + y + z) * (x + y + z) = 1) by (rewrite Hs; ring).
  lra.
Qed.

(** For a point of the simplex, a positive chroma, a non-negative
    lightness and a contrast between 0 and 1, the colour of [tricoloreOf]
    has its hue in [[0, 360)], its chroma in [[0, chroma]] and its
    lightness in [[(1 - contrast) * lightness, lightness]]. *)
Lemma tricoloreOf_ranges (P : list (list jsval)) (N : list (option TernaryPoint))
  (hue chroma lightness contrast x y z : R) (i : nat) (n : TernaryPoint) :
  0 < chroma -> 0 <= lightness -> 0 <= contrast <= 1 ->
  0 <= x -> 0 <= y -> 0 <= z -> x + y + z = 1 ->
  nth_error N i = Some (Some n) ->
  exists r hh cc ll,
    ColorMapping.tricoloreOf P N (Fin hue) (Fin chroma) (Fin lightness) (Fin contrast)
                             (Some (Fin x, Fin y, Fin z)) i = Returns r
    /\ TricoloreResult.h r = Some (Fin hh)
    /\ TricoloreResult.c r = Some (Fin cc)
    /\ TricoloreResult.l r = Some (Fin ll)
    /\ TricoloreResult.rgb r = Some (ColorMapping.hclToHex (Fin hh) (Fin cc) (Fin ll))
    /\ 0 <= hh < 360
    /\ 0 <= cc <= chroma
    /\ (1 - contrast) * lightness <= ll <= lightness.
Proof.
  intros Hch Hl Hct Hx Hy Hz Hs Hn. destruct n as [[n0 n1] n2].
  unfold ColorMapping.tricoloreOf. rewrite (nth_of_nth_error _ _ None _ Hn).
  cbn [Num.add]. rewrite !angle_fin.
  cbn [Num.mul Math.cos Math.sin fold_left fst snd Num.add].
  match goal with
  | |- context [Math.atan2 (Fin ?im) (Fin ?re)] =>
      set (vim := im); set (vre := re)
  end.
  destruct (hue_range vim vre) as (hh & Eh & Hh). rewrite Eh.
  rewrite (sqrt_fin (vre * vre + vim * vim) (sum_squares_nonneg vre vim)).
  set (c := sqrt (vre * vre + vim * vim)).
  cbn [Num.mul]. rewrite div_fin by lra. cbn [Num.add Num.sub Num.neg Num.mul].
  do 4 eexists. split; [reflexivity |].
  cbn [TricoloreResult.h TricoloreResult.c TricoloreResult.l TricoloreResult.rgb].
  do 4 (split; [reflexivity |]). split; [exact Hh |].
  assert (Hc0 : 0 <= c) by apply sqrt_pos.
  assert (Hc1 : c <= chroma).
  { assert (Hsq : c * c = vre * vre + vim * vim)
      by (apply sqrt_sqrt, sum_squares_nonneg).
    pose proof (convex_norm x y z
                  (cos (hue * PI / 180)) (sin (hue * PI / 180))
                  (cos ((hue + 120) * PI / 180)) (sin ((hue + 120) * PI / 180))
                  (cos ((hue + 240) * PI / 180)) (sin ((hue + 240) * PI / 180))
                  Hx Hy Hz Hs) as Hn1.
    assert (T : forall t, cos t * cos t + sin t * sin t = 1).
    { intros t. pose proof (sin2_cos2 t) as H. unfold Rsqr in H. lra. }
    specialize (Hn1 (T _) (T _) (T _)).
    assert (Hle : vre * vre + vim * vim <= chroma * chroma).
    { subst vre vim.
      match goal with
      | |- ?lhs <= _ =>
          replace lhs with
          (chroma * chroma *
           ((x * cos (hue * PI / 180) + y * cos ((hue + 120) * PI / 180)
             + z * cos ((hue + 240) * PI / 180))
            * (x * cos (hue * PI / 180) + y * cos ((hue + 120) * PI / 180)
               + z * cos ((hue + 240) * PI / 180))
            + (x * sin (hue * PI / 180) + y * sin ((hue + 120) * PI / 180)
               + z * sin ((hue + 240) * PI / 180))
              * (x * sin (hue * PI / 180) + y * sin ((hue + 120) * PI / 180)
                 + z * sin ((hue + 240) * PI / 180)))) by ring
      end.
      assert (Hcc : 0 <= chroma * chroma) by nra.
      nra. }
    destruct (Rle_lt_dec c chroma) as [Hok | Hbad]; [exact Hok |].
    exfalso. nra. }
  set (w := c * contrast / chroma).
  assert (Hw : 0 <= w <= contrast).
  { subst w. assert (Hinv : 0 < / chroma) by now apply Rinv_0_lt_compat.
    assert (Hq : 0 <= c * / chroma <= 1).
    { split; [nra |]. apply (Rmult_le_reg_r chroma); [exact Hch |].
      rewrite Rmult_assoc, Rinv_l by lra. lra. }
    unfold Rdiv. replace (c * contrast * / chroma) with (c * / chroma * contrast) by ring.
    split; nra. }
  split; split; nra.
Qed.

(** For a composition of three finite non-negative numbers that are not
    all zero and whose sum does not exceed 1e308, a centre of components
    between 1e-300 and 1e300, a hue of at most 1e300 in absolute value, a
    chroma between 1e-150 and 1e150, a lightness between 0 and 1e300, a
    contrast between 0 and 1 and a spread between 0 and 600, on the
    continuous scale or on an integer mesh, the result of
    [colorMapTricolore] has a hue in [[0, 360)], a chroma between 0 and the
    chroma parameter, a lightness between [(1 - contrast) * lightness] and
    the lightness parameter, and as its colour [hclToHex] of these three.
    The bounds on the magnitudes are those within which the doubles of the
    source stay finite and the three powers of [powerScale] do not all
    vanish. *)
Theorem colour_ranges (P : list (list jsval)) (i : nat) (a b c : R)
  (c0 c1 c2 : R) (breaks : num) (hue chroma lightness contrast spread : R) :
  nth_error P i = Some [JNum (Fin a); JNum (Fin b); JNum (Fin c)] ->
  0 <= a -> 0 <= b -> 0 <= c -> 0 < a + b + c <= 1e308 ->
  Spec.within 1e-300 1e300 c0 -> Spec.within 1e-300 1e300 c1 ->
  Spec.within 1e-300 1e300 c2 ->
  Rabs hue <= 1e300 ->
  1e-150 <= chroma <= 1e150 -> 0 <= lightness <= 1e300 -> 0 <= contrast <= 1 ->
  0 <= spread <= 600 ->
  (~ (exists x : R, breaks = Fin x /\ x < 100)
   \/ exists k : Z, (1 <= k < 100)%Z /\ breaks = Fin (IZR k)) ->
  exists rs r hh cc ll,
    ColorMapping.colorMapTricolore P (Fin c0, Fin c1, Fin c2) breaks
      (Fin hue) (Fin chroma) (Fin lightness) (Fin contrast) (Fin spread) = Returns rs
    /\ nth_error rs i = Some r
    /\ TricoloreResult.h r = Some (Fin hh)
    /\ TricoloreResult.c r = Some (Fin cc)
    /\ TricoloreResult.l r = Some (Fin ll)
    /\ TricoloreResult.rgb r = Some (ColorMapping.hclToHex (Fin hh) (Fin cc) (Fin ll))
    /\ 0 <= hh < 360
    /\ 0 <= cc <= chroma
    /\ (1 - contrast) * lightness <= ll <= lightness.
Proof.
  unfold Spec.within.
  intros Hp Ha Hb Hc [Hs _] [H0 _] [H1 _] [H2 _] _ [Hch' _] [Hl _] Hct [Hsp _] Hbr.
  assert (Hch : 0 < chroma) by lra.
  assert (P0 : 0 < c0) by lra. assert (P1 : 0 < c1) by lra.
  assert (P2 : 0 < c2) by lra.
  destruct (scaled_simplex P i a b c c0 c1 c2 breaks (Fin hue) (Fin chroma)
              (Fin lightness) (Fin contrast) spread Hp Ha Hb Hc Hs P0 P1 P2 Hsp Hbr)
    as (rs & r & q0 & x & y & z & Hrs & _ & Hr & HN & Hx & Hy & Hz & Hsum & Hof).
  destruct (tricoloreOf_ranges P (CompositionUtils.close P) hue chroma lightness
              contrast x y z i q0 Hch Hl Hct Hx Hy Hz Hsum HN)
    as (r' & hh & cc & ll & Hr' & Hrest).
  pose proof (eq_trans (eq_sym Hof) Hr') as E. injection E as ->.
  exists rs, r', hh, cc, ll. split; [exact Hrs |]. split; [exact Hr | exact Hrest].
Qed.

Lemma colour_ranges_witness :
  exists rs r hh cc ll,
    ColorMapping.colorMapTricolore [[JNum (Fin 2); JNum (Fin 1); JNum (Fin 1)]]
      (Fin (1/3), Fin (1/3), Fin (1/3)) (Fin (IZR 4))
      (Fin 80) (Fin 140) (Fin 80) (Fin (2/5)) (Fin 1) = Returns rs
    /\ nth_error rs 0 = Some r
    /\ TricoloreResult.h r = Some (Fin hh)
    /\ TricoloreResult.c r = Some (Fin cc)
    /\ TricoloreResult.l r = Some (Fin ll)
    /\ TricoloreResult.rgb r = Some (ColorMapping.hclToHex (Fin hh) (Fin cc) (Fin ll))
    /\ 0 <= hh < 360
    /\ 0 <= cc <= 140
    /\ (1 - 2/5) * 80 <= ll <= 80.
Proof.
  apply (colour_ranges [[JNum (Fin 2); JNum (Fin 1); JNum (Fin 1)]] 0 2 1 1
           (1/3) (1/3) (1/3) (Fin (IZR 4)) 80 140 80 (2/5) 1);
    try reflexivity; try (unfold Spec.within; lra).
  - rewrite Rabs_right; lra.
  - right. exists 4%Z. split; [lia | reflexivity].
Defined.

(** * The centre of the scale *)

(** Three hues a third of a turn apart cancel. *)
Lemma equidistant_hues (hue : R) :
  cos (hue * PI / 180) + cos ((hue + 120) * PI / 180) + cos ((hue + 240) * PI / 180) = 0
  /\ sin (hue * PI / 180) + sin ((hue + 120) * PI / 180) + sin ((hue + 240) * PI / 180) = 0.
Proof.
  set (t := hue * PI / 180).
  replace ((hue + 120) * PI / 180) with (t + 2 * (PI / 3)) by (subst t; field).
  replace ((hue + 240) * PI / 180) with (t + PI / 3 + PI) by (subst t; field).
  rewrite neg_cos, neg_sin, !cos_plus, !sin_plus.
  rewrite cos_2PI3, sin_2PI3, cos_PI3, sin_PI3. split; field.
Qed.

Lemma tricoloreOf_centre (P : list (list jsval)) (N : list (option TernaryPoint))
  (hue chroma lightness contrast : R) (i : nat) (n : TernaryPoint) :
  chroma <> 0 ->
  nth_error N i = Some (Some n) ->
  exists r,
    ColorMapping.tricoloreOf P N (Fin hue) (Fin chroma) (Fin lightness) (Fin contrast)
                             (Some (Fin (1/3), Fin (1/3), Fin (1/3))) i = Returns r
    /\ TricoloreResult.c r = Some (Fin 0)
    /\ TricoloreResult.l r = Some (Fin ((1 - contrast) * lightness)).
Proof.
  intros Hch Hn. destruct n as [[n0 n1] n2].
  unfold ColorMapping.tricoloreOf. rewrite (nth_of_nth_error _ _ None _ Hn).
  eexists. split; [reflexivity |].
  cbn [TricoloreResult.c TricoloreResult.l].
  cbn [Num.add]. rewrite !angle_fin.
  cbn [Num.mul Math.cos Math.sin fold_left fst snd Num.add].
  destruct (equidistant_hues hue) as [Hcos Hsin].
  match goal with
  | |- context [Math.sqrt (Fin (?re * ?re + ?im * ?im))] =>
      replace re
        with (1 / 3 * chroma *
              (cos (hue * PI / 180) + cos ((hue + 120) * PI / 180)
               + cos ((hue + 240) * PI / 180))) by ring;
      replace im
        with (1 / 3 * chroma *
              (sin (hue * PI / 180) + sin ((hue + 120) * PI / 180)
               + sin ((hue + 240) * PI / 180))) by ring
  end.
  rewrite Hcos, Hsin.
  replace (1 / 3 * chroma * 0 * (1 / 3 * chroma * 0)
           + 1 / 3 * chroma * 0 * (1 / 3 * chroma * 0)) with 0 by ring.
  rewrite (sqrt_fin 0) by lra. rewrite sqrt_0.
  cbn [Num.mul]. rewrite div_fin by exact Hch.
  cbn [Num.add Num.sub Num.neg Num.mul].
  split; do 2 f_equal; field; exact Hch.
Qed.

(** On the continuous scale, a composition proportional to the centre is
    grey: whatever the hue, the contrast and the finite spread, its chroma is
    0 and its lightness is [(1 - contrast) * lightness]. *)
Theorem centre_is_grey (P : list (list jsval)) (i : nat) (t c0 c1 c2 : R)
  (breaks : num) (hue chroma lightness contrast spread : R) :
  nth_error P i = Some [JNum (Fin (t * c0)); JNum (Fin (t * c1)); JNum (Fin (t * c2))] ->
  0 < t -> 0 < c0 -> 0 < c1 -> 0 < c2 -> chroma <> 0 ->
  ~ (exists x : R, breaks = Fin x /\ x < 100) ->
  exists rs r,
    ColorMapping.colorMapTricolore P (Fin c0, Fin c1, Fin c2) breaks
      (Fin hue) (Fin chroma) (Fin lightness) (Fin contrast) (Fin spread) = Returns rs
    /\ nth_error rs i = Some r
    /\ TricoloreResult.c r = Some (Fin 0)
    /\ TricoloreResult.l r = Some (Fin ((1 - contrast) * lightness)).
Proof.
  intros Hp Ht H0 H1 H2 Hch Hbr.
  destruct (colorMapTricolore_elements P (Fin c0) (Fin c1) (Fin c2) breaks
              (Fin hue) (Fin chroma) (Fin lightness) (Fin contrast) (Fin spread))
    as (f & rs & Hrs & _ & _ & Hshape & Hel).
  destruct (Hel i _ Hp) as (r & Hr & Hof).
  exists rs, r. split; [exact Hrs |]. split; [exact Hr |].
  destruct (Num.isFinite breaks && Num.lt breaks (Fin 100)) eqn:E.
  { exfalso. apply Hbr. now apply discrete_finite. }
  subst f.
  assert (Hsum : 0 < t * c0 + t * c1 + t * c2) by nra.
  set (S := t * c0 + t * c1 + t * c2) in *.
  assert (HN : nth_error (CompositionUtils.close P) i
               = Some (Some (Fin (t * c0 / S), Fin (t * c1 / S), Fin (t * c2 / S)))).
  { rewrite nth_error_close, Hp. cbn [option_map]. subst S.
    now rewrite closePoint_fin by lra. }
  rewrite closePoint_fin in Hof by (fold S; lra). fold S in Hof.
  rewrite !div_fin in Hof by lra.
  assert (Hq : 0 < t / S) by (apply Rdiv_lt_0_compat; lra).
  assert (E0 : t * c0 / S * (1 / c0) = t / S) by (field; lra).
  assert (E1 : t * c1 / S * (1 / c1) = t / S) by (field; lra).
  assert (E2 : t * c2 / S * (1 / c2) = t / S) by (field; lra).
  rewrite perturbePoint_fin in Hof by (rewrite E0, E1, E2; lra).
  rewrite E0, E1, E2 in Hof.
  replace (t / S / (0 + t / S + t / S + t / S)) with (1 / 3) in Hof by (field; lra).
  rewrite powerScalePoint_pos in Hof by lra.
  pose proof (exp_pos (spread * ln (1 / 3))) as Hpow. fold (Rpower (1 / 3) spread) in Hpow.
  replace (Rpower (1 / 3) spread
           / (0 + Rpower (1 / 3) spread + Rpower (1 / 3) spread + Rpower (1 / 3) spread))
    with (1 / 3) in Hof by (field; lra).
  destruct (tricoloreOf_centre P (CompositionUtils.close P) hue chroma lightness
              contrast i _ Hch HN) as (r' & Hr' & Hc & Hl).
  pose proof (eq_trans (eq_sym Hof) Hr') as Eq. injection Eq as ->.
  split; [exact Hc | exact Hl].
Qed.

Lemma centre_is_grey_witness :
  exists rs r,
    ColorMapping.colorMapTricolore [[JNum (Fin (2 * (1/2))); JNum (Fin (2 * (1/4)));
                                     JNum (Fin (2 * (1/4)))]]
      (Fin (1/2), Fin (1/4), Fin (1/4)) PInf
      (Fin 80) (Fin 140) (Fin 80) (Fin (2/5)) (Fin 1) = Returns rs
    /\ nth_error rs 0 = Some r
    /\ TricoloreResult.c r = Some (Fin 0)
    /\ TricoloreResult.l r = Some (Fin ((1 - 2/5) * 80)).
Proof.
  apply (centre_is_grey [[JNum (Fin (2 * (1/2))); JNum (Fin (2 * (1/4)));
                          JNum (Fin (2 * (1/4)))]] 0 2 (1/2) (1/4) (1/4)
           PInf 80 140 80 (2/5) 1);
    [reflexivity | lra | lra | lra | lra | lra |].
  intros (x & E & _). discriminate.
Defined.

(** * The entry points *)

Lemma defaultCenter_thirds :
  ColorMapping.defaultCenter = (Fin (1/3), Fin (1/3), Fin (1/3)).
Proof. unfold ColorMapping.defaultCenter. now rewrite div_fin by lra. Qed.

Lemma proper_results (data : list (list jsval)) (rs : list TricoloreResult.t) :
  Forall Spec.properElement data ->
  ColorMapping.colorMapTricolore data (Fin (1/3), Fin (1/3), Fin (1/3)) (Fin (IZR 4))
    (Fin 80) (Fin 140) (Fin 80) (Fin 0.4) (Fin 1) = Returns rs ->
  List.length rs = List.length data
  /\ forall r, In r rs ->
       exists x y z : Z,
         (0 <= x <= 255)%Z /\ (0 <= y <= 255)%Z /\ (0 <= z <= 255)%Z
         /\ TricoloreResult.rgb r
            = Some ("#" ++ Spec.hexByte x ++ Spec.hexByte y ++ Spec.hexByte z)%string.
Proof.
  intros Hall Hrs.
  destruct (colorMapTricolore_elements data (Fin (1/3)) (Fin (1/3)) (Fin (1/3))
              (Fin (IZR 4)) (Fin 80) (Fin 140) (Fin 80) (Fin 0.4) (Fin 1))
    as (f & rs0 & Hrs0 & Hlen & _ & _ & _).
  pose proof (eq_trans (eq_sym Hrs) Hrs0) as E. injection E as <-.
  split; [exact Hlen |].
  intros r Hin. apply In_nth_error in Hin. destruct Hin as (i & Hi).
  assert (Hlt : (i < List.length data)%nat)
    by (rewrite <- Hlen; apply nth_error_Some; congruence).
  destruct (nth_error data i) as [p |] eqn:Hp;
    [| apply nth_error_None in Hp; lia].
  rewrite Forall_forall in Hall.
  destruct (Hall p (nth_error_In _ _ Hp)) as (a & b & c & -> & Ha & Hb & Hc & Hs).
  assert (Hbr : ~ (exists x : R, Fin (IZR 4) = Fin x /\ x < 100)
                \/ exists k : Z, (1 <= k < 100)%Z /\ Fin (IZR 4) = Fin (IZR k))
    by (right; exists 4%Z; split; [lia | reflexivity]).
  assert (Hthird : 0 < 1 / 3) by lra.
  assert (Hone : 0 <= 1) by lra.
  destruct (scaled_simplex data i a b c (1/3) (1/3) (1/3) (Fin (IZR 4))
              (Fin 80) (Fin 140) (Fin 80) (Fin 0.4) 1 Hp Ha Hb Hc Hs
              Hthird Hthird Hthird Hone Hbr)
    as (rs' & r' & q0 & x & y & z & Hrs' & _ & Hr' & HN & Hx & Hy & Hz & Hsum & Hof).
  pose proof (eq_trans (eq_sym Hrs) Hrs') as E. injection E as <-.
  rewrite Hi in Hr'. injection Hr' as <-.
  assert (Hch : 0 < 140) by lra.
  assert (Hli : 0 <= 80) by lra.
  assert (Hct : 0 <= 0.4 <= 1) by lra.
  destruct (tricoloreOf_ranges data (CompositionUtils.close data) 80 140 80 0.4
              x y z i q0 Hch Hli Hct Hx Hy Hz Hsum HN)
    as (r' & hh & cc & ll & Hr' & _ & _ & _ & Hrgb & _).
  pose proof (eq_trans (eq_sym Hof) Hr') as E. injection E as ->.
  clear Hr' Hof HN Hx Hy Hz Hsum. clear x y z.
  destruct (hclToHex_bytes hh cc ll) as (x & y & z & Hx & Hy & Hz & Ehex).
  exists x, y, z. repeat (split; [assumption |]). now rewrite Hrgb, Ehex.
Qed.

(** With no option given, [tricolore] returns for data made of
    compositions of three finite non-negative numbers that are not all zero
    one colour per composition, each a [#] followed by three bytes in two
    hexadecimal digits: never [null]. *)
Theorem tricolore_default_colours (data : list (list jsval)) :
  Forall Spec.properElement data ->
  exists cols,
    Index.tricolore data TricoloreOptions.empty = Returns cols
    /\ List.length cols = List.length data
    /\ forall col, In col cols ->
         exists x y z : Z,
           (0 <= x <= 255)%Z /\ (0 <= y <= 255)%Z /\ (0 <= z <= 255)%Z
           /\ col = Some ("#" ++ Spec.hexByte x ++ Spec.hexByte y ++ Spec.hexByte z)%string.
Proof.
  intros Hall. unfold Index.tricolore, TricoloreOptions.empty.
  cbn [Index.orDefault TricoloreOptions.center TricoloreOptions.breaks
       TricoloreOptions.hue TricoloreOptions.chroma TricoloreOptions.lightness
       TricoloreOptions.contrast TricoloreOptions.spread].
  rewrite defaultCenter_thirds.
  destruct (colorMapTricolore_elements data (Fin (1/3)) (Fin (1/3)) (Fin (1/3))
              (Fin (IZR 4)) (Fin 80) (Fin 140) (Fin 80) (Fin 0.4) (Fin 1))
    as (f & rs & Hrs & _).
  destruct (proper_results data rs Hall Hrs) as (Hlen & Hcols).
  rewrite Hrs. cbn [bind]. eexists. split; [reflexivity |].
  split; [now rewrite length_map |].
  intros col Hin. apply in_map_iff in Hin. destruct Hin as (r & <- & Hr).
  exact (Hcols r Hr).
Qed.

Lemma tricolore_default_colours_witness :
  exists cols,
    Index.tricolore [[JNum (Fin 2); JNum (Fin 1); JNum (Fin 1)]] TricoloreOptions.empty
    = Returns cols
    /\ List.length cols = 1%nat.
Proof.
  destruct (tricolore_default_colours [[JNum (Fin 2); JNum (Fin 1); JNum (Fin 1)]])
    as (cols & Hcols & Hlen & _).
  - constructor; [| constructor].
    exists 2, 1, 1. split; [reflexivity |]. repeat split; lra.
  - exists cols. split; [exact Hcols | exact Hlen].
Defined.


Lemma sextant_results (data : list (list jsval)) (center : TernaryPoint)
  (values : list string) :
  List.length values = 6%nat ->
  exists rs,
    ColorMapping.colorMapSextant data center values = Returns rs
    /\ List.length rs = List.length data
    /\ forall r, In r rs ->
         SextantResult.rgb r = None
         \/ exists v, In v values /\ SextantResult.rgb r = Some v.
Proof.
  intros Hlen.
  assert (Hrs : exists rs, ColorMapping.colorMapSextant data center values = Returns rs
                           /\ List.length rs = List.length data).
  { unfold ColorMapping.colorMapSextant. rewrite Hlen. cbn [Nat.eqb negb].
    eexists. split; [reflexivity |].
    rewrite length_mapi. unfold CompositionUtils.close. apply length_map. }
  destruct Hrs as (rs & Hrs & Hl). exists rs. split; [exact Hrs |].
  split; [exact Hl |].
  intros r Hin. apply In_nth_error in Hin. destruct Hin as (i & Hi).
  assert (Hlt : (i < List.length data)%nat)
    by (rewrite <- Hl; apply nth_error_Some; congruence).
  destruct (nth_error data i) as [p |] eqn:Hp;
    [| apply nth_error_None in Hp; lia].
  destruct (colorMapSextant_cases data center values i p Hlen Hp)
    as (rs' & r' & Hrs' & _ & Hr' & Hshape).
  pose proof (eq_trans (eq_sym Hrs) Hrs') as E. injection E as <-.
  rewrite Hi in Hr'. injection Hr' as <-.
  destruct (CompositionUtils.closePoint p) as [[[n0 n1] n2] |];
    [| subst r; now left].
  destruct (sextantPoint_range center (Some (n0, n1, n2))) as [En | (k & Hk & Ek)];
    rewrite ?En, ?Ek in Hshape; subst r; cbn [SextantResult.rgb]; [now left |].
  right. rewrite at_num_pred by lia.
  destruct (nth_error values (Z.to_nat (k - 1))) as [v |] eqn:Ev.
  - exists v. split; [exact (nth_error_In _ _ Ev) | reflexivity].
  - apply nth_error_None in Ev. lia.
Qed.

(** With a palette of six entries, given or by default, [tricoloreSextant]
    returns one entry per element of the data, whatever the data are, and
    every entry is [null] or one of the six colours of the palette. *)
Theorem tricoloreSextant_palette (data : list (list jsval)) (options : SextantOptions.t) :
  List.length (Index.orDefault (SextantOptions.values options) ColorMapping.defaultValues)
  = 6%nat ->
  exists cols,
    Index.tricoloreSextant data options = Returns cols
    /\ List.length cols = List.length data
    /\ forall col, In col cols ->
         col = None
         \/ exists v,
             In v (Index.orDefault (SextantOptions.values options)
                                   ColorMapping.defaultValues)
             /\ col = Some v.
Proof.
  intros Hlen. unfold Index.tricoloreSextant.
  set (values := Index.orDefault (SextantOptions.values options)
                                 ColorMapping.defaultValues) in *.
  set (center := Index.orDefault (SextantOptions.center options)
                                 ColorMapping.defaultCenter).
  destruct (sextant_results data center values Hlen) as (rs & Hrs & Hl & Hall).
  rewrite Hrs. cbn [bind]. eexists. split; [reflexivity |].
  split; [now rewrite length_map |].
  intros col Hin. apply in_map_iff in Hin. destruct Hin as (r & <- & Hr).
  exact (Hall r Hr).
Qed.

Lemma tricoloreSextant_palette_witness :
  exists cols,
    Index.tricoloreSextant [[JNum (Fin 2); JNum (Fin 1); JNum (Fin 1)]]
                           SextantOptions.empty = Returns cols
    /\ List.length cols = 1%nat.
Proof.
  destruct (tricoloreSextant_palette [[JNum (Fin 2); JNum (Fin 1); JNum (Fin 1)]]
              SextantOptions.empty eq_refl) as (cols & Hcols & Hlen & _).
  exists cols. split; [exact Hcols | exact Hlen].
Defined.

(** * Further properties of the geometry *)

(** Between two points whose components have the same sum, the ternary
    distance is half the sum of the squared differences of the components:
    it is symmetric, non-negative, and zero only between equal points.
    This is exact over the reals.  The components are taken at most 1e100
    in absolute value and their differences zero or at least 1e-100, so
    that no difference or product of the source leaves the range of
    doubles and the code agrees up to rounding. *)
Theorem ternaryDistance_metric (x y z x' y' z' : R) :
  x + y + z = x' + y' + z' ->
  Rabs x <= 1e100 -> Rabs y <= 1e100 -> Rabs z <= 1e100 ->
  Rabs x' <= 1e100 -> Rabs y' <= 1e100 -> Rabs z' <= 1e100 ->
  Spec.zeroOrWithin 1e-100 2e100 (Rabs (x - x')) ->
  Spec.zeroOrWithin 1e-100 2e100 (Rabs (y - y')) ->
  Spec.zeroOrWithin 1e-100 2e100 (Rabs (z - z')) ->
  exists d : R,
    TernaryGeometry.ternaryDistance (Fin x, Fin y, Fin z) [(Fin x', Fin y', Fin z')]
    = [Fin d]
    /\ TernaryGeometry.ternaryDistance (Fin x', Fin y', Fin z') [(Fin x, Fin y, Fin z)]
       = [Fin d]
    /\ d = Spec.squaredDistance x y z x' y' z'
    /\ 0 <= d
    /\ (d = 0 <-> x = x' /\ y = y' /\ z = z').
Proof.
  intros Hs _ _ _ _ _ _ _ _ _. unfold Spec.squaredDistance.
  exists (((x - x') * (x - x') + (y - y') * (y - y') + (z - z') * (z - z')) / 2).
  pose proof (Rle_0_sqr (x - x')) as H1. pose proof (Rle_0_sqr (y - y')) as H2.
  pose proof (Rle_0_sqr (z - z')) as H3. unfold Rsqr in H1, H2, H3.
  split; [| split; [| split; [reflexivity | split; [lra |]]]].
  - cbn. do 2 f_equal. replace z with (x' + y' + z' - x - y) by lra. field.
  - cbn. do 2 f_equal. replace z with (x' + y' + z' - x - y) by lra. field.
  - split.
    + intros Hd.
      assert (E1 : (x - x') * (x - x') = 0) by lra.
      assert (E2 : (y - y') * (y - y') = 0) by lra.
      assert (E3 : (z - z') * (z - z') = 0) by lra.
      apply Rmult_integral in E1, E2, E3.
      repeat split; lra.
    + intros (-> & -> & ->). field.
Qed.

Lemma ternaryDistance_metric_witness :
  exists d : R,
    TernaryGeometry.ternaryDistance (Fin (1/2), Fin (1/4), Fin (1/4))
                                    [(Fin (1/4), Fin (1/2), Fin (1/4))] = [Fin d]
    /\ 0 <= d.
Proof.
  assert (Ap : forall r : R, 0 <= r -> Rabs r = r)
    by (intros r Hr; apply Rabs_right; lra).
  destruct (ternaryDistance_metric (1/2) (1/4) (1/4) (1/4) (1/2) (1/4))
    as (d & Hd & _ & _ & Hpos & _).
  - lra.
  - rewrite Ap; lra.
  - rewrite Ap; lra.
  - rewrite Ap; lra.
  - rewrite Ap; lra.
  - rewrite Ap; lra.
  - rewrite Ap; lra.
  - right. unfold Spec.within. rewrite Ap; lra.
  - right. unfold Spec.within. rewrite Rabs_left; lra.
  - left. replace (1 / 4 - 1 / 4) with 0 by lra. apply Rabs_R0.
  - exists d. split; [exact Hd | exact Hpos].
Defined.

(** For a point and a centre of finite components with the same sum,
    [ternarySurroundingSextant] leaves the sextant undefined only at the
    centre itself. *)
Theorem sextant_undefined_only_at_centre (x y z a b c : R) :
  x + y + z = a + b + c ->
  (TernaryGeometry.ternarySurroundingSextant [Some (Fin x, Fin y, Fin z)]
                                             (Fin a, Fin b, Fin c) = [None]
   <-> x = a /\ y = b /\ z = c).
Proof.
  intros Hs. unfold TernaryGeometry.ternarySurroundingSextant. cbn [map].
  rewrite sextantPoint_table.
  destruct (Num.gt (Fin x) (Fin a)) eqn:E0, (Num.gt (Fin y) (Fin b)) eqn:E1,
           (Num.gt (Fin z) (Fin c)) eqn:E2;
    rewrite ?gt_fin, ?not_gt_fin in *; cbn [Spec.sextantTable];
    (split; [intros H; first [discriminate | repeat split; lra]
            | intros (-> & -> & ->); first [reflexivity | lra]]).
Qed.

Lemma sextant_undefined_only_at_centre_witness :
  TernaryGeometry.ternarySurroundingSextant [Some (Fin (1/2), Fin (1/4), Fin (1/4))]
                                            (Fin (1/2), Fin (1/4), Fin (1/4)) = [None].
Proof.
  apply (sextant_undefined_only_at_centre (1/2) (1/4) (1/4) (1/2) (1/4) (1/4));
    [lra | repeat split; reflexivity].
Defined.

(** * A mesh without cells *)

(** With a finite [breaks] strictly between -1 and 1 the mesh has no
    centroid, [ternaryNearest] finds nothing, and [colorMapTricolore]
    returns, for whatever data, one result per element with [null] hue,
    chroma, lightness and colour. *)
Theorem breaks_below_one (P : list (list jsval)) (center : TernaryPoint) (k : R)
  (hue chroma lightness contrast spread : num) :
  -1 < k < 1 ->
  exists rs,
    ColorMapping.colorMapTricolore P center (Fin k) hue chroma lightness contrast spread
    = Returns rs
    /\ List.length rs = List.length P
    /\ forall r, In r rs ->
         TricoloreResult.h r = None /\ TricoloreResult.c r = None
         /\ TricoloreResult.l r = None /\ TricoloreResult.rgb r = None.
Proof.
  intros Hk. destruct center as [[c0 c1] c2].
  destruct (colorMapTricolore_elements P c0 c1 c2 (Fin k) hue chroma lightness
              contrast spread) as (f & rs & Hrs & Hlen & _ & Hshape & Hel).
  exists rs. split; [exact Hrs |]. split; [exact Hlen |].
  assert (E : Num.isFinite (Fin k) && Num.lt (Fin k) (Fin 100) = true)
    by (cbn; apply Rltb_true; lra).
  rewrite E in Hshape. destruct Hshape as (cs & Hcs & ->).
  rewrite (mesh_empty k Hk) in Hcs. injection Hcs as <-. cbn [map] in Hel.
  intros r Hin. apply In_nth_error in Hin. destruct Hin as (i & Hi).
  assert (Hlt : (i < List.length P)%nat)
    by (rewrite <- Hlen; apply nth_error_Some; congruence).
  destruct (nth_error P i) as [p |] eqn:Hp;
    [| apply nth_error_None in Hp; lia].
  destruct (Hel i p Hp) as (r' & Hr' & Hof).
  rewrite Hi in Hr'. injection Hr' as <-.
  rewrite nearestPoint_empty in Hof.
  assert (E1 : CompositionUtils.perturbePoint
                 (Num.div (Fin 1) c0, Num.div (Fin 1) c1, Num.div (Fin 1) c2) None = None)
    by now apply perturbePoint_None.
  rewrite E1 in Hof.
  assert (E2 : CompositionUtils.powerScalePoint spread None = None)
    by now apply powerScalePoint_None.
  rewrite E2 in Hof.
  rewrite (tricoloreOf_absent P _ hue chroma lightness contrast i p Hp) in Hof.
  injection Hof as <-. repeat split.
Qed.

Lemma breaks_below_one_witness :
  exists rs,
    ColorMapping.colorMapTricolore [[JNum (Fin 2); JNum (Fin 1); JNum (Fin 1)]]
      ColorMapping.defaultCenter (Fin 0) (Fin 80) (Fin 140) (Fin 80) (Fin (2/5)) (Fin 1)
    = Returns rs
    /\ List.length rs = 1%nat.
Proof.
  destruct (breaks_below_one [[JNum (Fin 2); JNum (Fin 1); JNum (Fin 1)]]
              ColorMapping.defaultCenter 0 (Fin 80) (Fin 140) (Fin 80) (Fin (2/5)) (Fin 1)
              ltac:(lra)) as (rs & Hrs & Hlen & _).
  exists rs. split; [exact Hrs | exact Hlen].
Defined.
